(** * Robotic automation advisor: cost-benefit and recommendation engine

    A shallow embedding of [backend/services/robotics_analysis_service.py]
    (with its caller in [backend/app/main.py]) and the properties the
    specification states about it.

    Conventions of the embedding.

    - Python numbers ([int] and [float]) are one type [num]: an exact
      rational, or one of the IEEE special values [+inf], [-inf], [nan].
      Arithmetic on finite values is exact (no rounding, no overflow, no
      signed zero, and an [int] is never too large to become a [float]);
      the special values follow the IEEE rules Python uses.
    - A dynamically typed value read from a JSON document or a request is a
      [pyval].  Records ([robot], [task], ...) model the dictionaries the
      code reads, one field per key the code looks at; a field of type
      [option pyval] distinguishes an absent key ([None]) from a key that
      is present (possibly with the value [VNone]).
    - An exception is a value of [result]; [try_except] is Python's
      [try ... except (E1, E2)].
    - Calls to [print] are omitted.

    The handling of the model's responses in
    [backend/services/gemini_service.py] and in [perform_full_analysis],
    and the robot catalog of [backend/services/urdf_service.py], are
    embedded after the analysis.  There a text is the list of its code
    points, and [json.loads], like [float], is a parameter. *)

From Stdlib Require Import QArith Qcanon Qround ZArith.
From stdpp Require Import base numbers option list gmap strings.

Local Open Scope Z_scope.

(* ================================================================== *)
(** * Python numbers *)

Inductive num : Type :=
  | Fin (q : Qc)
  | PInf
  | NInf
  | NaN.

Global Instance num_eq_dec : EqDecision num.
Proof. solve_decision. Defined.

Definition qz (z : Z) : Qc := Q2Qc (inject_Z z).
Definition nz (z : Z) : num := Fin (qz z).

(** [inf * q]: the sign of [q] decides, and [inf * 0] is [nan]. *)
Definition inf_times (q : Qc) : num :=
  if bool_decide (0 < q)%Qc then PInf
  else if bool_decide (q < 0)%Qc then NInf
  else NaN.

Definition num_opp (x : num) : num :=
  match x with
  | Fin q => Fin (- q)%Qc
  | PInf => NInf
  | NInf => PInf
  | NaN => NaN
  end.

Definition num_add (x y : num) : num :=
  match x, y with
  | NaN, _ | _, NaN => NaN
  | Fin a, Fin b => Fin (a + b)%Qc
  | PInf, NInf | NInf, PInf => NaN
  | PInf, _ | _, PInf => PInf
  | NInf, _ | _, NInf => NInf
  end.

Definition num_sub (x y : num) : num := num_add x (num_opp y).

Definition num_mul (x y : num) : num :=
  match x, y with
  | NaN, _ | _, NaN => NaN
  | Fin a, Fin b => Fin (a * b)%Qc
  | Fin a, PInf | PInf, Fin a => inf_times a
  | Fin a, NInf | NInf, Fin a => inf_times (- a)%Qc
  | PInf, PInf | NInf, NInf => PInf
  | PInf, NInf | NInf, PInf => NInf
  end.

(** The quotient [x / y] for a divisor that is not zero. *)
Definition num_quot (x y : num) : num :=
  match x, y with
  | NaN, _ | _, NaN => NaN
  | Fin a, Fin b => Fin (a / b)%Qc
  | Fin _, (PInf | NInf) => Fin 0%Qc
  | PInf, Fin b => inf_times b
  | NInf, Fin b => inf_times (- b)%Qc
  | (PInf | NInf), (PInf | NInf) => NaN
  end.

(** Comparisons; every comparison with [nan] is false. *)
Definition num_ltb (x y : num) : bool :=
  match x, y with
  | NaN, _ | _, NaN => false
  | Fin a, Fin b => bool_decide (a < b)%Qc
  | NInf, NInf => false
  | NInf, _ => true
  | _, NInf => false
  | PInf, _ => false
  | Fin _, PInf => true
  end.

Definition num_leb (x y : num) : bool :=
  match x, y with
  | NaN, _ | _, NaN => false
  | Fin a, Fin b => bool_decide (a ≤ b)%Qc
  | NInf, _ => true
  | _, NInf => false
  | _, PInf => true
  | PInf, Fin _ => false
  end.

Definition num_eqb (x y : num) : bool :=
  match x, y with
  | NaN, _ | _, NaN => false
  | _, _ => bool_decide (x = y)
  end.


(** [math.isnan] and [math.isinf]. *)
Definition isnan (x : num) : bool :=
  match x with NaN => true | _ => false end.
Definition isinf (x : num) : bool :=
  match x with PInf | NInf => true | _ => false end.

Declare Scope num_scope.
Delimit Scope num_scope with num.
Bind Scope num_scope with num.
Infix "+" := num_add : num_scope.
Infix "-" := num_sub : num_scope.
Infix "*" := num_mul : num_scope.
Infix "/" := num_quot : num_scope.
Infix "<?" := num_ltb : num_scope.
Infix "<=?" := num_leb : num_scope.

(* ================================================================== *)
(** * Exceptions *)

Inductive exn : Type :=
  | ValueError
  | TypeError
  | ZeroDivisionError
  | OverflowError.

Global Instance exn_eq_dec : EqDecision exn.
Proof. solve_decision. Defined.

Inductive result (A : Type) : Type :=
  | Ok (a : A)
  | Raise (e : exn).
Arguments Ok {A} a.
Arguments Raise {A} e.

Global Instance result_eq_dec {A} `{EqDecision A} : EqDecision (result A).
Proof. solve_decision. Defined.

Global Instance result_ret : MRet result := λ A a, Ok a.
Global Instance result_fmap : FMap result := λ A B f m,
  match m with
  | Ok a => Ok (f a)
  | Raise e => Raise e
  end.
Global Instance result_bind : MBind result := λ A B f m,
  match m with
  | Ok a => f a
  | Raise e => Raise e
  end.

(** [try: body except (caught): handler]. *)
Definition try_except {A} (body : result A) (caught : list exn)
    (handler : result A) : result A :=
  match body with
  | Ok a => Ok a
  | Raise e => if bool_decide (e ∈ caught) then handler else Raise e
  end.

(** Python's [x / y] on numbers. *)
Definition py_div (x y : num) : result num :=
  if num_eqb y (nz 0) then Raise ZeroDivisionError else Ok (x / y)%num.

(** Python's [int(x)] on a number: truncation towards zero. *)
Definition py_int (x : num) : result Z :=
  match x with
  | Fin q => Ok (Z.quot (Qnum q) (Z.pos (Qden q)))
  | PInf | NInf => Raise OverflowError
  | NaN => Raise ValueError
  end.

(* ================================================================== *)
(** * Dynamically typed values *)

Inductive pyval : Type :=
  | VNone
  | VBool (b : bool)
  | VNum (x : num)
  | VStr (s : string)
  | VOther.   (* a list or a dictionary *)

Global Instance pyval_eq_dec : EqDecision pyval.
Proof. solve_decision. Defined.

Definition is_none (v : pyval) : bool :=
  match v with VNone => true | _ => false end.

Definition num_of_bool (b : bool) : num := if b then nz 1 else nz 0.

(** The sentinel the cost model returns when a cost is not computable. *)
Definition NA : pyval := VStr "N/A".

(** [d.get(key)] for a key modelled as an optional field. *)
Definition dict_get (field : option pyval) : pyval := default VNone field.

(* ================================================================== *)
(** * Data model *)

Record robot : Type := {
  robot_name : string;
  purchase_price : option pyval;
  op_cost_per_min : option pyval;
  end_effector_cost_percent : option pyval
}.

Global Instance robot_eq_dec : EqDecision robot.
Proof. solve_decision. Defined.

(* ================================================================== *)
(** * RobotCostModel: [calculate_effective_robot_cost] *)

(** What the builtin [float] makes of a string: its value, or [None] when
    it raises [ValueError].  The embedding is parametric in it. *)
Class FloatParser : Type := str_to_float : string → option num.

Section RobotCostModel.

Context {float_parser : FloatParser}.

(** The builtin [float(v)]. *)
Definition py_float (v : pyval) : result num :=
  match v with
  | VNone => Raise TypeError
  | VBool b => Ok (num_of_bool b)
  | VNum x => Ok x
  | VStr s =>
      match str_to_float s with
      | Some x => Ok x
      | None => Raise ValueError
      end
  | VOther => Raise TypeError
  end.

(** The inner [try: float(v) except (ValueError, TypeError)] blocks for
    [C] and [E], which leave the initial [0.0] in place. *)
Definition float_or_zero (v : pyval) : result num :=
  if is_none v then Ok (nz 0)
  else try_except (py_float v) [ValueError; TypeError] (Ok (nz 0)).

Definition calculate_effective_robot_cost (robot_info : robot)
    (depreciation_years hours_per_week efficiency_gain : pyval)
    : result pyval :=
  let C := dict_get (purchase_price robot_info) in
  let O := dict_get (op_cost_per_min robot_info) in
  let E := dict_get (end_effector_cost_percent robot_info) in
  try_except
    (if is_none O then Ok NA else
     C_float ← float_or_zero C;
     E_float ← float_or_zero E;
     T ← py_float depreciation_years;
     H ← py_float hours_per_week;
     G ← py_float efficiency_gain;
     O_float ← py_float O;
     if (T <=? nz 0)%num || (H <=? nz 0)%num then Ok NA else
     if (nz 1 + G <=? nz 0)%num then Ok NA else
     let total_capex := (C_float * (nz 1 + E_float))%num in
     let total_operating_minutes_in_life := (T * nz 52 * H * nz 60)%num in
     capex_per_min ←
       (if (nz 0 <? total_operating_minutes_in_life)%num
        then py_div total_capex total_operating_minutes_in_life
        else Ok (nz 0));
     let robot_raw_cost_per_min := (capex_per_min + O_float)%num in
     robot_effective_cost_per_human_min ←
       py_div robot_raw_cost_per_min (nz 1 + G)%num;
     Ok (VNum robot_effective_cost_per_human_min))
    [ValueError; TypeError; ZeroDivisionError]
    (Ok NA).

(** The specification's coercion of [purchase_price] and
    [end_effector_cost_percent]: the number the value converts to, and 0
    when the key is absent or the value does not convert. *)
Definition coerced_or_zero (field : option pyval) : num :=
  match field with
  | None => nz 0
  | Some v => match py_float v with Ok x => x | Raise _ => nz 0 end
  end.

(** Does the numeric conversion of [v] fail? *)
Definition conversion_fails (v : pyval) : bool :=
  match py_float v with Ok _ => false | Raise _ => true end.

End RobotCostModel.

(* ================================================================== *)
(** * Tasks, options and cost comparisons *)

Record task : Type := {
  task_id : Z;              (* key 'id' *)
  actor_type : string
}.

Record assignment : Type := {
  a_task_id : Z;            (* key 'task_id' *)
  a_robot_name : string     (* key 'robot_name' *)
}.

Record automation_option : Type := {
  option_id : string;
  assignments : list assignment
}.

(** One entry of [robot_cost_comparison]. *)
Record robot_cost_entry : Type := {
  rc_robot_name : string;                       (* 'robot_name' *)
  robot_effective_cost_per_human_min : pyval;   (* a number or "N/A" *)
  human_cost_per_min : num;
  is_cheaper : pyval                            (* a bool or "N/A" *)
}.

(** One entry of [cost_benefit_results]. *)
Record cost_benefit_result : Type := {
  cb_option_id : string;                        (* 'option_id' *)
  robot_cost_comparison : list robot_cost_entry
}.

(** The dictionary stored in [annual_projections]. *)
Record option_projection : Type := {
  proj_option_id : string;                      (* 'option_id' *)
  baseline_cost_per_cycle : num;
  robot_cost_per_cycle : num;
  annual_baseline_cost : num;
  annual_cost_with_automation : num;
  robot_capex : num;
  cumulative_costs_by_year : list num;
  baseline_cumulative_costs_by_year : list num
}.

(** The dictionary stored in [option_savings] (and, without its
    [option_id], in [best_option_details]). *)
Record option_saving : Type := {
  sav_option_id : string;                       (* 'option_id' *)
  num_automated_tasks : nat;
  num_tasks_with_savings : nat;
  savings_per_cycle : num;
  annual_savings : num;
  percent_savings : num
}.

(** The justification text, abstracted to its kind and the values the
    text reports. *)
Inductive justification_text : Type :=
  | NoValidCostData
  | OptionRecommended (best : string) (details : option option_saving)
  | NotCostEffective.

(** The dictionary [determine_recommendation_new] returns.  The last three
    keys are absent from the early return. *)
Record recommendation : Type := {
  recommended_option_id : option string;        (* [None] is Python's None *)
  justification : justification_text;
  option_savings : option (list option_saving);
  annual_projections : option (list option_projection);
  chart_data_verified : option bool
}.

Global Instance task_eq_dec : EqDecision task.
Proof. solve_decision. Defined.
Global Instance assignment_eq_dec : EqDecision assignment.
Proof. solve_decision. Defined.
Global Instance automation_option_eq_dec : EqDecision automation_option.
Proof. solve_decision. Defined.
Global Instance robot_cost_entry_eq_dec : EqDecision robot_cost_entry.
Proof. solve_decision. Defined.
Global Instance cost_benefit_result_eq_dec : EqDecision cost_benefit_result.
Proof. solve_decision. Defined.
Global Instance option_projection_eq_dec : EqDecision option_projection.
Proof. solve_decision. Defined.
Global Instance option_saving_eq_dec : EqDecision option_saving.
Proof. solve_decision. Defined.
Global Instance justification_text_eq_dec : EqDecision justification_text.
Proof. solve_decision. Defined.
Global Instance recommendation_eq_dec : EqDecision recommendation.
Proof. solve_decision. Defined.

(* ================================================================== *)
(** * Strings: [str.lower] (on the ASCII letters) and [needle in s] *)

Definition ascii_lower (c : Ascii.ascii) : Ascii.ascii :=
  let n := Ascii.nat_of_ascii c in
  if bool_decide (65 ≤ n ≤ 90)%nat then Ascii.ascii_of_nat (n + 32) else c.

Fixpoint lower (s : string) : string :=
  match s with
  | EmptyString => EmptyString
  | String c s' => String (ascii_lower c) (lower s')
  end.

Fixpoint contains (needle s : string) : bool :=
  String.prefix needle s ||
  match s with
  | EmptyString => false
  | String _ s' => contains needle s'
  end.

(** Truthiness of a string. *)
Definition str_truthy (s : string) : bool :=
  match s with EmptyString => false | _ => true end.

(* ================================================================== *)
(** * CycleMetrics, SavingsProjector and RecommendationSelector:
      [determine_recommendation_new] *)

Definition task_duration_mins : num := nz 1.
Definition weeks_per_year : num := nz 52.

Definition num_of_nat (n : nat) : num := nz (Z.of_nat n).

(** [human_tasks = [t for t in tasks if t.get('actor_type') == 'human']] *)
Definition human_tasks_of (tasks : list task) : list task :=
  filter (λ t, actor_type t = "human") tasks.

Record cycle_metrics : Type := {
  total_human_tasks : nat;
  cycle_time_mins : num;
  cycles_per_hour : num;
  cycles_per_year : num
}.

Global Instance cycle_metrics_eq_dec : EqDecision cycle_metrics.
Proof. solve_decision. Defined.

(** Lines 155-160. *)
Definition compute_cycle_metrics (tasks : list task) (hours_per_week : num)
    : result cycle_metrics :=
  let human_tasks := human_tasks_of tasks in
  let total_human_tasks := length human_tasks in
  let cycle_time_mins := (num_of_nat total_human_tasks * task_duration_mins)%num in
  cycles_per_hour ←
    (if (nz 0 <? cycle_time_mins)%num then py_div (nz 60) cycle_time_mins
     else Ok (nz 1));
  let cycles_per_year := (cycles_per_hour * hours_per_week * weeks_per_year)%num in
  Ok {| total_human_tasks := total_human_tasks;
        cycle_time_mins := cycle_time_mins;
        cycles_per_hour := cycles_per_hour;
        cycles_per_year := cycles_per_year |}.

(** The lookup table [robot_metadata]: later robots with the same name
    replace earlier ones, robots with an empty name are skipped. *)
Definition build_robot_metadata (available_robots : list robot)
    : gmap string robot :=
  foldl (λ robot_metadata robot,
           if str_truthy (robot_name robot)
           then <[robot_name robot := robot]> robot_metadata
           else robot_metadata)
        ∅ available_robots.

(** [{assign['task_id']: assign['robot_name'] for assign in assignments}] *)
Definition build_task_to_robot_map (assignments : list assignment)
    : gmap Z string :=
  foldl (λ m assign, <[a_task_id assign := a_robot_name assign]> m)
        ∅ assignments.

(** [isinstance(v, (int, float))], with the number the value stands for
    ([bool] is a subclass of [int]). *)
Definition num_of_pyval (v : pyval) : option num :=
  match v with
  | VBool b => Some (num_of_bool b)
  | VNum x => Some x
  | _ => None
  end.

(** [robot_cost_map]: the entries whose cost is an [int] or a [float]. *)
Definition build_robot_cost_map (robot_costs : list robot_cost_entry)
    : gmap string num :=
  foldl (λ robot_cost_map robot_comp,
           match num_of_pyval (robot_effective_cost_per_human_min robot_comp) with
           | Some cost => <[rc_robot_name robot_comp := cost]> robot_cost_map
           | None => robot_cost_map
           end)
        ∅ robot_costs.

(** Lines 211-232: the pair [(total_cost_with_automation_per_cycle,
    total_human_cost_per_cycle)]. *)
Definition cycle_costs (human_cost_min : num) (human_tasks : list task)
    (task_to_robot_map : gmap Z string) (robot_cost_map : gmap string num)
    : num * num :=
  foldl (λ '(total_cost_with_automation_per_cycle, total_human_cost_per_cycle) task,
           let human_cost := (human_cost_min * task_duration_mins)%num in
           let total_human_cost_per_cycle :=
             (total_human_cost_per_cycle + human_cost)%num in
           match task_to_robot_map !! task_id task with
           | Some robot_name =>
               match robot_cost_map !! robot_name with
               | Some cost =>
                   let robot_cost := (cost * task_duration_mins)%num in
                   ((total_cost_with_automation_per_cycle + robot_cost)%num,
                    total_human_cost_per_cycle)
               | None =>
                   ((total_cost_with_automation_per_cycle + human_cost)%num,
                    total_human_cost_per_cycle)
               end
           | None =>
               ((total_cost_with_automation_per_cycle + human_cost)%num,
                total_human_cost_per_cycle)
           end)
        (nz 0, nz 0) human_tasks.

(** Lines 264-274. *)
Definition default_purchase_price (robot_name : string) : num :=
  if contains "atlas" (lower robot_name) then nz 250000
  else if contains "jvrc" (lower robot_name) then nz 150000
  else if contains "digit" (lower robot_name) then nz 200000
  else if contains "ggc" (lower robot_name)
          || contains "testmodel" (lower robot_name) then nz 180000
  else nz 100000.

(** [1 + v] for a dynamically typed [v]. *)
Definition one_plus (v : pyval) : result num :=
  match num_of_pyval v with
  | Some x => Ok (nz 1 + x)%num
  | None => Raise TypeError
  end.

(** Lines 250-279: the body of the CAPEX loop for one robot name. *)
Definition robot_total_cost (robot_metadata : gmap string robot)
    (robot_name : string) : result num :=
  let robot_purchase_price :=
    match robot_metadata !! robot_name with
    | Some robot_info => default VNone (purchase_price robot_info)
    | None => VNone
    end in
  let robot_end_effector_pct :=
    match robot_metadata !! robot_name with
    | Some robot_info =>
        default (VNum (Fin (Q2Qc (1 # 4)))) (end_effector_cost_percent robot_info)
    | None => VNum (Fin (Q2Qc (1 # 4)))
    end in
  let robot_purchase_price :=
    match num_of_pyval robot_purchase_price with
    | Some price => price
    | None => default_purchase_price robot_name
    end in
  factor ← one_plus robot_end_effector_pct;
  Ok (robot_purchase_price * factor)%num.

(** Lines 244-280: the loop over [unique_robots], in the order the names
    are enumerated. *)
Fixpoint sum_robot_capex (robot_metadata : gmap string robot)
    (names : list string) (robot_capex : num) : result num :=
  match names with
  | [] => Ok robot_capex
  | robot_name :: names =>
      robot_total_cost ← robot_total_cost robot_metadata robot_name;
      sum_robot_capex robot_metadata names (robot_capex + robot_total_cost)%num
  end.

(** Lines 318-328: every entry that is not finite is overwritten with
    [replacement] at its index. *)
Definition verify_chart_data (replacement : nat → num) (costs : list num)
    : list num :=
  imap (λ i cost, if isnan cost || isinf cost then replacement i else cost)
       costs.

(** [range(1, n + 1)] *)
Definition years_up_to (n : Z) : list nat := seq 1 (Z.to_nat n).

(** Lines 357-360. *)
Definition count_tasks_with_savings (human_cost_min : num)
    (task_to_robot_map : gmap Z string) (robot_cost_map : gmap string num)
    : nat :=
  length (filter (λ kv : Z * string,
                    match robot_cost_map !! kv.2 with
                    | Some cost => (cost <? human_cost_min)%num
                    | None => false
                    end = true)
                 (map_to_list task_to_robot_map)).

(** Lines 198-370: what one iteration of the main loop computes for a
    cost-comparison entry whose automation option was found. *)
Definition evaluate_option (human_cost_min depreciation_years : num)
    (human_tasks : list task) (cycles_per_year : num)
    (robot_metadata : gmap string robot)
    (option_id : string) (robot_costs : list robot_cost_entry)
    (automation_option : automation_option)
    : result (option_projection * option_saving) :=
  let assignments := assignments automation_option in
  let num_automated_tasks := length assignments in
  let task_to_robot_map := build_task_to_robot_map assignments in
  let robot_cost_map := build_robot_cost_map robot_costs in
  let '(total_cost_with_automation_per_cycle, total_human_cost_per_cycle) :=
    cycle_costs human_cost_min human_tasks task_to_robot_map robot_cost_map in
  let savings_per_cycle :=
    (total_human_cost_per_cycle - total_cost_with_automation_per_cycle)%num in
  let annual_human_cost := (total_human_cost_per_cycle * cycles_per_year)%num in
  let annual_cost_with_automation :=
    (total_cost_with_automation_per_cycle * cycles_per_year)%num in
  let annual_savings := (savings_per_cycle * cycles_per_year)%num in
  let unique_robots : gset string := map_img task_to_robot_map in
  robot_capex ← sum_robot_capex robot_metadata (elements unique_robots) (nz 0);
  let cumulative_costs_by_year :=
    verify_chart_data
      (λ i, if bool_decide (i = 0%nat) then robot_capex
            else (robot_capex + annual_cost_with_automation * num_of_nat i)%num)
      [robot_capex] in
  let baseline_cumulative_costs_by_year :=
    verify_chart_data
      (λ i, if bool_decide (i = 0%nat) then nz 0
            else (annual_human_cost * num_of_nat i)%num)
      [nz 0] in
  last_year ← py_int depreciation_years;
  let years := years_up_to last_year in
  let cumulative_costs_by_year :=
    cumulative_costs_by_year ++
    ((λ year, (robot_capex + annual_cost_with_automation * num_of_nat year)%num)
       <$> years) in
  let baseline_cumulative_costs_by_year :=
    baseline_cumulative_costs_by_year ++
    ((λ year, (annual_human_cost * num_of_nat year)%num) <$> years) in
  let num_tasks_with_savings :=
    count_tasks_with_savings human_cost_min task_to_robot_map robot_cost_map in
  percent_savings ←
    (if (nz 0 <? total_human_cost_per_cycle)%num
     then q ← py_div savings_per_cycle total_human_cost_per_cycle;
          Ok (q * nz 100)%num
     else Ok (nz 0));
  Ok ({| proj_option_id := option_id;
         baseline_cost_per_cycle := total_human_cost_per_cycle;
         robot_cost_per_cycle := total_cost_with_automation_per_cycle;
         annual_baseline_cost := annual_human_cost;
         annual_cost_with_automation := annual_cost_with_automation;
         robot_capex := robot_capex;
         cumulative_costs_by_year := cumulative_costs_by_year;
         baseline_cumulative_costs_by_year := baseline_cumulative_costs_by_year |},
      {| sav_option_id := option_id;
         num_automated_tasks := num_automated_tasks;
         num_tasks_with_savings := num_tasks_with_savings;
         savings_per_cycle := savings_per_cycle;
         annual_savings := annual_savings;
         percent_savings := percent_savings |}).

(** The variables the main loop updates. *)
Record loop_state : Type := {
  best_option_id : option string;
  highest_total_savings : num;
  best_option_details : option option_saving;
  st_option_savings : list option_saving;
  st_annual_projections : list option_projection
}.

Definition initial_state : loop_state :=
  {| best_option_id := None;
     highest_total_savings := NInf;
     best_option_details := None;
     st_option_savings := [];
     st_annual_projections := [] |}.

(** Lines 353-384: record the option's figures and keep it as the best
    one when its annual savings are positive and strictly higher. *)
Definition record_option (st : loop_state)
    (projection : option_projection) (saving : option_saving) : loop_state :=
  let better :=
    (highest_total_savings st <? annual_savings saving)%num
    && (nz 0 <? annual_savings saving)%num in
  {| best_option_id :=
       if better then Some (sav_option_id saving) else best_option_id st;
     highest_total_savings :=
       if better then annual_savings saving else highest_total_savings st;
     best_option_details :=
       if better then Some saving else best_option_details st;
     st_option_savings := st_option_savings st ++ [saving];
     st_annual_projections := st_annual_projections st ++ [projection] |}.

(** Lines 188-195: the first automation option with the given id. *)
Definition find_option (automation_options : list automation_option)
    (id : string) : option automation_option :=
  list_find (λ opt, option_id opt = id) automation_options
    ≫= λ p, Some p.2.

(** One iteration of the main loop (lines 182-384). *)
Definition loop_body (human_cost_min depreciation_years : num)
    (human_tasks : list task) (cycles_per_year : num)
    (robot_metadata : gmap string robot)
    (automation_options : list automation_option)
    (st : loop_state) (option_result : cost_benefit_result)
    : result loop_state :=
  match find_option automation_options (cb_option_id option_result) with
  | None => Ok st
  | Some automation_option =>
      '(projection, saving) ←
        evaluate_option human_cost_min depreciation_years human_tasks
          cycles_per_year robot_metadata (cb_option_id option_result)
          (robot_cost_comparison option_result) automation_option;
      Ok (record_option st projection saving)
  end.

Fixpoint run_loop {A S} (body : S → A → result S) (st : S) (l : list A)
    : result S :=
  match l with
  | [] => Ok st
  | x :: l => st' ← body st x; run_loop body st' l
  end.

Definition determine_recommendation_new
    (cost_benefit_results : list cost_benefit_result)
    (human_cost_min : num)
    (automation_options : list automation_option)
    (tasks : list task)
    (depreciation_years hours_per_week : num)
    (available_robots : list robot) : result recommendation :=
  let human_tasks := human_tasks_of tasks in
  metrics ← compute_cycle_metrics tasks hours_per_week;
  if bool_decide (cost_benefit_results = []) || (human_cost_min <=? nz 0)%num
  then Ok {| recommended_option_id := None;
             justification := NoValidCostData;
             option_savings := None;
             annual_projections := None;
             chart_data_verified := None |}
  else
    let robot_metadata := build_robot_metadata available_robots in
    st ← run_loop
           (loop_body human_cost_min depreciation_years human_tasks
              (cycles_per_year metrics) robot_metadata automation_options)
           initial_state cost_benefit_results;
    let '(best_option_id, justification) :=
      match best_option_id st with
      | Some id =>
          if str_truthy id && (nz 0 <? highest_total_savings st)%num
          then (id, OptionRecommended id (best_option_details st))
          else ("No_Automation", NotCostEffective)
      | None => ("No_Automation", NotCostEffective)
      end in
    Ok {| recommended_option_id := Some best_option_id;
          justification := justification;
          option_savings := Some (st_option_savings st);
          annual_projections := Some (st_annual_projections st);
          chart_data_verified := Some true |}.

(* ================================================================== *)
(** * AnalysisOrchestrator: [perform_full_analysis] *)

(** The external collaborators, and the two text-processing steps of the
    orchestrator that the embedding does not look into. *)
Record collaborators : Type := {
  (** [gemini_service.analyze_video_process]: the task list, or [None]
      when it returns [None] or something that is not a list. *)
  analyze_video_process : string → option (list task);
  (** [urdf_service.get_available_robots] *)
  get_available_robots : list robot;
  (** [gemini_service.generate_text_analysis]: the response text. *)
  generate_text_analysis : string → option string;
  (** The f-string [prompt_step2] (lines 462-511). *)
  prompt_step2 : list task → list robot → string;
  (** Lines 517-598: the options parsed (or salvaged) from the response
      text; the block catches every exception and then yields []. *)
  parse_automation_options : string → list automation_option
}.

(** A call to an external collaborator. *)
Inductive call : Type :=
  | CallTaskExtractor (video_uri : string)
  | CallCatalogLoader
  | CallOptionGenerator (prompt : string).

(** The values stored in a result object. *)
Inductive payload : Type :=
  | PError (message : string)
  | PTasks (tasks : list task)
  | PRobots (robots : list robot)
  | POptions (options : list automation_option)
  | PCostBenefit (results : list cost_benefit_result)
  | PRecommendation (r : recommendation)
  | PSavings (savings : list option_saving)
  | PProjections (projections : list option_projection).

Global Instance call_eq_dec : EqDecision call.
Proof. solve_decision. Defined.
Global Instance payload_eq_dec : EqDecision payload.
Proof. solve_decision. Defined.

(** A result object: a dictionary literal, as the list of its items. *)
Definition pydict : Type := list (string * payload).

Definition keys (d : pydict) : list string := d.*1.

(** [d.get(key)] *)
Definition pydict_get (d : pydict) (key : string) : option payload :=
  list_find (λ kv, kv.1 = key) d ≫= λ p, Some p.2.2.

Definition error_object (message : string) : pydict :=
  [("error", PError message)].

(** [robot_data_map = {r['robot_name']: r for r in available_robots}] *)
Definition build_robot_data_map (available_robots : list robot)
    : gmap string robot :=
  foldl (λ m r, <[robot_name r := r]> m) ∅ available_robots.

Section AnalysisOrchestrator.

Context {float_parser : FloatParser}.

(** Lines 431-439, the body of the [try]. *)
Definition convert_inputs
    (human_cost_min depreciation_years hours_per_week efficiency_gain : pyval)
    : result (num * num * num * num) :=
  t_float ← py_float depreciation_years;
  h_float ← py_float hours_per_week;
  g ← py_float efficiency_gain;
  g_float ← py_div g (nz 100);
  oh_float ← py_float human_cost_min;
  if (oh_float <=? nz 0)%num then Raise ValueError
  else Ok (t_float, h_float, g_float, oh_float).

(** Lines 616-639: the comparison entry for one robot name. *)
Definition compare_robot (robot_data_map : gmap string robot)
    (t_float h_float g_float oh_float : num) (robot_name : string)
    : result robot_cost_entry :=
  match robot_data_map !! robot_name with
  | Some robot_info =>
      effective_cost ←
        calculate_effective_robot_cost robot_info
          (VNum t_float) (VNum h_float) (VNum g_float);
      Ok {| rc_robot_name := robot_name;
            robot_effective_cost_per_human_min := effective_cost;
            human_cost_per_min := oh_float;
            is_cheaper :=
              match num_of_pyval effective_cost with
              | Some cost => VBool (cost <? oh_float)%num
              | None => NA
              end |}
  | None =>
      Ok {| rc_robot_name := robot_name;
            robot_effective_cost_per_human_min := NA;
            human_cost_per_min := oh_float;
            is_cheaper := NA |}
  end.

(** Lines 610-646: the cost comparison of one option. *)
Definition compare_option (robot_data_map : gmap string robot)
    (t_float h_float g_float oh_float : num) (option : automation_option)
    : result cost_benefit_result :=
  let unique_robots_in_option : gset string :=
    list_to_set (a_robot_name <$> assignments option) in
  robot_cost_comparison ←
    mapM (compare_robot robot_data_map t_float h_float g_float oh_float)
         (elements unique_robots_in_option);
  Ok {| cb_option_id := option_id option;
        robot_cost_comparison := robot_cost_comparison |}.

(** Lines 604-687, once the three collaborators have answered. *)
Definition analyse (t_float h_float g_float oh_float : num)
    (tasks : list task) (available_robots : list robot)
    (automation_options : list automation_option) : result pydict :=
  let robot_data_map := build_robot_data_map available_robots in
  cost_benefit_results_new ←
    mapM (compare_option robot_data_map t_float h_float g_float oh_float)
         automation_options;
  recommendation ←
    determine_recommendation_new cost_benefit_results_new oh_float
      automation_options tasks t_float h_float available_robots;
  Ok [("process_tasks", PTasks tasks);
      ("available_robots", PRobots available_robots);
      ("automation_options", POptions automation_options);
      ("cost_benefit_analysis", PCostBenefit cost_benefit_results_new);
      ("recommendation", PRecommendation recommendation);
      ("task_savings_analysis",
         PSavings (default [] (option_savings recommendation)));
      ("annual_projections",
         PProjections (default [] (annual_projections recommendation)))].

(** The function returns the calls it made to the collaborators, in
    order, and what it returned or raised. *)
Definition perform_full_analysis (env : collaborators) (video_uri : string)
    (human_cost_min depreciation_years hours_per_week efficiency_gain : pyval)
    : list call * result pydict :=
  match convert_inputs human_cost_min depreciation_years hours_per_week
          efficiency_gain with
  | Raise e =>
      if bool_decide (e ∈ [ValueError; TypeError])
      then ([], Ok (error_object "Invalid financial input provided"))
      else ([], Raise e)
  | Ok (t_float, h_float, g_float, oh_float) =>
      let tasks := analyze_video_process env video_uri in
      let calls := [CallTaskExtractor video_uri] in
      match tasks with
      | None | Some [] =>
          (calls,
           Ok (error_object
             "Failed to analyze video process or received invalid task format."))
      | Some tasks =>
          let available_robots := get_available_robots env in
          let calls := calls ++ [CallCatalogLoader] in
          match available_robots with
          | [] =>
              (calls,
               Ok (error_object
                 "No available robot definitions found (required for cost analysis)."))
          | _ =>
              let prompt := prompt_step2 env tasks available_robots in
              let options_text := generate_text_analysis env prompt in
              let calls := calls ++ [CallOptionGenerator prompt] in
              let automation_options :=
                match options_text with
                | Some text =>
                    if str_truthy text
                    then parse_automation_options env text else []
                | None => []
                end in
              (calls,
               analyse t_float h_float g_float oh_float tasks
                 available_robots automation_options)
          end
      end
  end.

(* ================================================================ *)
(** * The request endpoint: [analyze_robotics] in [app/main.py] *)

(** The JSON payload of a request; an absent key is [VNone]. *)
Record request_data : Type := {
  rq_video_uri : pyval;
  rq_human_cost_min : pyval;
  rq_depreciation_years : pyval;
  rq_hours_per_week : pyval;
  rq_efficiency_gain : pyval
}.

(** The [try] block that converts and range-checks the inputs. *)
Definition endpoint_convert (data : request_data)
    : result (num * num * num * num) :=
  oh_float ← py_float (rq_human_cost_min data);
  t_float ← py_float (rq_depreciation_years data);
  h_float ← py_float (rq_hours_per_week data);
  g_float ← py_float (rq_efficiency_gain data);
  if (t_float <=? nz 0)%num || (h_float <=? nz 0)%num then Raise ValueError
  else if (oh_float <=? nz 0)%num then Raise ValueError
  else Ok (oh_float, t_float, h_float, g_float).

Definition unexpected_error : pydict * Z :=
  (error_object "An unexpected server error occurred.", 500).

(** The response is the JSON body and the status code; [data] is [None]
    when the request has no (or an empty) JSON payload. *)
Definition analyze_robotics (env : collaborators) (data : option request_data)
    : list call * (pydict * Z) :=
  match data with
  | None => ([], (error_object "Invalid JSON payload", 400))
  | Some data =>
      if is_none (rq_video_uri data) || is_none (rq_human_cost_min data)
         || is_none (rq_depreciation_years data)
         || is_none (rq_hours_per_week data)
         || is_none (rq_efficiency_gain data)
      then ([], (error_object "Missing required fields", 400))
      else
        match rq_video_uri data with
        | VStr video_uri =>
            if String.prefix "gs://" video_uri then
              match endpoint_convert data with
              | Raise e =>
                  if bool_decide (e ∈ [ValueError; TypeError])
                  then ([], (error_object "Invalid numerical input", 400))
                  else ([], unexpected_error)
              | Ok (oh_float, t_float, h_float, g_float) =>
                  let '(calls, results) :=
                    perform_full_analysis env video_uri (VNum oh_float)
                      (VNum t_float) (VNum h_float) (VNum g_float) in
                  match results with
                  | Raise _ => (calls, unexpected_error)
                  | Ok results =>
                      match pydict_get results "error" with
                      | Some (PError message) =>
                          if str_truthy message then (calls, (results, 500))
                          else (calls, (results, 200))
                      | _ => (calls, (results, 200))
                      end
                  end
              end
            else ([], (error_object "Invalid video_uri", 400))
        | _ => ([], (error_object "Invalid video_uri", 400))
        end
  end.

End AnalysisOrchestrator.

(* ================================================================== *)
(** * A parser for closed examples

    The decimal literals [[+-]digits[.digits]] (at least one digit), a
    fragment of what the builtin [float] accepts.  The theorems below hold
    for every [FloatParser]; this one instantiates them on concrete
    inputs. *)

Definition digit_value (c : Ascii.ascii) : option Z :=
  let n := Ascii.nat_of_ascii c in
  if bool_decide (48 ≤ n ≤ 57)%nat then Some (Z.of_nat n - 48) else None.

(** The digits of [s] read after the digits already in [acc]; [scale]
    counts the digits read after the decimal point. *)
Fixpoint read_decimal (s : string) (seen_point seen_digit : bool)
    (acc : Z) (scale : nat) : option (Z * nat) :=
  match s with
  | EmptyString => if seen_digit then Some (acc, scale) else None
  | String c s' =>
      if bool_decide (Ascii.nat_of_ascii c = 46%nat) then   (* "." *)
        if seen_point then None
        else read_decimal s' true seen_digit acc scale
      else
        d ← digit_value c;
        read_decimal s' seen_point true (10 * acc + d)
          (if seen_point then S scale else scale)
  end.

Definition unsigned_decimal (s : string) : option Qc :=
  '(digits, scale) ← read_decimal s false false 0 0;
  Some (qz digits / qz (10 ^ Z.of_nat scale))%Qc.

Definition decimal_literal (s : string) : option num :=
  match s with
  | EmptyString => None
  | String c s' =>
      if bool_decide (Ascii.nat_of_ascii c = 45%nat)        (* "-" *)
      then (λ q, Fin (- q)%Qc) <$> unsigned_decimal s'
      else if bool_decide (Ascii.nat_of_ascii c = 43%nat)   (* "+" *)
      then Fin <$> unsigned_decimal s'
      else Fin <$> unsigned_decimal s
  end.

Global Instance decimal_literals : FloatParser := decimal_literal.

(* ================================================================== *)
(** * Text: the [str] operations of the response handling

    A text is the sequence of its code points.  The operations are the
    builtin ones the services call: [strip], [startswith], [endswith],
    slices, [find], [rfind], [in] and [split]. *)

Definition text : Type := list N.

(** The text of a literal. *)
Definition codes (s : string) : text :=
  Ascii.N_of_ascii <$> String.list_ascii_of_string s.

Definition len {A} (s : list A) : Z := Z.of_nat (length s).

(** [bool(s)] *)
Definition text_truthy (s : text) : bool :=
  match s with [] => false | _ => true end.

(** The white space [str.strip] removes. *)
Definition is_space (c : N) : bool :=
  bool_decide (9 ≤ c ≤ 13 ∨ 28 ≤ c ≤ 32 ∨ c = 133 ∨ c = 160 ∨ c = 5760
               ∨ 8192 ≤ c ≤ 8202 ∨ c = 8232 ∨ c = 8233 ∨ c = 8239
               ∨ c = 8287 ∨ c = 12288)%N.

Fixpoint lstrip (s : text) : text :=
  match s with
  | c :: s' => if is_space c then lstrip s' else s
  | [] => []
  end.

Definition rstrip (s : text) : text := reverse (lstrip (reverse s)).

Definition strip (s : text) : text := rstrip (lstrip s).

Definition startswith (s prefix : text) : bool :=
  bool_decide (prefix `prefix_of` s).

Definition endswith (s suffix : text) : bool :=
  bool_decide (suffix `suffix_of` s).

(** A slice bound, brought into [0 .. n]: a negative bound counts from
    the end. *)
Definition slice_index (n i : Z) : Z :=
  if i <? 0 then Z.max (n + i) 0 else Z.min i n.

(** [s[start:stop]]; [None] is an omitted bound. *)
Definition slice {A} (s : list A) (start stop : option Z) : list A :=
  let lo := from_option (slice_index (len s)) 0 start in
  let hi := from_option (slice_index (len s)) (len s) stop in
  take (Z.to_nat (hi - lo)) (drop (Z.to_nat lo) s).

(** The lowest index at which [sub] occurs in [s], when [s] is the text
    from index [i] on; -1 when it does not occur. *)
Fixpoint find_at (s sub : text) (i : Z) : Z :=
  if startswith s sub then i
  else match s with
       | [] => -1
       | _ :: s' => find_at s' sub (i + 1)
       end.

(** [s.find(sub, start)] *)
Definition find (s sub : text) (start : Z) : Z :=
  if len s <? start then -1
  else let lo := slice_index (len s) start in
       find_at (drop (Z.to_nat lo) s) sub lo.

(** The highest index at which [sub] occurs in [s], as [find_at]. *)
Fixpoint rfind_at (s sub : text) (i : Z) : Z :=
  match s with
  | [] => if startswith s sub then i else -1
  | _ :: s' =>
      let later := rfind_at s' sub (i + 1) in
      if later =? -1 then (if startswith s sub then i else -1) else later
  end.

(** [s.rfind(sub)] *)
Definition rfind (s sub : text) : Z := rfind_at s sub 0.

(** [sub in s] *)
Definition text_in (sub s : text) : bool := negb (find s sub 0 =? -1).

(** [s.split(sep)] for a separator that is not empty: [s] is read from
    left to right; [skip] counts the characters of a separator still to
    be passed over, [piece] holds the current piece, reversed. *)
Fixpoint split_from (s sep : text) (skip : nat) (piece : text)
    : list text :=
  match s with
  | [] => [reverse piece]
  | c :: s' =>
      match skip with
      | S skip => split_from s' sep skip piece
      | O =>
          if startswith s sep
          then reverse piece :: split_from s' sep (length sep - 1) []
          else split_from s' sep 0 (c :: piece)
      end
  end.

Definition split (s sep : text) : list text := split_from s sep 0 [].

(* ================================================================== *)
(** * JSON documents *)

(** What [json.loads] returns. *)
Unset Elimination Schemes.
Inductive json : Type :=
  | JNull
  | JBool (b : bool)
  | JNumber (x : num)
  | JString (s : text)
  | JArray (items : list json)
  | JObject (members : list (text * json)).
Set Elimination Schemes.

(** [json.loads] on a text: the document, or [None] when it raises
    [JSONDecodeError].  The embedding is parametric in it. *)
Class JsonParser : Type := json_loads : text → option json.

(** [d.get(key)] on the members of an object. *)
Definition json_get (members : list (text * json)) (key : text)
    : option json :=
  list_find (λ kv, kv.1 = key) members ≫= λ p, Some p.2.2.

(* ================================================================== *)
(** * [gemini_service]: the handling of the model's responses *)

Definition fence : text := codes "```".
Definition json_fence : text := codes "```json".
Definition open_brace : text := codes "{".
Definition close_brace : text := codes "}".

(** [analyze_video_process], lines 63-67: the text handed to
    [json.loads]; [None] stands for an [IndexError]. *)
Definition video_json_text (response_text : text) : option text :=
  let json_text_match := split (strip response_text) json_fence in
  if 1 <? len json_text_match
  then piece ← json_text_match !! 1%nat;
       json_text ← split piece fence !! 0%nat;
       Some (strip json_text)
  else Some (strip response_text).

Section GeminiService.

Context {json_parser : JsonParser}.

(** [analyze_video_process].  [generate_content] is the call to the
    model, with the text of its response, or [None] when the client
    library raises.  The function returns [None], here [JNull], on every
    exception. *)
Definition video_tasks (generate_content : text → option text)
    (video_uri : text) : json :=
  if negb (text_truthy video_uri) || negb (startswith video_uri (codes "gs://"))
  then JNull
  else
    match generate_content video_uri with
    | None => JNull
    | Some response_text =>
        default JNull (video_json_text response_text ≫= json_loads)
    end.

End GeminiService.

(** [generate_text_analysis], lines 146-197: the response text the
    function returns. *)
Definition cleaned_response (response_text : text) : text :=
  if text_truthy response_text then
    let resp_text := strip response_text in
    let resp_text :=
      if startswith resp_text fence && endswith resp_text fence then
        let resp_text := strip (slice resp_text (Some 3) (Some (-3))) in
        if startswith resp_text (codes "json")
        then strip (slice resp_text (Some 4) None)
        else resp_text
      else resp_text in
    let resp_text :=
      if negb (startswith resp_text open_brace) then
        let first_brace := find resp_text open_brace 0 in
        if 0 <? first_brace
        then strip (slice resp_text (Some first_brace) None)
        else resp_text
      else resp_text in
    let last_brace := rfind resp_text close_brace in
    if last_brace <? len resp_text - 1
    then strip (slice resp_text None (Some (last_brace + 1)))
    else resp_text
  else response_text.

(* ================================================================== *)
(** * [perform_full_analysis]: reading the automation options
      (lines 515-594) *)

(** The key ["automation_options"] and the text ["automation_options": [ *)
Definition options_key : text := codes "automation_options".
Definition options_marker : text :=
  [34%N] ++ options_key ++ [34%N] ++ codes ": [".

(** Lines 519-527. *)
Definition strip_code_fence (options_text : text) : text :=
  let json_text := strip options_text in
  if startswith json_text json_fence then
    let json_text := slice json_text (Some 7) None in
    if endswith json_text fence
    then slice json_text None (Some (-3)) else json_text
  else if startswith json_text fence then
    let json_text := slice json_text (Some 3) None in
    if endswith json_text fence
    then slice json_text None (Some (-3)) else json_text
  else json_text.

(** Lines 549-556, the inner loop: [rest] is [json_text] from index
    [potential_end] on; the loop returns [(brace_count, potential_end)]. *)
Fixpoint count_braces (rest : text) (brace_count potential_end : Z) : Z * Z :=
  if 0 <? brace_count then
    match rest with
    | [] => (brace_count, potential_end)
    | c :: rest =>
        let brace_count :=
          if bool_decide ([c] = open_brace) then brace_count + 1
          else if bool_decide ([c] = close_brace) then brace_count - 1
          else brace_count in
        count_braces rest brace_count (potential_end + 1)
    end
  else (brace_count, potential_end).

(** Lines 546-572, the outer loop, for at most [fuel] iterations;
    [loads] is the parser tried on every complete object.  [None] when
    the iterations do not suffice. *)
Fixpoint salvage_loop {A} (loads : text → option A) (fuel : nat)
    (json_text : text) (option_start : Z) (automation_options : list A)
    : option (list A) :=
  if option_start =? -1 then Some automation_options
  else
    match fuel with
    | O => None
    | S fuel =>
        let '(brace_count, potential_end) :=
          count_braces (slice json_text (Some (option_start + 1)) None)
            1 (option_start + 1) in
        if brace_count =? 0 then
          let option_json :=
            slice json_text (Some option_start) (Some potential_end) in
          let automation_options :=
            match loads option_json with
            | Some option_obj => automation_options ++ [option_obj]
            | None => automation_options
            end in
          salvage_loop loads fuel json_text
            (find json_text open_brace potential_end) automation_options
        else Some automation_options
    end.

(** Lines 536-572: the objects salvaged from a text that holds the
    marker. *)
Definition salvage {A} (loads : text → option A) (json_text : text)
    : option (list A) :=
  let options_start := find json_text options_marker 0 + len options_marker in
  let option_start := find json_text open_brace options_start in
  salvage_loop loads (length json_text) json_text option_start [].

Section OptionsReader.

Context {json_parser : JsonParser}.

(** Lines 515-594: the list [automation_options].  An exception in the
    block (an [AttributeError], when the document is not an object)
    leaves the empty list. *)
Definition read_automation_options (options_text : text) : list json :=
  if text_truthy options_text then
    let json_text := strip_code_fence options_text in
    let automation_options_data :=
      match json_loads (strip json_text) with
      | Some data => Some data
      | None =>
          if text_in options_marker json_text then
            automation_options ← salvage json_loads json_text;
            if bool_decide (automation_options ≠ [])
            then Some (JObject [(options_key, JArray automation_options)])
            else Some (JObject [(options_key, JArray [])])
          else Some (JObject [(options_key, JArray [])])
      end in
    match automation_options_data with
    | Some (JObject members) =>
        match json_get members options_key with
        | Some (JArray automation_options) => automation_options
        | Some _ => []
        | None => []
        end
    | _ => []
    end
  else [].

End OptionsReader.

(* ================================================================== *)
(** * [urdf_service]: the robot catalog

    The files are parameters: what [ET.parse] makes of every URDF file
    and what [json.load] makes of the metadata file.  The metadata is
    taken to have the shape the service expects, a dictionary from file
    names to dictionaries. *)

(** A URDF file as [ET.parse] sees it: the [name] attribute of the root
    element, when present, and the tags of its children. *)
Inductive urdf_file : Type :=
  | UrdfParseError
  | UrdfFileNotFound
  | UrdfRoot (name : option string) (children : list string).

(** The entry of a robot in the metadata: the values under the keys
    the service reads, [None] for an absent key. *)
Record robot_costs : Type := {
  meta_purchase_price : option pyval;
  meta_op_cost_per_min : option pyval
}.

Inductive metadata_file : Type :=
  | MetadataNotFound
  | MetadataDecodeError
  | MetadataLoaded (metadata : gmap string robot_costs).

Definition load_robot_metadata (file : metadata_file)
    : gmap string robot_costs :=
  match file with
  | MetadataLoaded metadata => metadata
  | MetadataNotFound | MetadataDecodeError => ∅
  end.

Record capabilities : Type := {
  cap_robot_name : string;
  num_links : nat;
  num_joints : nat;
  estimated_reach_m : num;
  estimated_payload_kg : num
}.

Definition parse_urdf_capabilities (file : urdf_file) : option capabilities :=
  match file with
  | UrdfRoot name children =>
      let robot_name := default "Unknown Robot" name in
      let num_links := length (filter (λ tag, tag = "link") children) in
      let num_joints := length (filter (λ tag, tag = "joint") children) in
      let reach_approx := (num_of_nat num_links * Fin (Q2Qc (1 # 2)))%num in
      let payload_approx := (num_of_nat num_links * nz 2)%num in
      Some {| cap_robot_name := robot_name;
              num_links := num_links;
              num_joints := num_joints;
              estimated_reach_m := reach_approx;
              estimated_payload_kg := payload_approx |}
  | UrdfParseError | UrdfFileNotFound => None
  end.

(** An entry of the list [get_available_robots] returns. *)
Record robot_info : Type := {
  info_capabilities : capabilities;
  info_purchase_price : pyval;
  info_op_cost_per_min : pyval;
  urdf_filename : string
}.

(** The assets directory: the metadata file, and the files that match
    [*.urdf] in the URDF directory, in the order of the scan ([None]
    when the directory does not exist). *)
Record assets : Type := {
  metadata_path : metadata_file;
  urdf_dir : option (list (string * urdf_file))
}.

(** [get_available_robots] *)
Definition scan_available_robots (a : assets) : list robot_info :=
  let metadata := load_robot_metadata (metadata_path a) in
  match urdf_dir a with
  | None => []
  | Some files =>
      omap (λ entry : string * urdf_file,
              capabilities ← parse_urdf_capabilities entry.2;
              let meta := metadata !! entry.1 in
              Some {| info_capabilities := capabilities;
                      info_purchase_price :=
                        default VNone (meta ≫= meta_purchase_price);
                      info_op_cost_per_min :=
                        default VNone (meta ≫= meta_op_cost_per_min);
                      urdf_filename := entry.1 |})
           files
  end.

(** The keys of a catalog entry that the analysis reads: the entry has
    no key [end_effector_cost_percent]. *)
Definition robot_of_info (info : robot_info) : robot :=
  {| robot_name := cap_robot_name (info_capabilities info);
     purchase_price := Some (info_purchase_price info);
     op_cost_per_min := Some (info_op_cost_per_min info);
     end_effector_cost_percent := None |}.

(** The collaborators of the analysis with the catalog of the assets
    directory. *)
Definition with_catalog (a : assets) (env : collaborators) : collaborators :=
  {| analyze_video_process := analyze_video_process env;
     get_available_robots := robot_of_info <$> scan_available_robots a;
     generate_text_analysis := generate_text_analysis env;
     prompt_step2 := prompt_step2 env;
     parse_automation_options := parse_automation_options env |}.

(* ================================================================== *)
(** * Specification-side definitions *)

Section ClaimDefinitions.

Context {float_parser : FloatParser}.

(** Does [v] convert to a number that is at most 0? *)
Definition converts_to_nonpositive (v : pyval) : bool :=
  match py_float v with Ok x => (x <=? nz 0)%num | Raise _ => false end.

(** Does [v] convert to a number [x] with [1 + x <= 0]? *)
Definition one_plus_nonpositive (v : pyval) : bool :=
  match py_float v with Ok x => (nz 1 + x <=? nz 0)%num | Raise _ => false end.

(** The inputs for which the cost model answers "N/A": the operating
    cost is absent, or one of [T], [H], [G], [O] does not convert, or
    [T <= 0], or [H <= 0], or [1 + G <= 0]. *)
Definition not_computable (r : robot) (T H G : pyval) : bool :=
  is_none (dict_get (op_cost_per_min r))
  || conversion_fails T || conversion_fails H || conversion_fails G
  || conversion_fails (dict_get (op_cost_per_min r))
  || converts_to_nonpositive T || converts_to_nonpositive H
  || one_plus_nonpositive G.



End ClaimDefinitions.


(** ** CycleMetrics *)

(** The number of tasks whose actor is a human. *)
Fixpoint count_human_tasks (tasks : list task) : nat :=
  match tasks with
  | [] => 0
  | t :: tasks =>
      (if bool_decide (actor_type t = "human") then 1 else 0)
      + count_human_tasks tasks
  end.

(** ** SavingsProjector *)

Fixpoint sum_nums (l : list num) : num :=
  match l with
  | [] => nz 0
  | x :: l => (x + sum_nums l)%num
  end.

(** The robot an option assigns to a task: when several assignments name
    the task, the last one. *)
Definition assigned_robot (o : automation_option) (id : Z) : option string :=
  a_robot_name <$> last (filter (λ a, a_task_id a = id) (assignments o)).

(** The numeric effective cost a cost comparison gives for a robot (the
    last one, should the comparison list the robot more than once). *)
Definition numeric_cost (costs : list robot_cost_entry) (name : string)
    : option num :=
  last (omap (λ e, if bool_decide (rc_robot_name e = name)
                   then num_of_pyval (robot_effective_cost_per_human_min e)
                   else None) costs).

(** The cost of one human task under an option: the effective cost of the
    assigned robot when the task is assigned and that cost is numeric, and
    the human cost otherwise. *)
Definition task_cost_with_automation (human_cost_min : num)
    (o : automation_option) (costs : list robot_cost_entry) (t : task) : num :=
  match assigned_robot o (task_id t) ≫= numeric_cost costs with
  | Some cost => cost
  | None => human_cost_min
  end.






(** The distinct robot names referenced by the assignments of an option. *)
Definition referenced_robots (o : automation_option) : gset string :=
  list_to_set (a_robot_name <$> assignments o).



(** ** The main loop *)

(** [v] is what the main loop computes for some cost-comparison entry
    whose automation option is found. *)
Definition is_evaluation (human_cost_min depreciation_years : num)
    (tasks : list task) (cycles_per_year : num) (robots : list robot)
    (automation_options : list automation_option)
    (cost_benefit_results : list cost_benefit_result)
    (e : cost_benefit_result) (o : automation_option)
    (v : option_projection * option_saving) : Prop :=
  e ∈ cost_benefit_results
  ∧ find_option automation_options (cb_option_id e) = Some o
  ∧ evaluate_option human_cost_min depreciation_years (human_tasks_of tasks)
      cycles_per_year (build_robot_metadata robots) (cb_option_id e)
      (robot_cost_comparison e) o = Ok v.

(** The loop state after recording the figures of several options. *)
Definition record_all (st : loop_state)
    (vals : list (option_projection * option_saving)) : loop_state :=
  foldl (λ st v, record_option st v.1 v.2) st vals.

(** ** Reading a returned recommendation *)


Definition savings_of (r : result recommendation) : list option_saving :=
  match r with
  | Ok rec => default [] (option_savings rec)
  | Raise _ => []
  end.

Definition recommended_of (r : result recommendation) : option string :=
  match r with
  | Ok rec => recommended_option_id rec
  | Raise _ => None
  end.

(** ** The end-to-end scenario of the specification

    Three human tasks, a human cost of 1.00 per minute, [T = 5], [H = 40],
    [G = 0], one robot with [purchase_price = 150000],
    [op_cost_per_min = 0.10] and [end_effector_cost_percent = 0.2], and
    one option that assigns the three tasks to it. *)

Definition scenario_tasks : list task :=
  [ {| task_id := 1; actor_type := "human" |};
    {| task_id := 2; actor_type := "human" |};
    {| task_id := 3; actor_type := "human" |} ].

Definition scenario_robot : robot :=
  {| robot_name := "arm";
     purchase_price := Some (VNum (nz 150000));
     op_cost_per_min := Some (VNum (Fin (Q2Qc (1 # 10))));
     end_effector_cost_percent := Some (VNum (Fin (Q2Qc (1 # 5)))) |}.

Definition scenario_option : automation_option :=
  {| option_id := "A";
     assignments := [ {| a_task_id := 1; a_robot_name := "arm" |};
                      {| a_task_id := 2; a_robot_name := "arm" |};
                      {| a_task_id := 3; a_robot_name := "arm" |} ] |}.

(** The cost comparison of the scenario: the effective cost of the robot
    is [101/260], about 0.3885. *)
Definition scenario_costs (option_id : string) : cost_benefit_result :=
  {| cb_option_id := option_id;
     robot_cost_comparison :=
       [ {| rc_robot_name := "arm";
            robot_effective_cost_per_human_min := VNum (Fin (Q2Qc (101 # 260)));
            human_cost_per_min := nz 1;
            is_cheaper := VBool true |} ] |}.

Definition scenario_recommendation : result recommendation :=
  determine_recommendation_new [scenario_costs "A"] (nz 1) [scenario_option]
    scenario_tasks (nz 5) (nz 40) [scenario_robot].

(** What the scenario yields: a saving of 477/260 (about 1.8346) per cycle
    and of 76320 per year, over 41600 cycles per year. *)
Definition scenario_projection : option_projection :=
  {| proj_option_id := "A";
     baseline_cost_per_cycle := nz 3;
     robot_cost_per_cycle := Fin (Q2Qc (303 # 260));
     annual_baseline_cost := nz 124800;
     annual_cost_with_automation := nz 48480;
     robot_capex := nz 180000;
     cumulative_costs_by_year :=
       [nz 180000; nz 228480; nz 276960; nz 325440; nz 373920; nz 422400];
     baseline_cumulative_costs_by_year :=
       [nz 0; nz 124800; nz 249600; nz 374400; nz 499200; nz 624000] |}.

Definition scenario_saving : option_saving :=
  {| sav_option_id := "A";
     num_automated_tasks := 3;
     num_tasks_with_savings := 3;
     savings_per_cycle := Fin (Q2Qc (477 # 260));
     annual_savings := nz 76320;
     percent_savings := Fin (Q2Qc (795 # 13)) |}.

Definition scenario_result : recommendation :=
  {| recommended_option_id := Some "A";
     justification := OptionRecommended "A" (Some scenario_saving);
     option_savings := Some [scenario_saving];
     annual_projections := Some [scenario_projection];
     chart_data_verified := Some true |}.

(** Collaborators that answer with the scenario. *)
Definition scenario_env : collaborators :=
  {| analyze_video_process := λ _, Some scenario_tasks;
     get_available_robots := [scenario_robot];
     generate_text_analysis := λ _, Some "{}";
     prompt_step2 := λ _ _, "prompt";
     parse_automation_options := λ _, [scenario_option] |}.

(** The projections in a result object. *)
Definition projections_in (r : result pydict) : list option_projection :=
  match r with
  | Ok d =>
      match pydict_get d "annual_projections" with
      | Some (PProjections ps) => ps
      | _ => []
      end
  | Raise _ => []
  end.

(** ** RecommendationSelector *)

(** [s], at index [i] of the saving summaries, is the first summary with
    the highest positive annual savings: its annual savings are positive,
    no summary has higher ones, and every earlier summary has lower ones
    or none that are positive. *)
Definition first_best (ss : list option_saving) (i : nat) (s : option_saving)
    : Prop :=
  ss !! i = Some s
  ∧ (nz 0 <? annual_savings s)%num = true
  ∧ (∀ s', s' ∈ ss → (annual_savings s <? annual_savings s')%num = false)
  ∧ (∀ j s', (j < i)%nat → ss !! j = Some s' →
       (annual_savings s' <? annual_savings s)%num = true
       ∨ (nz 0 <? annual_savings s')%num = false).

(** The scenario with the option under another id. *)
Definition scenario_option_named (id : string) : automation_option :=
  {| option_id := id; assignments := assignments scenario_option |}.

(** ** AnalysisOrchestrator *)

Section OrchestratorClaims.

Context {float_parser : FloatParser}.



End OrchestratorClaims.

(** The keys of a complete result object. *)
Definition complete_keys : list string :=
  ["process_tasks"; "available_robots"; "automation_options";
   "cost_benefit_analysis"; "recommendation"; "task_savings_analysis";
   "annual_projections"].

(** A result object that only reports an error. *)
Definition error_only (d : pydict) : Prop :=
  ∃ message, d = error_object message ∧ str_truthy message = true.

(** A complete result object: all the payload keys and no "error". *)
Definition complete (d : pydict) : Prop :=
  keys d = complete_keys ∧ pydict_get d "error" = None.

(** The result object of the scenario. *)
Definition scenario_payload : pydict :=
  [("process_tasks", PTasks scenario_tasks);
   ("available_robots", PRobots [scenario_robot]);
   ("automation_options", POptions [scenario_option]);
   ("cost_benefit_analysis", PCostBenefit [scenario_costs "A"]);
   ("recommendation", PRecommendation scenario_result);
   ("task_savings_analysis", PSavings [scenario_saving]);
   ("annual_projections", PProjections [scenario_projection])].


(** The scenario with a catalog in which the robot's end-effector
    percentage is present and null. *)
Definition scenario_env_null_percent : collaborators :=
  {| analyze_video_process := λ _, Some scenario_tasks;
     get_available_robots :=
       [ {| robot_name := "arm";
            purchase_price := Some (VNum (nz 150000));
            op_cost_per_min := Some (VNum (Fin (Q2Qc (1 # 10))));
            end_effector_cost_percent := Some VNone |} ];
     generate_text_analysis := λ _, Some "{}";
     prompt_step2 := λ _ _, "prompt";
     parse_automation_options := λ _, [scenario_option] |}.

(* ================================================================== *)
(** * Definitions for further properties *)

(** ** The options a recommendation reports on *)

(** The ids of the cost-comparison entries that name an automation
    option, in the order of the entries. *)
Definition evaluated_ids (automation_options : list automation_option)
    (cost_benefit_results : list cost_benefit_result) : list string :=
  filter (λ id, id ∈ option_id <$> automation_options)
    (cb_option_id <$> cost_benefit_results).

(** A cost comparison whose second entry names no automation option. *)
Definition scenario_costs_with_stray : list cost_benefit_result :=
  [scenario_costs "A"; scenario_costs "Z"].

(** The scenario with a robot whose effective cost, 3/2, is above the
    human cost of 1: every automated task costs more than it did. *)
Definition dear_costs : cost_benefit_result :=
  {| cb_option_id := "A";
     robot_cost_comparison :=
       [ {| rc_robot_name := "arm";
            robot_effective_cost_per_human_min := VNum (Fin (Q2Qc (3 # 2)));
            human_cost_per_min := nz 1;
            is_cheaper := VBool false |} ] |}.

Definition dear_result : recommendation :=
  {| recommended_option_id := Some "No_Automation";
     justification := NotCostEffective;
     option_savings :=
       Some [ {| sav_option_id := "A";
                 num_automated_tasks := 3;
                 num_tasks_with_savings := 0;
                 savings_per_cycle := Fin (Q2Qc (-3 # 2));
                 annual_savings := nz (-62400);
                 percent_savings := nz (-50) |} ];
     annual_projections :=
       Some [ {| proj_option_id := "A";
                 baseline_cost_per_cycle := nz 3;
                 robot_cost_per_cycle := Fin (Q2Qc (9 # 2));
                 annual_baseline_cost := nz 124800;
                 annual_cost_with_automation := nz 187200;
                 robot_capex := nz 180000;
                 cumulative_costs_by_year :=
                   [nz 180000; nz 367200; nz 554400; nz 741600; nz 928800;
                    nz 1116000];
                 baseline_cumulative_costs_by_year :=
                   [nz 0; nz 124800; nz 249600; nz 374400; nz 499200;
                    nz 624000] |} ];
     chart_data_verified := Some true |}.

(** ** Reading a result object *)

Definition recommendation_in (d : pydict) : option recommendation :=
  match pydict_get d "recommendation" with
  | Some (PRecommendation r) => Some r
  | _ => None
  end.


Definition cost_benefit_in (d : pydict) : list cost_benefit_result :=
  match pydict_get d "cost_benefit_analysis" with
  | Some (PCostBenefit results) => results
  | _ => []
  end.



(** An entry of a cost comparison made for the human cost [oh]: its
    cost is a number and [is_cheaper] says whether that number is below
    [oh], or both are "N/A". *)
Definition consistent_entry (oh : num) (rc : robot_cost_entry) : Prop :=
  human_cost_per_min rc = oh
  ∧ ((∃ x, robot_effective_cost_per_human_min rc = VNum x
           ∧ is_cheaper rc = VBool (x <? oh)%num)
     ∨ (robot_effective_cost_per_human_min rc = NA ∧ is_cheaper rc = NA)).

(** The cost comparison of one option: the id of the option, and one
    entry for every robot its assignments reference. *)
Definition comparison_of (oh : num) (o : automation_option)
    (e : cost_benefit_result) : Prop :=
  cb_option_id e = option_id o
  ∧ rc_robot_name <$> robot_cost_comparison e = elements (referenced_robots o)
  ∧ Forall (consistent_entry oh) (robot_cost_comparison e).

(** What the scenario yields for a depreciation life of 0 years: the
    robot cost is "N/A", the option saves nothing and the chart series
    stop at year 0. *)
Definition idle_recommendation : recommendation :=
  {| recommended_option_id := Some "No_Automation";
     justification := NotCostEffective;
     option_savings :=
       Some [ {| sav_option_id := "A";
                 num_automated_tasks := 3;
                 num_tasks_with_savings := 0;
                 savings_per_cycle := nz 0;
                 annual_savings := nz 0;
                 percent_savings := nz 0 |} ];
     annual_projections :=
       Some [ {| proj_option_id := "A";
                 baseline_cost_per_cycle := nz 3;
                 robot_cost_per_cycle := nz 3;
                 annual_baseline_cost := nz 124800;
                 annual_cost_with_automation := nz 124800;
                 robot_capex := nz 180000;
                 cumulative_costs_by_year := [nz 180000];
                 baseline_cumulative_costs_by_year := [nz 0] |} ];
     chart_data_verified := Some true |}.

Definition idle_payload : pydict :=
  [("process_tasks", PTasks scenario_tasks);
   ("available_robots", PRobots [scenario_robot]);
   ("automation_options", POptions [scenario_option]);
   ("cost_benefit_analysis",
      PCostBenefit
        [ {| cb_option_id := "A";
             robot_cost_comparison :=
               [ {| rc_robot_name := "arm";
                    robot_effective_cost_per_human_min := NA;
                    human_cost_per_min := nz 1;
                    is_cheaper := NA |} ] |} ]);
   ("recommendation", PRecommendation idle_recommendation);
   ("task_savings_analysis",
      PSavings (default [] (option_savings idle_recommendation)));
   ("annual_projections",
      PProjections (default [] (annual_projections idle_recommendation)))].

(** ** Texts *)

(** A text of white space only. *)
Definition all_space (s : text) : Prop := Forall (λ c, is_space c = true) s.

(** [r] holds [body] after a text without opening brace and before a
    text without closing brace. *)
Definition around (body r : text) : Prop :=
  ∃ p q, r = p ++ body ++ q ∧ (123%N ∉ p) ∧ (125%N ∉ q).

(** ** Brace-balanced texts *)

(** A text in which every brace is matched. *)
Inductive nested : text → Prop :=
  | nested_nil : nested []
  | nested_char (c : N) (w : text) :
      c ≠ 123%N → c ≠ 125%N → nested w → nested (c :: w)
  | nested_group (w1 w2 : text) :
      nested w1 → nested w2 → nested (123%N :: w1 ++ 125%N :: w2).

(** A complete object: matched braces between an opening and a closing
    brace. *)
Definition object (o : text) : Prop :=
  ∃ w, o = 123%N :: w ++ [125%N] ∧ nested w.

(** The inside of an object that is cut off before its closing brace. *)
Inductive unclosed : text → Prop :=
  | unclosed_nested (w : text) : nested w → unclosed w
  | unclosed_open (w1 w2 : text) :
      nested w1 → unclosed w2 → unclosed (w1 ++ 123%N :: w2).

(** What follows the last complete object of a truncated answer:
    nothing, or the beginning of one more object. *)
Definition truncated (cut : text) : Prop :=
  cut = [] ∨ ∃ w, cut = 123%N :: w ∧ unclosed w.

(** A text that closes [d] open braces with its last character and not
    before. *)
Fixpoint closes (d : nat) (w : text) : Prop :=
  match d with
  | O => False
  | S d =>
      ∃ n rest, w = n ++ 125%N :: rest ∧ nested n
                ∧ match d with O => rest = [] | S _ => closes d rest end
  end.

(** Objects, each followed by a separator. *)
Definition flat (items : list (text * text)) : text :=
  concat ((λ os : text * text, os.1 ++ os.2) <$> items).

(** Where the search for the next object starts: at the first
    character of what is left, when something is left. *)
Definition next_start (done_ left_ : text) : Z :=
  match left_ with [] => -1 | _ => len done_ end.

(** ** A parser for closed examples

    It reads a text that begins with an opening brace, ends with a
    closing brace and holds as many opening as closing braces as an
    object with the one member "automation_options", a list with the
    text itself as its only item when the text lists no options of its
    own; every other text is an error.  The theorems hold for every
    [JsonParser]; this one instantiates them on concrete inputs. *)

Definition count_char (c : N) (s : text) : nat :=
  length (filter (λ d, d = c) s).

Definition brace_documents : JsonParser := λ s,
  if startswith s open_brace && endswith s close_brace
     && bool_decide (count_char 123 s = count_char 125 s)
  then Some (JObject [(options_key, JArray [JString s])])
  else None.

(** ** The catalog of an assets directory without metadata file *)

Definition bare_assets : assets :=
  {| metadata_path := MetadataNotFound;
     urdf_dir := Some [("arm.urdf", UrdfRoot (Some "arm") ["link"; "joint"; "link"]);
                       ("broken.urdf", UrdfParseError)] |}.

Definition bare_robot : robot :=
  {| robot_name := "arm";
     purchase_price := Some VNone;
     op_cost_per_min := Some VNone;
     end_effector_cost_percent := None |}.

(** What the scenario yields with that catalog: the CAPEX is the
    default price of 100000 with the default 25 % on top. *)
Definition bare_recommendation : recommendation :=
  {| recommended_option_id := Some "No_Automation";
     justification := NotCostEffective;
     option_savings :=
       Some [ {| sav_option_id := "A";
                 num_automated_tasks := 3;
                 num_tasks_with_savings := 0;
                 savings_per_cycle := nz 0;
                 annual_savings := nz 0;
                 percent_savings := nz 0 |} ];
     annual_projections :=
       Some [ {| proj_option_id := "A";
                 baseline_cost_per_cycle := nz 3;
                 robot_cost_per_cycle := nz 3;
                 annual_baseline_cost := nz 124800;
                 annual_cost_with_automation := nz 124800;
                 robot_capex := nz 125000;
                 cumulative_costs_by_year :=
                   [nz 125000; nz 249800; nz 374600; nz 499400; nz 624200;
                    nz 749000];
                 baseline_cumulative_costs_by_year :=
                   [nz 0; nz 124800; nz 249600; nz 374400; nz 499200;
                    nz 624000] |} ];
     chart_data_verified := Some true |}.

Definition bare_payload : pydict :=
  [("process_tasks", PTasks scenario_tasks);
   ("available_robots", PRobots [bare_robot]);
   ("automation_options", POptions [scenario_option]);
   ("cost_benefit_analysis",
      PCostBenefit
        [ {| cb_option_id := "A";
             robot_cost_comparison :=
               [ {| rc_robot_name := "arm";
                    robot_effective_cost_per_human_min := NA;
                    human_cost_per_min := nz 1;
                    is_cheaper := NA |} ] |} ]);
   ("recommendation", PRecommendation bare_recommendation);
   ("task_savings_analysis",
      PSavings (default [] (option_savings bare_recommendation)));
   ("annual_projections",
      PProjections (default [] (annual_projections bare_recommendation)))].

(* ================================================================== *)
(** * Properties of the numbers *)

(** Closed, decidable statements are settled by evaluation. *)
Ltac by_compute := apply (bool_decide_unpack _); vm_compute; exact I.

Lemma qz_0 : qz 0 = 0%Qc.
Proof. reflexivity. Qed.

Lemma qz_1 : qz 1 = 1%Qc.
Proof. reflexivity. Qed.

Lemma num_pos_inv (x : num) :
  (nz 0 <? x)%num = true → x = PInf ∨ ∃ q, x = Fin q ∧ (0 < q)%Qc.
Proof.
  destruct x as [q| | |]; simpl; try discriminate; [|by left].
  intros Hq. right. exists q. split; [done|].
  by apply bool_decide_eq_true in Hq.
Qed.

Lemma num_pos_not_le (x : num) :
  (nz 0 <? x)%num = true → (x <=? nz 0)%num = false.
Proof.
  intros [->|(q & -> & Hq)]%num_pos_inv; [done|]. simpl.
  apply bool_decide_eq_false. by apply Qclt_not_le.
Qed.

Lemma num_not_le_nonzero (x : num) :
  (x <=? nz 0)%num = false → num_eqb x (nz 0) = false.
Proof.
  destruct x as [q| | |]; simpl; try done.
  intros Hq%bool_decide_eq_false. apply bool_decide_eq_false.
  intros [= ->]. apply Hq. apply Qcle_refl.
Qed.

Lemma num_pos_nonzero (x : num) :
  (nz 0 <? x)%num = true → num_eqb x (nz 0) = false.
Proof. intros. by apply num_not_le_nonzero, num_pos_not_le. Qed.



Lemma num_add_0_l (x : num) : (nz 0 + x)%num = x.
Proof. destruct x; simpl; try done. by rewrite qz_0, Qcplus_0_l. Qed.

Lemma num_add_0_r (x : num) : (x + nz 0)%num = x.
Proof. destruct x; simpl; try done. by rewrite qz_0, Qcplus_0_r. Qed.

Lemma num_mul_1_r (x : num) : (x * nz 1)%num = x.
Proof.
  destruct x; simpl; try done.
  by rewrite qz_1, Qcmult_1_r.
Qed.


Lemma py_div_nonzero (x y : num) :
  num_eqb y (nz 0) = false → py_div x y = Ok (x / y)%num.
Proof. intros Hy. unfold py_div. by rewrite Hy. Qed.

Global Arguments num_add : simpl never.
Global Arguments num_sub : simpl never.
Global Arguments num_mul : simpl never.
Global Arguments num_quot : simpl never.
Global Arguments num_ltb : simpl never.
Global Arguments num_leb : simpl never.
Global Arguments num_eqb : simpl never.
Global Arguments nz : simpl never.
Global Arguments py_div : simpl never.

(* ================================================================== *)
(** * RobotCostModel *)

Section RobotCostModelProperties.

Context {float_parser : FloatParser}.

Lemma py_float_raises (v : pyval) (e : exn) :
  py_float v = Raise e → e = ValueError ∨ e = TypeError.
Proof.
  destruct v; simpl; try (intros [= <-]; by auto); try done.
  destruct (str_to_float s); [done|]. intros [= <-]. by left.
Qed.

(** The inner [try] blocks never let an exception out: [C] and [E] are
    the coerced values. *)
Lemma float_or_zero_coerced (field : option pyval) :
  float_or_zero (dict_get field) = Ok (coerced_or_zero field).
Proof.
  destruct field as [v|]; [|done]. unfold float_or_zero, coerced_or_zero.
  destruct v; simpl; try done.
  by destruct (str_to_float s).
Qed.


(** The cost model never raises: it answers "N/A" on the inputs of
    [not_computable], and a number on every other input. *)
Lemma effective_cost_cases (r : robot) (T H G : pyval) :
  if not_computable r T H G
  then calculate_effective_robot_cost r T H G = Ok NA
  else ∃ x, calculate_effective_robot_cost r T H G = Ok (VNum x).
Proof.
  unfold not_computable, calculate_effective_robot_cost.
  rewrite !float_or_zero_coerced.
  destruct (is_none (dict_get (op_cost_per_min r))) eqn:HO; [done|].
  unfold conversion_fails, converts_to_nonpositive, one_plus_nonpositive.
  simpl.
  destruct (py_float T) as [t|e] eqn:HT; simpl.
  2:{ by destruct (py_float_raises _ _ HT) as [-> | ->]. }
  destruct (py_float H) as [h|e] eqn:HH; simpl.
  2:{ by destruct (py_float_raises _ _ HH) as [-> | ->]. }
  destruct (py_float G) as [g|e] eqn:HG; simpl.
  2:{ by destruct (py_float_raises _ _ HG) as [-> | ->]. }
  destruct (py_float (dict_get (op_cost_per_min r))) as [o|e] eqn:HO'; simpl.
  2:{ by destruct (py_float_raises _ _ HO') as [-> | ->]. }
  destruct (t <=? nz 0)%num eqn:Ht; [done|].
  destruct (h <=? nz 0)%num eqn:Hh; [done|].
  destruct (nz 1 + g <=? nz 0)%num eqn:Hg; [done|]. simpl.
  pose proof (num_not_le_nonzero _ Hg) as Hg'.
  destruct (nz 0 <? t * nz 52 * h * nz 60)%num eqn:Hmin.
  - rewrite (py_div_nonzero _ _ (num_pos_nonzero _ Hmin)). simpl.
    rewrite (py_div_nonzero _ _ Hg'). simpl. eauto.
  - simpl. rewrite (py_div_nonzero _ _ Hg'). simpl. eauto.
Qed.


End RobotCostModelProperties.



(* ================================================================== *)
(** * More arithmetic *)

Lemma qz_lt (a b : Z) : (qz a < qz b)%Qc ↔ (a < b)%Z.
Proof.
  unfold qz, Qclt. simpl. rewrite !Qred_correct. by rewrite <- Zlt_Qlt.
Qed.

Lemma qz_add (a b : Z) : qz (a + b) = (qz a + qz b)%Qc.
Proof.
  apply Qc_is_canon. unfold qz. simpl.
  rewrite !Qred_correct. by rewrite inject_Z_plus.
Qed.

Lemma num_of_nat_S (n : nat) : num_of_nat (S n) = (num_of_nat n + nz 1)%num.
Proof.
  unfold num_of_nat, nz, num_add. f_equal.
  rewrite Nat2Z.inj_succ, <- Z.add_1_r. apply qz_add.
Qed.

Lemma num_of_nat_pos (n : nat) :
  (nz 0 <? num_of_nat n)%num = bool_decide (0 < n)%nat.
Proof.
  unfold num_of_nat, nz, num_ltb. apply bool_decide_ext.
  rewrite qz_lt. lia.
Qed.

Lemma num_add_comm (x y : num) : (x + y)%num = (y + x)%num.
Proof.
  destruct x, y; unfold num_add; try done. f_equal. apply Qcplus_comm.
Qed.

Lemma num_add_assoc (x y z : num) : (x + (y + z))%num = (x + y + z)%num.
Proof.
  destruct x, y, z; unfold num_add; try done. f_equal. apply Qcplus_assoc.
Qed.

Lemma num_of_nat_mul_fin (n : nat) (q : Qc) :
  (num_of_nat (S n) * Fin q)%num = (num_of_nat n * Fin q + Fin q)%num.
Proof.
  rewrite num_of_nat_S. unfold num_of_nat, nz, num_add, num_mul. f_equal.
  rewrite qz_1. ring.
Qed.

(* ================================================================== *)
(** * CycleMetrics *)

Lemma length_human_tasks (tasks : list task) :
  length (human_tasks_of tasks) = count_human_tasks tasks.
Proof.
  unfold human_tasks_of. induction tasks as [|t tasks IH]; [done|].
  rewrite filter_cons. simpl. case_bool_decide.
  - rewrite decide_True by done. simpl. by rewrite IH.
  - rewrite decide_False by done. by rewrite IH.
Qed.

(** C6.  For every task list and [hours_per_week]: [cycle_time_mins] is
    the number of tasks whose actor is a human; [cycles_per_hour] is
    [60 / cycle_time_mins] when that number is positive and 1 when there is
    no human task (nothing is raised); [cycles_per_year] is
    [cycles_per_hour * hours_per_week * 52]. *)
Theorem cycle_metrics_formula (tasks : list task) (hours_per_week : num) :
  ∃ m, compute_cycle_metrics tasks hours_per_week = Ok m
       ∧ total_human_tasks m = count_human_tasks tasks
       ∧ cycle_time_mins m = num_of_nat (count_human_tasks tasks)
       ∧ cycles_per_hour m =
           (if bool_decide (0 < count_human_tasks tasks)%nat
            then (nz 60 / num_of_nat (count_human_tasks tasks))%num
            else nz 1)
       ∧ cycles_per_year m = (cycles_per_hour m * hours_per_week * nz 52)%num.
Proof.
  unfold compute_cycle_metrics.
  rewrite length_human_tasks. unfold task_duration_mins.
  rewrite num_mul_1_r, num_of_nat_pos.
  case_bool_decide as Hn.
  - rewrite py_div_nonzero.
    + simpl. eexists. by repeat split.
    + apply num_pos_nonzero. rewrite num_of_nat_pos.
      by apply bool_decide_eq_true.
  - simpl. eexists. by repeat split.
Qed.

(* ================================================================== *)
(** * The lookup tables *)

Lemma build_task_to_robot_map_lookup (l : list assignment) (id : Z) :
  build_task_to_robot_map l !! id
  = a_robot_name <$> last (filter (λ a, a_task_id a = id) l).
Proof.
  unfold build_task_to_robot_map.
  induction l as [|a l IH] using rev_ind; [done|].
  rewrite foldl_snoc, filter_app, filter_cons, filter_nil.
  destruct (decide (a_task_id a = id)) as [<-|Hne].
  - by rewrite lookup_insert_eq, last_snoc.
  - rewrite lookup_insert_ne by done. by rewrite app_nil_r.
Qed.

Lemma build_robot_cost_map_lookup (costs : list robot_cost_entry)
    (name : string) :
  build_robot_cost_map costs !! name = numeric_cost costs name.
Proof.
  unfold build_robot_cost_map, numeric_cost.
  induction costs as [|e costs IH] using rev_ind; [done|].
  rewrite foldl_snoc, omap_app. simpl.
  destruct (num_of_pyval (robot_effective_cost_per_human_min e)) as [c|].
  - case_bool_decide as Hn.
    + subst name. by rewrite lookup_insert_eq, last_snoc.
    + rewrite lookup_insert_ne by done. by rewrite app_nil_r.
  - rewrite IH. by case_bool_decide; rewrite app_nil_r.
Qed.


(* ================================================================== *)
(** * Per-cycle costs *)

Lemma sum_nums_app (l k : list num) :
  sum_nums (l ++ k) = (sum_nums l + sum_nums k)%num.
Proof.
  induction l as [|x l IH]; simpl.
  - by rewrite num_add_0_l.
  - by rewrite IH, num_add_assoc.
Qed.

Lemma sum_nums_constant (q : Qc) (n : nat) :
  sum_nums (replicate n (Fin q)) = (num_of_nat n * Fin q)%num.
Proof.
  induction n as [|n IH].
  - unfold num_of_nat, nz, num_mul. simpl sum_nums.
    apply (f_equal Fin). symmetry. apply Qcmult_0_l.
  - simpl. rewrite IH, num_of_nat_mul_fin. apply num_add_comm.
Qed.

(** The loop over the human tasks adds, task by task, the human cost to the
    one total and the cost under the option to the other. *)
Lemma cycle_costs_sums (human_cost_min : num) (human_tasks : list task)
    (o : automation_option) (costs : list robot_cost_entry) :
  cycle_costs human_cost_min human_tasks
    (build_task_to_robot_map (assignments o)) (build_robot_cost_map costs)
  = (sum_nums (task_cost_with_automation human_cost_min o costs <$> human_tasks),
     sum_nums ((λ _, human_cost_min) <$> human_tasks)).
Proof.
  unfold cycle_costs.
  induction human_tasks as [|t ts IH] using rev_ind; [done|].
  rewrite foldl_snoc, IH, !fmap_app, !sum_nums_app. simpl.
  unfold task_duration_mins. rewrite !num_mul_1_r, !num_add_0_r.
  unfold task_cost_with_automation.
  rewrite build_task_to_robot_map_lookup. fold (assigned_robot o (task_id t)).
  destruct (assigned_robot o (task_id t)) as [name|]; simpl; [|done].
  rewrite build_robot_cost_map_lookup.
  destruct (numeric_cost costs name); simpl; [|done].
  by rewrite num_mul_1_r.
Qed.

Lemma sum_nums_human_cost (q : Qc) (tasks : list task) :
  sum_nums ((λ _, Fin q) <$> human_tasks_of tasks)
  = (num_of_nat (count_human_tasks tasks) * Fin q)%num.
Proof.
  rewrite <- length_human_tasks, <- sum_nums_constant. f_equal.
  induction (human_tasks_of tasks); [done|]. simpl. by f_equal.
Qed.

(* ================================================================== *)
(** * The main loop of [determine_recommendation_new] *)

Lemma run_loop_cons_inv {A S} (body : S → A → result S) st x l st' :
  run_loop body st (x :: l) = Ok st' →
  ∃ st1, body st x = Ok st1 ∧ run_loop body st1 l = Ok st'.
Proof. simpl. destruct (body st x); simpl; [eauto|done]. Qed.

Lemma loop_body_inv (human_cost_min depreciation_years : num)
    (human_tasks : list task) (cpy : num) (md : gmap string robot)
    (automation_options : list automation_option)
    (st st1 : loop_state) (e : cost_benefit_result) :
  loop_body human_cost_min depreciation_years human_tasks cpy md
    automation_options st e = Ok st1 →
  (find_option automation_options (cb_option_id e) = None ∧ st1 = st)
  ∨ ∃ o v,
      find_option automation_options (cb_option_id e) = Some o
      ∧ evaluate_option human_cost_min depreciation_years human_tasks cpy md
          (cb_option_id e) (robot_cost_comparison e) o = Ok v
      ∧ st1 = record_option st v.1 v.2.
Proof.
  unfold loop_body.
  destruct (find_option automation_options (cb_option_id e)) as [o|].
  - destruct (evaluate_option _ _ _ _ _ _ _ o) as [[p s]|] eqn:Hev; [|done].
    simpl. intros [= <-]. right. by exists o, (p, s).
  - intros [= <-]. by left.
Qed.

Lemma run_loop_inv (human_cost_min depreciation_years : num)
    (tasks : list task) (cycles_per_year : num) (robots : list robot)
    (automation_options : list automation_option)
    (all_results cost_benefit_results : list cost_benefit_result)
    (st st' : loop_state) :
  cost_benefit_results ⊆ all_results →
  run_loop
    (loop_body human_cost_min depreciation_years (human_tasks_of tasks)
       cycles_per_year (build_robot_metadata robots) automation_options)
    st cost_benefit_results = Ok st' →
  ∃ vals,
    st' = record_all st vals
    ∧ Forall (λ v, ∃ e o,
        is_evaluation human_cost_min depreciation_years tasks cycles_per_year
          robots automation_options all_results e o v) vals.
Proof.
  revert st. induction cost_benefit_results as [|e l IH]; intros st Hsub Hrun.
  { injection Hrun as <-. by exists []. }
  apply run_loop_cons_inv in Hrun as (st1 & Hbody & Hrun).
  assert (Hl : l ⊆ all_results) by set_solver.
  assert (He : e ∈ all_results) by set_solver.
  apply loop_body_inv in Hbody as [[_ ->]|(o & v & Ho & Hev & ->)].
  - by apply IH.
  - destruct (IH _ Hl Hrun) as (vals & -> & Hvals).
    exists (v :: vals). split; [done|].
    constructor; [|done]. by exists e, o.
Qed.

Lemma record_all_snoc (st : loop_state) vals v :
  record_all st (vals ++ [v]) = record_option (record_all st vals) v.1 v.2.
Proof. unfold record_all. by rewrite foldl_snoc. Qed.

Lemma record_all_savings (st : loop_state) vals :
  st_option_savings (record_all st vals) = st_option_savings st ++ vals.*2.
Proof.
  induction vals as [|v vals IH] using rev_ind.
  - by rewrite app_nil_r.
  - rewrite record_all_snoc, fmap_app. simpl. by rewrite IH, app_assoc.
Qed.

Lemma record_all_projections (st : loop_state) vals :
  st_annual_projections (record_all st vals)
  = st_annual_projections st ++ vals.*1.
Proof.
  induction vals as [|v vals IH] using rev_ind.
  - by rewrite app_nil_r.
  - rewrite record_all_snoc, fmap_app. simpl. by rewrite IH, app_assoc.
Qed.

(** What a returned recommendation is made of. *)
Lemma determine_recommendation_inv
    (cost_benefit_results : list cost_benefit_result) (human_cost_min : num)
    (automation_options : list automation_option) (tasks : list task)
    (depreciation_years hours_per_week : num) (robots : list robot)
    (rec : recommendation) :
  determine_recommendation_new cost_benefit_results human_cost_min
    automation_options tasks depreciation_years hours_per_week robots
    = Ok rec →
  ∃ m, compute_cycle_metrics tasks hours_per_week = Ok m ∧
  ((cost_benefit_results = [] ∨ (human_cost_min <=? nz 0)%num = true)
   ∧ rec = {| recommended_option_id := None;
              justification := NoValidCostData;
              option_savings := None;
              annual_projections := None;
              chart_data_verified := None |}
   ∨
   (cost_benefit_results ≠ [] ∧ (human_cost_min <=? nz 0)%num = false)
   ∧ ∃ vals,
       Forall (λ v, ∃ e o,
         is_evaluation human_cost_min depreciation_years tasks
           (cycles_per_year m) robots automation_options
           cost_benefit_results e o v) vals
       ∧ option_savings rec = Some vals.*2
       ∧ annual_projections rec = Some vals.*1
       ∧ recommended_option_id rec =
           Some (match best_option_id (record_all initial_state vals) with
                 | Some id =>
                     if str_truthy id
                        && (nz 0 <? highest_total_savings
                                      (record_all initial_state vals))%num
                     then id else "No_Automation"
                 | None => "No_Automation"
                 end)).
Proof.
  unfold determine_recommendation_new. intros Hdet.
  destruct (cycle_metrics_formula tasks hours_per_week) as (m & Hm & _).
  rewrite Hm in Hdet. simpl in Hdet. exists m. split; [done|].
  case_bool_decide as Hnil; simpl in Hdet.
  { left. injection Hdet as <-. split; [by left|done]. }
  destruct (human_cost_min <=? nz 0)%num eqn:Hh; simpl in Hdet.
  { left. injection Hdet as <-. split; [by right|done]. }
  right. split; [done|].
  destruct (run_loop _ _ _) as [st|] eqn:Hrun; [|done]. simpl in Hdet.
  apply run_loop_inv with (all_results := cost_benefit_results) in Hrun
    as (vals & -> & Hvals); [|done].
  exists vals. split; [done|].
  destruct (best_option_id (record_all initial_state vals)) as [id|];
    [destruct (str_truthy id && _)|]; injection Hdet as <-; simpl;
    by rewrite record_all_savings, record_all_projections.
Qed.

(** The fields of what one iteration computes. *)
Lemma evaluate_option_inv (human_cost_min depreciation_years : num)
    (human_tasks : list task) (cpy : num) (md : gmap string robot)
    (id : string) (costs : list robot_cost_entry) (o : automation_option)
    (p : option_projection) (s : option_saving) :
  evaluate_option human_cost_min depreciation_years human_tasks cpy md id
    costs o = Ok (p, s) →
  let automated :=
    sum_nums (task_cost_with_automation human_cost_min o costs <$> human_tasks) in
  let manual := sum_nums ((λ _, human_cost_min) <$> human_tasks) in
  proj_option_id p = id ∧ sav_option_id s = id
  ∧ baseline_cost_per_cycle p = manual
  ∧ robot_cost_per_cycle p = automated
  ∧ savings_per_cycle s = (manual - automated)%num
  ∧ annual_baseline_cost p = (manual * cpy)%num
  ∧ annual_cost_with_automation p = (automated * cpy)%num
  ∧ annual_savings s = ((manual - automated) * cpy)%num
  ∧ sum_robot_capex md
      (elements (map_img (build_task_to_robot_map (assignments o))
                   : gset string)) (nz 0) = Ok (robot_capex p)
  ∧ ∃ last_year, py_int depreciation_years = Ok last_year
    ∧ cumulative_costs_by_year p =
        robot_capex p ::
        ((λ year, (robot_capex p
                   + annual_cost_with_automation p * num_of_nat year)%num)
           <$> years_up_to last_year)
    ∧ baseline_cumulative_costs_by_year p =
        nz 0 ::
        ((λ year, (annual_baseline_cost p * num_of_nat year)%num)
           <$> years_up_to last_year).
Proof.
  unfold evaluate_option. rewrite cycle_costs_sums. intros Hev.
  destruct (sum_robot_capex _ _ _) as [capex|] eqn:Hcapex; [|done].
  simpl in Hev.
  destruct (py_int depreciation_years) as [last_year|] eqn:Hint; [|done].
  simpl in Hev.
  match type of Hev with
  | (?pct ≫= _) = _ => destruct pct as [percent|] eqn:Hpct; [|done]
  end.
  simpl in Hev. injection Hev as <- <-. simpl.
  repeat split; try done.
  exists last_year. split; [done|].
  split; [by destruct capex|done].
Qed.


(* ================================================================== *)
(** * SavingsProjector: per-cycle and annual figures *)


(* ================================================================== *)
(** * SavingsProjector: CAPEX *)










(** The scenario of the specification yields the figures it states. *)
Lemma scenario_recommendation_eq :
  scenario_recommendation = Ok scenario_result.
Proof. by_compute. Qed.



(* ================================================================== *)
(** * SavingsProjector: cumulative costs by year *)




(** C7, at an input on which the code departs from the claim.  With a
    human cost per minute of [+inf] (which the input validation of
    [perform_full_analysis] lets through) and [T = 2], the baseline
    sequence of the scenario's option is [0, inf, inf]: the entries of
    the years 1 and 2 are appended after the check for non-finite values
    has run, and are in the output as they are. *)
Lemma infinite_baseline_costs_in_output :
  baseline_cumulative_costs_by_year <$>
    projections_in
      (perform_full_analysis scenario_env "gs://bucket/clip.mp4"
         (VNum PInf) (VNum (nz 2)) (VNum (nz 40)) (VNum (nz 0))).2
  = [[nz 0; PInf; PInf]].
Proof. by_compute. Qed.

(** The check itself cannot repair an entry either: it replaces a
    non-finite value by the value of the same formula. *)
Lemma verify_chart_data_keeps_infinite_capex (annual : num) :
  verify_chart_data
    (λ i, if bool_decide (i = 0%nat) then PInf
          else (PInf + annual * num_of_nat i)%num) [PInf] = [PInf].
Proof. reflexivity. Qed.

(* ================================================================== *)
(** * RecommendationSelector *)

Lemma num_ltb_trans (a b c : num) :
  (a <? b)%num = true → (b <? c)%num = true → (a <? c)%num = true.
Proof.
  destruct a, b, c; unfold num_ltb; try done.
  rewrite !bool_decide_eq_true. apply Qclt_trans.
Qed.

Lemma num_ltb_irrefl (a : num) : (a <? a)%num = false.
Proof.
  destruct a; unfold num_ltb; try done.
  apply bool_decide_eq_false. intros H. by apply Qclt_not_eq in H.
Qed.

Lemma num_pos_above_NInf (a : num) :
  (nz 0 <? a)%num = true → (NInf <? a)%num = true.
Proof. by destruct a. Qed.

Lemma num_pos_trichotomy (a b : num) :
  (nz 0 <? a)%num = true → (nz 0 <? b)%num = true →
  (a <? b)%num = false → (b <? a)%num = true ∨ a = b.
Proof.
  intros [->|(x & -> & Hx)]%num_pos_inv [->|(y & -> & Hy)]%num_pos_inv;
    unfold num_ltb; try done; try (by left); try (by right).
  rewrite bool_decide_eq_false, bool_decide_eq_true. intros Hxy.
  apply Qcnot_lt_le, Qcle_lt_or_eq in Hxy as [?| ->]; by auto.
Qed.

(** The selection the loop has made after recording the summaries
    [vals.*2]. *)
Lemma record_all_selection (vals : list (option_projection * option_saving)) :
  match best_option_id (record_all initial_state vals) with
  | None =>
      highest_total_savings (record_all initial_state vals) = NInf
      ∧ ∀ s, s ∈ vals.*2 → (nz 0 <? annual_savings s)%num = false
  | Some id =>
      ∃ i s, first_best vals.*2 i s
             ∧ id = sav_option_id s
             ∧ highest_total_savings (record_all initial_state vals)
               = annual_savings s
             ∧ best_option_details (record_all initial_state vals) = Some s
  end.
Proof.
  induction vals as [|[p x] vals IH] using rev_ind.
  { simpl. split; [done|]. intros s Hs. by apply elem_of_nil in Hs. }
  rewrite record_all_snoc, fmap_app. simpl.
  set (st := record_all initial_state vals) in *.
  destruct (highest_total_savings st <? annual_savings x)%num eqn:Hhigher;
    [destruct (nz 0 <? annual_savings x)%num eqn:Hpos|]; simpl.
  - (* the new option becomes the best one *)
    exists (length vals.*2), x. split; [|done].
    split; [by rewrite lookup_app_r, Nat.sub_diag|]. split; [done|].
    assert (Hold : ∀ s', s' ∈ vals.*2 →
              (annual_savings x <? annual_savings s')%num = false
              ∧ ((annual_savings s' <? annual_savings x)%num = true
                 ∨ (nz 0 <? annual_savings s')%num = false)).
    { intros s' Hs'.
      destruct (best_option_id st) as [id|].
      - destruct IH as (i & s & (Hi & Hs & Hmax & Hfirst) & _ & Hh & _).
        rewrite Hh in Hhigher. specialize (Hmax _ Hs'). split.
        + destruct (annual_savings x <? annual_savings s')%num eqn:Hx; [|done].
          by rewrite (num_ltb_trans _ _ _ Hhigher Hx) in Hmax.
        + destruct (nz 0 <? annual_savings s')%num eqn:Hs'pos; [|by right].
          left. destruct (num_pos_trichotomy _ _ Hs Hs'pos Hmax) as [Hlt|Heq].
          * by eapply num_ltb_trans.
          * by rewrite <- Heq.
      - destruct IH as [_ IH]. specialize (IH _ Hs'). split; [|by right].
        destruct (annual_savings x <? annual_savings s')%num eqn:Hx; [|done].
        by rewrite (num_ltb_trans _ _ _ Hpos Hx) in IH. }
    split.
    + intros s' [Hs'| ->%list_elem_of_singleton]%elem_of_app.
      * by apply Hold.
      * apply num_ltb_irrefl.
    + intros j s' Hj Hs'. rewrite lookup_app_l in Hs' by done.
      apply list_elem_of_lookup_2 in Hs'. by apply Hold.
  - (* higher, but not positive: nothing changes *)
    destruct (best_option_id st) as [id|].
    + destruct IH as (i & s & (Hi & Hs & Hmax & Hfirst) & Hid & Hh & Hd).
      rewrite Hh in Hhigher.
      by rewrite (num_ltb_trans _ _ _ Hs Hhigher) in Hpos.
    + destruct IH as [Hh IH]. split; [done|].
      intros s' [Hs'| ->%list_elem_of_singleton]%elem_of_app; by auto.
  - (* not higher: nothing changes *)
    destruct (best_option_id st) as [id|].
    + destruct IH as (i & s & (Hi & Hs & Hmax & Hfirst) & Hid & Hh & Hd).
      rewrite Hh in Hhigher.
      exists i, s. split; [|done]. split.
      { rewrite lookup_app_l; [done|]. by eapply lookup_lt_Some. }
      split; [done|]. split.
      * intros s' [Hs'| ->%list_elem_of_singleton]%elem_of_app; by auto.
      * intros j s' Hj Hs'. apply (Hfirst j s' Hj).
        rewrite lookup_app_l in Hs'; [done|].
        apply lookup_lt_Some in Hi. lia.
    + destruct IH as [Hh IH]. rewrite Hh in Hhigher. split; [done|].
      intros s' [Hs'| ->%list_elem_of_singleton]%elem_of_app; [by auto|].
      destruct (nz 0 <? annual_savings x)%num eqn:Hpos; [|done].
      by rewrite (num_pos_above_NInf _ Hpos) in Hhigher.
Qed.

(** What [determine_recommendation_new] recommends.  Without cost
    comparisons, or with a human cost that is not positive, the
    recommended id is [None].  Otherwise it is "No_Automation" when no
    summary has positive annual savings; and when some have, the loop
    selects the first summary with the highest positive annual savings,
    and its id is recommended -- unless that id is the empty string, for
    which the final test [if best_option_id and ...] fails. *)
Lemma recommended_option_cases
    (cost_benefit_results : list cost_benefit_result) (human_cost_min : num)
    (automation_options : list automation_option) (tasks : list task)
    (depreciation_years hours_per_week : num) (robots : list robot)
    (rec : recommendation) :
  determine_recommendation_new cost_benefit_results human_cost_min
    automation_options tasks depreciation_years hours_per_week robots
    = Ok rec →
  ((cost_benefit_results = [] ∨ (human_cost_min <=? nz 0)%num = true)
   ∧ recommended_option_id rec = None)
  ∨ (cost_benefit_results ≠ [] ∧ (human_cost_min <=? nz 0)%num = false
     ∧ ∃ ss, option_savings rec = Some ss
        ∧ ((∀ s, s ∈ ss → (nz 0 <? annual_savings s)%num = false)
           ∧ recommended_option_id rec = Some "No_Automation"
           ∨ ∃ i s, first_best ss i s
               ∧ recommended_option_id rec =
                   Some (if str_truthy (sav_option_id s)
                         then sav_option_id s else "No_Automation"))).
Proof.
  intros Hdet.
  apply determine_recommendation_inv in Hdet
    as (m & Hm & [[Hcase ->]|([Hne Hh] & vals & Hvals & Hss & Hps & Hrec)]).
  { by left. }
  right. split; [done|]. split; [done|]. exists vals.*2. split; [done|].
  pose proof (record_all_selection vals) as Hsel. rewrite Hrec.
  destruct (best_option_id (record_all initial_state vals)) as [id|].
  - right. destruct Hsel as (i & s & Hbest & -> & Hh' & _).
    exists i, s. split; [done|]. rewrite Hh'.
    destruct Hbest as (_ & -> & _). by rewrite andb_true_r.
  - left. by destruct Hsel.
Qed.

(** C3, at an input on which the code departs from the claim.  The
    scenario's option, with the empty string as its id, has positive
    annual savings (76320) and is the only option evaluated; the loop
    selects it, but the final test [if best_option_id and ...] takes the
    empty id for "no option found", and "No_Automation" is recommended. *)
Lemma empty_option_id_yields_no_automation :
  (λ s, (sav_option_id s, annual_savings s)) <$>
    savings_of
      (determine_recommendation_new [scenario_costs ""] (nz 1)
         [scenario_option_named ""] scenario_tasks (nz 5) (nz 40)
         [scenario_robot])
  = [("", nz 76320)]
  ∧ recommended_of
      (determine_recommendation_new [scenario_costs ""] (nz 1)
         [scenario_option_named ""] scenario_tasks (nz 5) (nz 40)
         [scenario_robot])
    = Some "No_Automation".
Proof. by_compute. Qed.

(** C10, at an input on which the code departs from the claim.  Two
    options tie for the highest positive annual savings (76320 each); the
    first one has the empty string as its id.  The later option does not
    displace it, yet the recommendation is not the first option but
    "No_Automation": the final test [if best_option_id and ...] takes
    the empty id for "no option found". *)
Lemma tie_with_empty_first_id_yields_no_automation :
  (λ s, (sav_option_id s, annual_savings s)) <$>
    savings_of
      (determine_recommendation_new [scenario_costs ""; scenario_costs "B"]
         (nz 1) [scenario_option_named ""; scenario_option_named "B"]
         scenario_tasks (nz 5) (nz 40) [scenario_robot])
  = [("", nz 76320); ("B", nz 76320)]
  ∧ recommended_of
      (determine_recommendation_new [scenario_costs ""; scenario_costs "B"]
         (nz 1) [scenario_option_named ""; scenario_option_named "B"]
         scenario_tasks (nz 5) (nz 40) [scenario_robot])
    = Some "No_Automation".
Proof. by_compute. Qed.

(** With ids that are not empty, a tie is settled for the first option. *)
Lemma tie_selects_first_option :
  recommended_of
    (determine_recommendation_new [scenario_costs "A"; scenario_costs "B"]
       (nz 1) [scenario_option_named "A"; scenario_option_named "B"]
       scenario_tasks (nz 5) (nz 40) [scenario_robot])
  = Some "A".
Proof. by_compute. Qed.

(* ================================================================== *)
(** * AnalysisOrchestrator and the request endpoint *)

Section OrchestratorProperties.

Context {float_parser : FloatParser}.




Lemma analyse_complete (t h g oh : num) tasks robots options d :
  analyse t h g oh tasks robots options = Ok d → complete d.
Proof.
  unfold analyse.
  destruct (mapM _ options) as [results|]; [|done]. simpl.
  destruct (determine_recommendation_new _ _ _ _ _ _ _) as [rec|]; [|done].
  simpl. by intros [= <-].
Qed.

Lemma perform_full_analysis_result (env : collaborators) video_uri
    OH T H G d :
  (perform_full_analysis env video_uri OH T H G).2 = Ok d →
  error_only d ∨ complete d.
Proof.
  unfold perform_full_analysis.
  destruct (convert_inputs OH T H G) as [[[[t h] g] oh]|e].
  - destruct (analyze_video_process env video_uri) as [[|task tasks]|];
      simpl; try (intros [= <-]; left; by eexists).
    destruct (get_available_robots env) as [|r robots];
      simpl; [intros [= <-]; left; by eexists|].
    intros Hd. right. by eapply analyse_complete.
  - case_bool_decide; simpl; [|done]. intros [= <-]. left. by eexists.
Qed.

(** C9, as amended.  [perform_full_analysis] has no handler of its own
    for an exception raised while the options are evaluated, so it may
    raise; whenever it returns, it returns either a single error object
    or a complete result object with all the payload keys and no
    "error" key.  The request endpoint [analyze_robotics] catches every
    exception: it always answers, with a complete result object and
    status 200 or with a single error object and another status. *)
Theorem result_is_complete_or_error (env : collaborators) :
  (∀ video_uri OH T H G d,
     (perform_full_analysis env video_uri OH T H G).2 = Ok d →
     error_only d ∨ complete d)
  ∧ (∀ data,
       let response := (analyze_robotics env data).2 in
       error_only response.1 ∧ response.2 ≠ 200
       ∨ complete response.1 ∧ response.2 = 200).
Proof.
  split; [apply perform_full_analysis_result|].
  intros data. unfold analyze_robotics.
  destruct data as [data|]; simpl; [|left; split; [by eexists|done]].
  destruct (_ || _); simpl; [left; split; [by eexists|done]|].
  destruct (rq_video_uri data) as [| | |video_uri|]; simpl;
    try (left; split; [by eexists|done]).
  destruct (String.prefix _ _); simpl; [|left; split; [by eexists|done]].
  destruct (endpoint_convert data) as [[[[oh t] h] g]|e]; simpl.
  2:{ case_bool_decide; simpl; left; split; try done; by eexists. }
  pose proof (perform_full_analysis_result env video_uri (VNum oh) (VNum t)
                (VNum h) (VNum g)) as Hres.
  destruct (perform_full_analysis _ _ _ _ _ _) as [calls [d|e]]; simpl in *.
  2:{ left. split; [by eexists|done]. }
  destruct (Hres d eq_refl) as [(message & -> & Hmsg)|[Hkeys Hnone]].
  - simpl. rewrite Hmsg. simpl. left. split; [by eexists|done].
  - rewrite Hnone. simpl. by right.
Qed.

End OrchestratorProperties.


(** C9, counterexample.  [perform_full_analysis] raises on two inputs.
    With [depreciation_years = +inf] (which its validation accepts) the
    evaluation of the scenario's option reaches [int(depreciation_years)],
    and the [OverflowError] leaves the function.  With a catalog robot
    whose [end_effector_cost_percent] is present and null, the CAPEX loop
    computes [1 + None], and the [TypeError] leaves the function. *)
Lemma perform_full_analysis_raises :
  (perform_full_analysis scenario_env "gs://bucket/clip.mp4"
     (VNum (nz 1)) (VNum PInf) (VNum (nz 40)) (VNum (nz 0))).2
  = Raise OverflowError
  ∧ (perform_full_analysis scenario_env_null_percent "gs://bucket/clip.mp4"
       (VNum (nz 1)) (VNum (nz 5)) (VNum (nz 40)) (VNum (nz 0))).2
    = Raise TypeError.
Proof. by_compute. Qed.

(* ================================================================== *)
(** * When [determine_recommendation_new] returns *)

Lemma find_option_elem_of (automation_options : list automation_option)
    (id : string) (o : automation_option) :
  find_option automation_options id = Some o → o ∈ automation_options.
Proof.
  unfold find_option.
  destruct (list_find _ _) as [[i o']|] eqn:Hfind; [|done].
  simpl. intros [= <-].
  apply list_find_Some in Hfind as (Hi & _). by eapply list_elem_of_lookup_2.
Qed.



(* ================================================================== *)
(** * The theorems on concrete inputs *)


(** The result object of the scenario is complete. *)
Lemma result_is_complete_or_error_witness :
  error_only scenario_payload ∨ complete scenario_payload.
Proof.
  apply (proj1 (result_is_complete_or_error scenario_env)
           "gs://bucket/clip.mp4" (VNum (nz 1)) (VNum (nz 5)) (VNum (nz 40))
           (VNum (nz 0))).
  by_compute.
Defined.

(* ================================================================== *)
(** * Further properties of [determine_recommendation_new] *)

Lemma saving_is_evaluation
    (cost_benefit_results : list cost_benefit_result) (human_cost_min : num)
    (automation_options : list automation_option) (tasks : list task)
    (depreciation_years hours_per_week : num) (robots : list robot)
    (rec : recommendation) ss s :
  determine_recommendation_new cost_benefit_results human_cost_min
    automation_options tasks depreciation_years hours_per_week robots
    = Ok rec →
  option_savings rec = Some ss →
  s ∈ ss →
  ∃ m e o p,
    compute_cycle_metrics tasks hours_per_week = Ok m
    ∧ is_evaluation human_cost_min depreciation_years tasks
        (cycles_per_year m) robots automation_options cost_benefit_results
        e o (p, s).
Proof.
  intros Hdet Hss Hs.
  apply determine_recommendation_inv in Hdet
    as (m & Hm & [[_ ->]|(_ & vals & Hvals & Hss' & _)]); [done|].
  rewrite Hss' in Hss. injection Hss as <-.
  apply list_elem_of_fmap in Hs as ([p s'] & -> & Hv).
  rewrite Forall_forall in Hvals.
  destruct (Hvals _ Hv) as (e & o & He). by exists m, e, o, p.
Qed.

Lemma find_option_id (automation_options : list automation_option)
    (id : string) (o : automation_option) :
  find_option automation_options id = Some o → option_id o = id.
Proof.
  unfold find_option.
  destruct (list_find _ _) as [[i o']|] eqn:Hfind; [|done].
  simpl. intros [= <-]. by apply list_find_Some in Hfind as (_ & ? & _).
Qed.

(** The counts of a saving summary. *)
Lemma evaluate_option_counts (human_cost_min depreciation_years : num)
    (human_tasks : list task) (cpy : num) (md : gmap string robot)
    (id : string) (costs : list robot_cost_entry) (o : automation_option)
    (p : option_projection) (s : option_saving) :
  evaluate_option human_cost_min depreciation_years human_tasks cpy md id
    costs o = Ok (p, s) →
  num_automated_tasks s = length (assignments o)
  ∧ num_tasks_with_savings s =
      count_tasks_with_savings human_cost_min
        (build_task_to_robot_map (assignments o)) (build_robot_cost_map costs).
Proof.
  unfold evaluate_option. rewrite cycle_costs_sums. intros Hev.
  destruct (sum_robot_capex _ _ _) as [capex|]; [|done]. simpl in Hev.
  destruct (py_int depreciation_years) as [last_year|]; [|done].
  simpl in Hev.
  match type of Hev with
  | (?pct ≫= _) = _ => destruct pct as [percent|]; [|done]
  end.
  simpl in Hev. by injection Hev as <- <-.
Qed.

Lemma size_task_to_robot_map (l : list assignment) :
  (size (build_task_to_robot_map l) ≤ length l)%nat.
Proof.
  unfold build_task_to_robot_map.
  induction l as [|a l IH] using rev_ind; [done|].
  rewrite foldl_snoc, length_app, map_size_insert. simpl.
  destruct (_ !! _); unfold id; lia.
Qed.

(** X1.  The number of tasks reported as using a robot cheaper than human
    labour never exceeds the number of automated tasks. *)
Theorem tasks_with_savings_bounded
    (cost_benefit_results : list cost_benefit_result) (human_cost_min : num)
    (automation_options : list automation_option) (tasks : list task)
    (depreciation_years hours_per_week : num) (robots : list robot)
    (rec : recommendation) ss s :
  determine_recommendation_new cost_benefit_results human_cost_min
    automation_options tasks depreciation_years hours_per_week robots
    = Ok rec →
  option_savings rec = Some ss →
  s ∈ ss →
  (num_tasks_with_savings s ≤ num_automated_tasks s)%nat.
Proof.
  intros Hdet Hss Hs.
  destruct (saving_is_evaluation _ _ _ _ _ _ _ _ _ _ Hdet Hss Hs)
    as (m & e & o & p & _ & _ & _ & Hev).
  apply evaluate_option_counts in Hev as [-> ->].
  unfold count_tasks_with_savings.
  etrans; [apply length_filter|].
  rewrite length_map_to_list. apply size_task_to_robot_map.
Qed.

Lemma tasks_with_savings_bounded_witness :
  (num_tasks_with_savings scenario_saving
   ≤ num_automated_tasks scenario_saving)%nat.
Proof.
  apply (tasks_with_savings_bounded [scenario_costs "A"] (nz 1)
           [scenario_option] scenario_tasks (nz 5) (nz 40) [scenario_robot]
           scenario_result [scenario_saving] scenario_saving).
  - by_compute.
  - reflexivity.
  - by left.
Defined.

(** X2.  A recommended option was evaluated: its id is that of a
    cost-comparison entry and of an automation option, its annual
    savings are positive and no option has higher ones, and the figures
    the justification cites are those of its saving summary. *)
Theorem recommended_option_was_evaluated
    (cost_benefit_results : list cost_benefit_result) (human_cost_min : num)
    (automation_options : list automation_option) (tasks : list task)
    (depreciation_years hours_per_week : num) (robots : list robot)
    (rec : recommendation) (id : string) :
  determine_recommendation_new cost_benefit_results human_cost_min
    automation_options tasks depreciation_years hours_per_week robots
    = Ok rec →
  recommended_option_id rec = Some id →
  id ≠ "No_Automation" →
  ∃ e o ss s,
    e ∈ cost_benefit_results ∧ cb_option_id e = id
    ∧ o ∈ automation_options ∧ option_id o = id
    ∧ option_savings rec = Some ss ∧ s ∈ ss ∧ sav_option_id s = id
    ∧ (nz 0 <? annual_savings s)%num = true
    ∧ (∀ s', s' ∈ ss → (annual_savings s <? annual_savings s')%num = false)
    ∧ justification rec = OptionRecommended id (Some s).
Proof.
  intros Hdet Hrec Hid. pose proof Hdet as Hdet'.
  unfold determine_recommendation_new in Hdet.
  destruct (cycle_metrics_formula tasks hours_per_week) as (m & Hm & _).
  rewrite Hm in Hdet. simpl in Hdet.
  case_bool_decide as Hnil; simpl in Hdet.
  { injection Hdet as <-. done. }
  destruct (human_cost_min <=? nz 0)%num; simpl in Hdet.
  { injection Hdet as <-. done. }
  destruct (run_loop _ _ _) as [st|] eqn:Hrun; [|done]. simpl in Hdet.
  apply run_loop_inv with (all_results := cost_benefit_results) in Hrun
    as (vals & -> & Hvals); [|done].
  pose proof (record_all_selection vals) as Hsel.
  destruct (best_option_id (record_all initial_state vals)) as [best|].
  2:{ injection Hdet as <-. simpl in Hrec. by injection Hrec as <-. }
  destruct Hsel as (i & s & (Hi & Hpos & Hmax & _) & -> & _ & Hdetails).
  destruct (str_truthy (sav_option_id s) && _).
  2:{ injection Hdet as <-. simpl in Hrec. by injection Hrec as <-. }
  injection Hdet as <-. simpl in Hrec. injection Hrec as <-. simpl.
  rewrite record_all_savings, Hdetails.
  apply list_elem_of_lookup_2 in Hi.
  pose proof Hi as ([p s'] & Hs' & Hv)%list_elem_of_fmap. simpl in Hs'.
  subst s'. rewrite Forall_forall in Hvals.
  destruct (Hvals _ Hv) as (e & o & He & Ho & Hev).
  apply evaluate_option_inv in Hev as (_ & Hsid & _).
  exists e, o, vals.*2, s. rewrite Hsid.
  repeat split; try done.
  - by eapply find_option_elem_of.
  - by eapply find_option_id.
Qed.

Lemma recommended_option_was_evaluated_witness :
  ∃ e o ss s,
    e ∈ [scenario_costs "A"] ∧ cb_option_id e = "A"
    ∧ o ∈ [scenario_option] ∧ option_id o = "A"
    ∧ option_savings scenario_result = Some ss ∧ s ∈ ss
    ∧ sav_option_id s = "A"
    ∧ (nz 0 <? annual_savings s)%num = true
    ∧ (∀ s', s' ∈ ss → (annual_savings s <? annual_savings s')%num = false)
    ∧ justification scenario_result = OptionRecommended "A" (Some s).
Proof.
  apply (recommended_option_was_evaluated [scenario_costs "A"] (nz 1)
           [scenario_option] scenario_tasks (nz 5) (nz 40) [scenario_robot]
           scenario_result "A").
  - by_compute.
  - reflexivity.
  - discriminate.
Defined.

Lemma find_option_is_Some (automation_options : list automation_option)
    (id : string) :
  is_Some (find_option automation_options id)
  ↔ id ∈ option_id <$> automation_options.
Proof.
  split.
  - intros [o Ho]. apply list_elem_of_fmap. exists o. split.
    + symmetry. by eapply find_option_id.
    + by eapply find_option_elem_of.
  - intros (o & -> & Ho)%list_elem_of_fmap. unfold find_option.
    destruct (list_find_elem_of (λ opt, option_id opt = option_id o)
                automation_options o Ho eq_refl) as [[i o'] ->].
    by eexists.
Qed.

Lemma run_loop_ids (human_cost_min depreciation_years : num)
    (human_tasks : list task) (cpy : num) (md : gmap string robot)
    (automation_options : list automation_option)
    (l : list cost_benefit_result) (st st' : loop_state) :
  run_loop
    (loop_body human_cost_min depreciation_years human_tasks cpy md
       automation_options) st l = Ok st' →
  sav_option_id <$> st_option_savings st' =
    (sav_option_id <$> st_option_savings st)
    ++ evaluated_ids automation_options l
  ∧ proj_option_id <$> st_annual_projections st' =
      (proj_option_id <$> st_annual_projections st)
      ++ evaluated_ids automation_options l.
Proof.
  revert st. induction l as [|e l IH]; intros st Hrun.
  { injection Hrun as <-. unfold evaluated_ids. simpl.
    by rewrite !app_nil_r. }
  apply run_loop_cons_inv in Hrun as (st1 & Hbody & Hrun).
  destruct (IH _ Hrun) as [IHs IHp]. rewrite IHs, IHp.
  unfold evaluated_ids. rewrite fmap_cons, filter_cons.
  apply loop_body_inv in Hbody as [[Hnone ->]|(o & [p s] & Ho & Hev & ->)].
  - rewrite decide_False; [done|].
    intros Hin%find_option_is_Some. rewrite Hnone in Hin. by destruct Hin.
  - rewrite decide_True by (apply find_option_is_Some; by eexists).
    apply evaluate_option_inv in Hev as (Hp & Hs & _). simpl.
    rewrite !fmap_app, <- !(assoc_L (++)). simpl. by rewrite Hp, Hs.
Qed.

Lemma recommendation_ids
    (cost_benefit_results : list cost_benefit_result) (human_cost_min : num)
    (automation_options : list automation_option) (tasks : list task)
    (depreciation_years hours_per_week : num) (robots : list robot)
    (rec : recommendation) :
  determine_recommendation_new cost_benefit_results human_cost_min
    automation_options tasks depreciation_years hours_per_week robots
    = Ok rec →
  ((cost_benefit_results = [] ∨ (human_cost_min <=? nz 0)%num = true)
   ∧ option_savings rec = None ∧ annual_projections rec = None)
  ∨ ∃ ss ps,
      option_savings rec = Some ss ∧ annual_projections rec = Some ps
      ∧ sav_option_id <$> ss
        = evaluated_ids automation_options cost_benefit_results
      ∧ proj_option_id <$> ps
        = evaluated_ids automation_options cost_benefit_results.
Proof.
  unfold determine_recommendation_new. intros Hdet.
  destruct (cycle_metrics_formula tasks hours_per_week) as (m & Hm & _).
  rewrite Hm in Hdet. simpl in Hdet.
  case_bool_decide as Hnil; simpl in Hdet.
  { injection Hdet as <-. left. split; [by left|done]. }
  destruct (human_cost_min <=? nz 0)%num; simpl in Hdet.
  { injection Hdet as <-. left. split; [by right|done]. }
  destruct (run_loop _ _ _) as [st|] eqn:Hrun; [|done]. simpl in Hdet.
  apply run_loop_ids in Hrun as [Hs Hp]. simpl in Hs, Hp.
  right. exists (st_option_savings st), (st_annual_projections st).
  destruct (best_option_id st) as [id|];
    [destruct (str_truthy id && _)|]; by injection Hdet as <-.
Qed.

(** X3.  The saving summaries and the projections of a recommendation report
    on the same options in the same order: the cost-comparison entries
    that name an automation option, in the order of the entries. An entry
    that names no automation option is left out of both lists. *)
Theorem savings_and_projections_list_evaluated_ids
    (cost_benefit_results : list cost_benefit_result) (human_cost_min : num)
    (automation_options : list automation_option) (tasks : list task)
    (depreciation_years hours_per_week : num) (robots : list robot)
    (rec : recommendation) ss ps :
  determine_recommendation_new cost_benefit_results human_cost_min
    automation_options tasks depreciation_years hours_per_week robots
    = Ok rec →
  option_savings rec = Some ss →
  annual_projections rec = Some ps →
  sav_option_id <$> ss = evaluated_ids automation_options cost_benefit_results
  ∧ proj_option_id <$> ps
    = evaluated_ids automation_options cost_benefit_results.
Proof.
  intros Hdet Hss Hps.
  destruct (recommendation_ids _ _ _ _ _ _ _ _ Hdet)
    as [(_ & Hnone & _)|(ss' & ps' & Hss' & Hps' & Hs & Hp)]; [congruence|].
  rewrite Hss' in Hss. rewrite Hps' in Hps.
  injection Hss as <-. by injection Hps as <-.
Qed.

Lemma savings_and_projections_list_evaluated_ids_witness :
  sav_option_id <$> [scenario_saving] = ["A"]
  ∧ proj_option_id <$> [scenario_projection] = ["A"].
Proof.
  apply (savings_and_projections_list_evaluated_ids scenario_costs_with_stray
           (nz 1) [scenario_option] scenario_tasks (nz 5) (nz 40)
           [scenario_robot] scenario_result [scenario_saving]
           [scenario_projection]).
  - by_compute.
  - reflexivity.
  - reflexivity.
Defined.

(* ================================================================== *)
(** * When no robot is cheaper than human labour *)

Lemma num_not_below_add (x y : num) (a b : Qc) :
  (x <? Fin a)%num = false → (y <? Fin b)%num = false →
  (x + y <? Fin (a + b))%num = false.
Proof.
  unfold num_ltb, num_add.
  destruct x as [p| | |], y as [q| | |]; try done.
  intros Hp%bool_decide_eq_false Hq%bool_decide_eq_false.
  apply bool_decide_eq_false. intros Hlt.
  apply Qcnot_lt_le in Hp, Hq.
  apply (Qclt_not_le _ _ Hlt). by apply Qcplus_le_compat.
Qed.

Lemma sum_nums_not_below (h : Qc) (l : list num) :
  Forall (λ x, (x <? Fin h)%num = false) l →
  (sum_nums l <? num_of_nat (length l) * Fin h)%num = false.
Proof.
  induction 1 as [|x l Hx _ IH].
  - unfold num_of_nat, nz, num_mul, num_ltb. simpl sum_nums. simpl length.
    apply bool_decide_eq_false. rewrite Qcmult_0_l.
    apply Qcle_not_lt, Qcle_refl.
  - simpl length. rewrite num_of_nat_mul_fin. simpl sum_nums.
    rewrite num_add_comm.
    unfold num_of_nat, nz, num_mul in *. by apply num_not_below_add.
Qed.

Lemma inf_times_nonpos (q : Qc) :
  (q ≤ 0)%Qc → (nz 0 <? inf_times q)%num = false.
Proof.
  intros Hq. unfold inf_times.
  rewrite bool_decide_eq_false_2 by by apply Qcle_not_lt.
  by case_bool_decide.
Qed.

(** A saving that is not positive, over a number of cycles that is not
    negative, gives annual savings that are not positive. *)
Lemma annual_savings_not_positive (manual : Qc) (automated cpy : num) :
  (automated <? Fin manual)%num = false →
  (cpy <? nz 0)%num = false →
  (nz 0 <? (Fin manual - automated) * cpy)%num = false.
Proof.
  unfold num_sub, num_add, num_opp.
  destruct automated as [a| | |]; try done.
  - intros Ha%bool_decide_eq_false%Qcnot_lt_le.
    assert (Hd : (manual + - a ≤ 0)%Qc).
    { apply Qcle_minus_iff in Ha.
      apply Qcle_minus_iff.
      by replace (0 + - (manual + - a))%Qc with (a + - manual)%Qc by ring. }
    destruct cpy as [c| | |]; try done.
    + intros Hc%bool_decide_eq_false%Qcnot_lt_le.
      unfold num_mul, num_ltb, nz. apply bool_decide_eq_false.
      apply Qcle_not_lt. rewrite qz_0 in *.
      replace 0%Qc with (0 * c)%Qc by apply Qcmult_0_l.
      by apply Qcmult_le_compat_r.
    + intros _. by apply inf_times_nonpos.
  - intros _. destruct cpy as [c| | |]; try done.
    intros Hc%bool_decide_eq_false%Qcnot_lt_le. rewrite qz_0 in Hc.
    apply inf_times_nonpos. apply Qcle_minus_iff.
    by replace (0 + - - c)%Qc with c by ring.
Qed.

Lemma cycles_per_hour_positive (tasks : list task) (hours_per_week : num)
    (m : cycle_metrics) :
  compute_cycle_metrics tasks hours_per_week = Ok m →
  ∃ c, cycles_per_hour m = Fin c ∧ (0 < c)%Qc.
Proof.
  intros Hm.
  destruct (cycle_metrics_formula tasks hours_per_week)
    as (m' & Hm' & _ & _ & Hcph & _).
  rewrite Hm in Hm'. injection Hm' as <-. rewrite Hcph.
  case_bool_decide as Hn.
  - eexists. split; [reflexivity|]. unfold Qcdiv.
    apply Qcmult_pos_pos; [by apply qz_lt|].
    apply Qcinv_pos. apply qz_lt. lia.
  - exists (qz 1). split; [done|]. by apply qz_lt.
Qed.

(** Whatever the number of human tasks, the number of cycles per year is
    not negative unless the weekly hours are. *)
Lemma cycles_per_year_not_negative (tasks : list task) (hours_per_week : num)
    (m : cycle_metrics) :
  compute_cycle_metrics tasks hours_per_week = Ok m →
  (hours_per_week <? nz 0)%num = false →
  (cycles_per_year m <? nz 0)%num = false.
Proof.
  intros Hm Hh.
  destruct (cycles_per_hour_positive _ _ _ Hm) as (c & Hc & Hpos).
  destruct (cycle_metrics_formula tasks hours_per_week)
    as (m' & Hm' & _ & _ & _ & Hcpy).
  rewrite Hm in Hm'. injection Hm' as <-. rewrite Hcpy, Hc.
  assert (H52 : (0 < qz 52)%Qc) by by apply qz_lt.
  unfold num_mul, num_ltb, nz in *.
  destruct hours_per_week as [h| | |]; try done.
  - apply bool_decide_eq_false in Hh. apply bool_decide_eq_false.
    apply Qcle_not_lt. apply Qcnot_lt_le in Hh. rewrite qz_0 in *.
    apply Qcmult_nonneg_nonneg; [|by apply Qclt_le_weak].
    apply Qcmult_nonneg_nonneg; [by apply Qclt_le_weak|done].
  - unfold inf_times. rewrite bool_decide_eq_true_2 by done.
    by rewrite bool_decide_eq_true_2.
Qed.

Lemma task_cost_not_below (h : Qc) (o : automation_option)
    (costs : list robot_cost_entry) (t : task) :
  (∀ rc c, rc ∈ costs →
     num_of_pyval (robot_effective_cost_per_human_min rc) = Some c →
     (c <? Fin h)%num = false) →
  (task_cost_with_automation (Fin h) o costs t <? Fin h)%num = false.
Proof.
  intros Hcosts. unfold task_cost_with_automation.
  destruct (assigned_robot o (task_id t) ≫= numeric_cost costs)
    as [c|] eqn:Hc.
  - destruct (assigned_robot o (task_id t)) as [name|]; [|done].
    simpl in Hc. unfold numeric_cost in Hc.
    apply last_Some_elem_of, list_elem_of_omap in Hc as (rc & Hrc & Hnum).
    case_bool_decide; [|done]. by eapply Hcosts.
  - unfold num_ltb. apply bool_decide_eq_false, Qcle_not_lt, Qcle_refl.
Qed.

(** X4.  When no robot of a cost comparison has a numeric effective cost
    below the human cost per minute and the weekly hours are not
    negative, the annual savings of every evaluated option are not
    positive, and no option is recommended. *)
Theorem no_cheaper_robot_no_recommendation
    (cost_benefit_results : list cost_benefit_result) (human_cost_min : Qc)
    (automation_options : list automation_option) (tasks : list task)
    (depreciation_years hours_per_week : num) (robots : list robot)
    (rec : recommendation) :
  determine_recommendation_new cost_benefit_results (Fin human_cost_min)
    automation_options tasks depreciation_years hours_per_week robots
    = Ok rec →
  (hours_per_week <? nz 0)%num = false →
  (∀ e rc c, e ∈ cost_benefit_results → rc ∈ robot_cost_comparison e →
     num_of_pyval (robot_effective_cost_per_human_min rc) = Some c →
     (c <? Fin human_cost_min)%num = false) →
  (∀ ss s, option_savings rec = Some ss → s ∈ ss →
     (nz 0 <? annual_savings s)%num = false)
  ∧ (recommended_option_id rec = None
     ∨ recommended_option_id rec = Some "No_Automation").
Proof.
  intros Hdet Hh Hcosts.
  assert (Hall : ∀ ss s, option_savings rec = Some ss → s ∈ ss →
                   (nz 0 <? annual_savings s)%num = false).
  { intros ss s Hss Hs.
    destruct (saving_is_evaluation _ _ _ _ _ _ _ _ _ _ Hdet Hss Hs)
      as (m & e & o & p & Hm & He & _ & Hev).
    apply evaluate_option_inv in Hev as (_ & _ & _ & _ & _ & _ & _ & -> & _).
    rewrite sum_nums_human_cost. unfold num_of_nat, nz at 2, num_mul at 2.
    apply annual_savings_not_positive;
      [|by eapply cycles_per_year_not_negative].
    rewrite <- length_human_tasks.
    rewrite <- (length_fmap (task_cost_with_automation (Fin human_cost_min) o
                            (robot_cost_comparison e))).
    apply (sum_nums_not_below human_cost_min).
    apply Forall_fmap, Forall_forall. intros t _. simpl.
    apply task_cost_not_below. intros rc c. by apply Hcosts. }
  split; [done|].
  destruct (recommended_option_cases _ _ _ _ _ _ _ _ Hdet)
    as [[_ Hnone]|(_ & _ & ss & Hss & [[_ Hno]|(i & s & Hbest & _)])];
    [by left|by right|].
  destruct Hbest as (Hi & Hpos & _).
  apply list_elem_of_lookup_2 in Hi. by rewrite (Hall _ _ Hss Hi) in Hpos.
Qed.

Lemma no_cheaper_robot_no_recommendation_witness :
  (∀ ss s, option_savings dear_result = Some ss → s ∈ ss →
     (nz 0 <? annual_savings s)%num = false)
  ∧ (recommended_option_id dear_result = None
     ∨ recommended_option_id dear_result = Some "No_Automation").
Proof.
  apply (no_cheaper_robot_no_recommendation [dear_costs] 1%Qc
           [scenario_option] scenario_tasks (nz 5) (nz 40) [scenario_robot]
           dear_result).
  - by_compute.
  - reflexivity.
  - intros e rc c ->%list_elem_of_singleton ->%list_elem_of_singleton [= <-].
    reflexivity.
Defined.

(* ================================================================== *)
(** * Payback: the chart series against the annual savings *)




(* ================================================================== *)
(** * When no robot has a numeric cost *)

Lemma equal_costs_save_nothing (x cpy : num) :
  (nz 0 <? (x - x) * cpy)%num = false.
Proof.
  unfold num_sub, num_opp, num_add.
  destruct x as [a| | |]; try by destruct cpy.
  rewrite Qcplus_opp_r.
  unfold num_mul, inf_times, num_ltb, nz.
  destruct cpy as [c| | |]; try done.
Qed.

Lemma task_cost_without_numeric_cost (human_cost_min : num)
    (o : automation_option) (costs : list robot_cost_entry) (t : task) :
  (∀ rc, rc ∈ costs →
         num_of_pyval (robot_effective_cost_per_human_min rc) = None) →
  task_cost_with_automation human_cost_min o costs t = human_cost_min.
Proof.
  intros Hcosts. unfold task_cost_with_automation.
  destruct (assigned_robot o (task_id t) ≫= numeric_cost costs)
    as [c|] eqn:Hc; [|done].
  destruct (assigned_robot o (task_id t)) as [name|]; [|done].
  simpl in Hc. unfold numeric_cost in Hc.
  apply last_Some_elem_of, list_elem_of_omap in Hc as (rc & Hrc & Hnum).
  case_bool_decide; [|done]. by rewrite (Hcosts _ Hrc) in Hnum.
Qed.

(** Without a numeric cost in any comparison every task is costed at
    the human cost, the savings are zero (or not a number), and no
    option is recommended. *)
Lemma no_numeric_cost_no_recommendation
    (cost_benefit_results : list cost_benefit_result) (human_cost_min : num)
    (automation_options : list automation_option) (tasks : list task)
    (depreciation_years hours_per_week : num) (robots : list robot)
    (rec : recommendation) :
  determine_recommendation_new cost_benefit_results human_cost_min
    automation_options tasks depreciation_years hours_per_week robots
    = Ok rec →
  (∀ e rc, e ∈ cost_benefit_results → rc ∈ robot_cost_comparison e →
     num_of_pyval (robot_effective_cost_per_human_min rc) = None) →
  recommended_option_id rec = None
  ∨ recommended_option_id rec = Some "No_Automation".
Proof.
  intros Hdet Hcosts.
  destruct (recommended_option_cases _ _ _ _ _ _ _ _ Hdet)
    as [[_ Hnone]|(_ & _ & ss & Hss & [[_ Hno]|(i & s & Hbest & _)])];
    [by left|by right|].
  destruct Hbest as (Hi & Hpos & _). apply list_elem_of_lookup_2 in Hi.
  destruct (saving_is_evaluation _ _ _ _ _ _ _ _ _ _ Hdet Hss Hi)
    as (m & e & o & p & Hm & He & _ & Hev).
  apply evaluate_option_inv in Hev as (_ & _ & _ & _ & _ & _ & _ & Hsav & _).
  rewrite Hsav in Hpos.
  rewrite (list_fmap_ext
             (task_cost_with_automation human_cost_min o
                (robot_cost_comparison e))
             (λ _, human_cost_min)) in Hpos.
  - by rewrite equal_costs_save_nothing in Hpos.
  - intros j t _. apply task_cost_without_numeric_cost.
    intros rc. by apply Hcosts.
Qed.

(* ================================================================== *)
(** * Further properties of [perform_full_analysis] *)

Lemma mapM_result_inv {A B} (f : A → result B) (l : list A) (k : list B) :
  mapM f l = Ok k → Forall2 (λ x y, f x = Ok y) l k.
Proof.
  revert k. induction l as [|x l IH]; intros k; simpl.
  - intros [= <-]. constructor.
  - destruct (f x) as [y|] eqn:Hy; [|done]. simpl.
    destruct (mapM f l) as [k'|]; [|done]. simpl.
    intros [= <-]. constructor; [done|]. by apply IH.
Qed.

Lemma mapM_result_returns {A B} (f : A → result B) (l : list A) :
  Forall (λ x, ∃ y, f x = Ok y) l → ∃ k, mapM f l = Ok k.
Proof.
  induction 1 as [|x l [y Hy] _ [k IH]]; simpl; [by eexists|].
  rewrite Hy, IH. by eexists.
Qed.

Lemma mapM_result_elem_of {A B} (f : A → result B) (l : list A)
    (k : list B) (y : B) :
  mapM f l = Ok k → y ∈ k → ∃ x, x ∈ l ∧ f x = Ok y.
Proof.
  intros Hmap%mapM_result_inv Hy.
  induction Hmap as [|x y' l k Hx _ IH]; [by apply elem_of_nil in Hy|].
  apply elem_of_cons in Hy as [->|Hy].
  - exists x. split; [by left|done].
  - destruct (IH Hy) as (x' & Hx' & Hfx). exists x'. split; [by right|done].
Qed.

Section OrchestratorFurtherProperties.

Context {float_parser : FloatParser}.

Lemma convert_inputs_cases (OH T H G : pyval) :
  (∃ t h g oh,
     convert_inputs OH T H G = Ok (t, h, (g / nz 100)%num, oh)
     ∧ py_float T = Ok t ∧ py_float H = Ok h ∧ py_float G = Ok g
     ∧ py_float OH = Ok oh ∧ (oh <=? nz 0)%num = false)
  ∨ (∃ e, convert_inputs OH T H G = Raise e ∧ e ∈ [ValueError; TypeError]).
Proof.
  assert (Hraise : ∀ v e, py_float v = Raise e → e ∈ [ValueError; TypeError]).
  { intros v e [-> | ->]%py_float_raises; set_solver. }
  unfold convert_inputs.
  destruct (py_float T) as [t|e] eqn:HT; [|right; eauto].
  destruct (py_float H) as [h|e] eqn:HH; [|right; eauto].
  destruct (py_float G) as [g|e] eqn:HG; [|right; eauto].
  simpl.
  destruct (py_float OH) as [oh|e] eqn:HOH; [|right; eauto].
  simpl. destruct (oh <=? nz 0)%num eqn:Hoh.
  - right. exists ValueError. split; [done|set_solver].
  - left. by exists t, h, g, oh.
Qed.

(** The comparison entry for a robot: never an exception. *)
Lemma compare_robot_returns (m : gmap string robot) (t h g oh : num)
    (name : string) :
  ∃ rc, compare_robot m t h g oh name = Ok rc
        ∧ rc_robot_name rc = name ∧ consistent_entry oh rc
        ∧ (match m !! name with
           | Some r => not_computable r (VNum t) (VNum h) (VNum g) = true
           | None => True
           end → robot_effective_cost_per_human_min rc = NA).
Proof.
  unfold compare_robot. destruct (m !! name) as [r|].
  - pose proof (effective_cost_cases r (VNum t) (VNum h) (VNum g)) as Hc.
    destruct (not_computable _ _ _ _).
    + rewrite Hc. simpl. eexists. repeat split; try done. by right.
    + destruct Hc as [x ->]. simpl. eexists. repeat split; try done.
      left. by exists x.
  - eexists. repeat split; try done. by right.
Qed.

Lemma compare_option_returns (m : gmap string robot) (t h g oh : num)
    (o : automation_option) :
  ∃ e, compare_option m t h g oh o = Ok e ∧ comparison_of oh o e.
Proof.
  unfold compare_option.
  destruct (mapM_result_returns (compare_robot m t h g oh)
              (elements (list_to_set (a_robot_name <$> assignments o)
                           : gset string))) as [k Hk].
  { apply Forall_forall. intros name _.
    destruct (compare_robot_returns m t h g oh name) as (rc & -> & _).
    by eexists. }
  rewrite Hk. simpl. eexists. split; [done|].
  apply mapM_result_inv in Hk. unfold comparison_of. simpl.
  split; [done|]. fold (referenced_robots o) in Hk |- *.
  induction Hk as [|name rc names k Hrc _ [IHn IHc]]; [done|].
  destruct (compare_robot_returns m t h g oh name) as (rc' & Hrc' & <- & Hcons & _).
  rewrite Hrc in Hrc'. injection Hrc' as <-. split.
  - by rewrite fmap_cons, IHn.
  - by constructor.
Qed.

Lemma analyse_inv (t h g oh : num) tasks robots options d :
  analyse t h g oh tasks robots options = Ok d →
  ∃ results rec,
    Forall2 (comparison_of oh) options results
    ∧ determine_recommendation_new results oh options tasks t h robots
      = Ok rec
    ∧ d = [("process_tasks", PTasks tasks);
           ("available_robots", PRobots robots);
           ("automation_options", POptions options);
           ("cost_benefit_analysis", PCostBenefit results);
           ("recommendation", PRecommendation rec);
           ("task_savings_analysis",
              PSavings (default [] (option_savings rec)));
           ("annual_projections",
              PProjections (default [] (annual_projections rec)))].
Proof.
  unfold analyse.
  destruct (mapM _ options) as [results|] eqn:Hmap; [|done]. simpl.
  destruct (determine_recommendation_new _ _ _ _ _ _ _) as [rec|] eqn:Hdet;
    [|done].
  simpl. intros [= <-]. exists results, rec. split; [|done].
  apply mapM_result_inv in Hmap.
  eapply Forall2_impl; [exact Hmap|]. intros o e He. simpl in He.
  destruct (compare_option_returns (build_robot_data_map robots) t h g oh o)
    as (e' & He' & Hcmp).
  rewrite He in He'. by injection He' as <-.
Qed.

(** A complete result object comes from the last stage: the inputs
    converted, the task extractor and the catalog answered with
    non-empty lists, and the three collaborators were called in order. *)
Lemma perform_full_analysis_complete_inv (env : collaborators) video_uri
    OH T H G calls d :
  perform_full_analysis env video_uri OH T H G = (calls, Ok d) →
  complete d →
  ∃ t h g oh tasks options,
    py_float T = Ok t ∧ py_float H = Ok h ∧ py_float G = Ok g
    ∧ py_float OH = Ok oh ∧ (oh <=? nz 0)%num = false
    ∧ analyze_video_process env video_uri = Some tasks ∧ tasks ≠ []
    ∧ get_available_robots env ≠ []
    ∧ calls = [CallTaskExtractor video_uri; CallCatalogLoader;
               CallOptionGenerator
                 (prompt_step2 env tasks (get_available_robots env))]
    ∧ analyse t h (g / nz 100)%num oh tasks (get_available_robots env) options
      = Ok d.
Proof.
  unfold perform_full_analysis. intros Hrun [Hkeys _].
  destruct (convert_inputs_cases OH T H G)
    as [(t & h & g & oh & Hconv & HT & HH & HG & HOH & Hoh)|(e & Hconv & He)];
    rewrite Hconv in Hrun.
  2:{ rewrite bool_decide_eq_true_2 in Hrun by done.
      injection Hrun as <- <-. done. }
  destruct (analyze_video_process env video_uri) as [[|task tasks]|] eqn:Hv;
    try (injection Hrun as <- <-; done).
  destruct (get_available_robots env) as [|r robots] eqn:Hr;
    try (injection Hrun as <- <-; done).
  injection Hrun as <- Hd.
  eexists t, h, g, oh, (task :: tasks), _.
  repeat split; try done.
Qed.







Lemma not_computable_nonpositive (r : robot) (t h g : num) :
  (t <=? nz 0)%num || (h <=? nz 0)%num || (nz 1 + g <=? nz 0)%num = true →
  not_computable r (VNum t) (VNum h) (VNum g) = true.
Proof.
  unfold not_computable, converts_to_nonpositive, one_plus_nonpositive.
  simpl.
  destruct (t <=? nz 0)%num, (h <=? nz 0)%num, (nz 1 + g <=? nz 0)%num;
    simpl; rewrite ?orb_true_r; done.
Qed.

Lemma build_robot_data_map_elem_of (robots : list robot) (name : string)
    (r : robot) :
  build_robot_data_map robots !! name = Some r → r ∈ robots.
Proof.
  unfold build_robot_data_map.
  induction robots as [|r' robots IH] using rev_ind; [done|].
  rewrite foldl_snoc.
  destruct (decide (robot_name r' = name)) as [<-|Hne].
  - rewrite lookup_insert_eq. intros [= <-]. set_solver.
  - rewrite lookup_insert_ne by done. set_solver.
Qed.

(** When the cost of no catalog robot is computable, every robot cost
    of a complete result is "N/A" and no option is recommended. *)
Lemma uncomputable_costs_recommend_nothing (env : collaborators)
    video_uri OH T H G d t h g :
  (perform_full_analysis env video_uri OH T H G).2 = Ok d →
  complete d →
  py_float T = Ok t → py_float H = Ok h → py_float G = Ok g →
  (∀ r, r ∈ get_available_robots env →
        not_computable r (VNum t) (VNum h) (VNum (g / nz 100)%num) = true) →
  (∀ e rc, e ∈ cost_benefit_in d → rc ∈ robot_cost_comparison e →
     robot_effective_cost_per_human_min rc = NA ∧ is_cheaper rc = NA)
  ∧ ∃ rec, recommendation_in d = Some rec
      ∧ (recommended_option_id rec = None
         ∨ recommended_option_id rec = Some "No_Automation").
Proof.
  intros Hrun Hd HT HH HG Hguard.
  destruct (perform_full_analysis _ _ _ _ _ _) as [calls r] eqn:Hpfa.
  simpl in Hrun. subst r.
  destruct (perform_full_analysis_complete_inv _ _ _ _ _ _ _ _ Hpfa Hd)
    as (t' & h' & g' & oh & tasks & options & HT' & HH' & HG' & _ & _ & _ & _
        & _ & _ & Han).
  rewrite HT in HT'. rewrite HH in HH'. rewrite HG in HG'.
  injection HT' as <-. injection HH' as <-. injection HG' as <-.
  pose proof Han as Han'.
  apply analyse_inv in Han as (results & rec & Hcmp & Hdet & ->).
  assert (Hna : ∀ e rc, e ∈ results → rc ∈ robot_cost_comparison e →
            robot_effective_cost_per_human_min rc = NA ∧ is_cheaper rc = NA).
  { intros e rc He Hrc. unfold analyse in Han'.
    destruct (mapM _ options) as [results'|] eqn:Hmap; [|done].
    simpl in Han'.
    destruct (determine_recommendation_new results' _ _ _ _ _ _); [|done].
    injection Han' as <-.
    destruct (mapM_result_elem_of _ _ _ _ Hmap He) as (o & _ & Ho).
    unfold compare_option in Ho.
    destruct (mapM _ (elements _)) as [entries|] eqn:Hentries; [|done].
    injection Ho as <-. simpl in Hrc.
    destruct (mapM_result_elem_of _ _ _ _ Hentries Hrc) as (name & _ & Hname).
    destruct (compare_robot_returns (build_robot_data_map
                (get_available_robots env)) t h (g / nz 100)%num oh name)
      as (rc' & Hrc' & _ & [_ Hcons] & Hnc).
    rewrite Hname in Hrc'. injection Hrc' as <-.
    assert (Hcost : robot_effective_cost_per_human_min rc = NA).
    { apply Hnc. destruct (_ !! name) as [r|] eqn:Hr; [|done].
      by apply Hguard, (build_robot_data_map_elem_of _ name). }
    split; [done|].
    destruct Hcons as [(x & Hx & _)|[_ Hc]]; [|done].
    by rewrite Hcost in Hx. }
  split; [done|]. exists rec. split; [done|].
  eapply no_numeric_cost_no_recommendation; [exact Hdet|].
  intros e rc He Hrc. by destruct (Hna e rc He Hrc) as [-> _].
Qed.

(** X9.  [perform_full_analysis] accepts a depreciation life or weekly hours
    that are not positive, and an efficiency gain of -100 % or less.
    Its result is then complete, but says nothing: every robot cost in
    the cost-benefit analysis is "N/A" and no option is recommended. *)
Theorem nonpositive_inputs_recommend_nothing (env : collaborators)
    video_uri OH T H G d t h g :
  (perform_full_analysis env video_uri OH T H G).2 = Ok d →
  complete d →
  py_float T = Ok t → py_float H = Ok h → py_float G = Ok g →
  (t <=? nz 0)%num || (h <=? nz 0)%num
  || (nz 1 + g / nz 100 <=? nz 0)%num = true →
  (∀ e rc, e ∈ cost_benefit_in d → rc ∈ robot_cost_comparison e →
     robot_effective_cost_per_human_min rc = NA ∧ is_cheaper rc = NA)
  ∧ ∃ rec, recommendation_in d = Some rec
      ∧ (recommended_option_id rec = None
         ∨ recommended_option_id rec = Some "No_Automation").
Proof.
  intros Hrun Hd HT HH HG Hguard.
  eapply uncomputable_costs_recommend_nothing; try done.
  intros r _. by apply not_computable_nonpositive.
Qed.

(** A robot without an operating cost: its cost is not computable,
    whatever the financial inputs. *)
Lemma not_computable_without_op_cost (r : robot) (T H G : pyval) :
  is_none (dict_get (op_cost_per_min r)) = true →
  not_computable r T H G = true.
Proof. intros Hnone. unfold not_computable. by rewrite Hnone. Qed.

End OrchestratorFurtherProperties.




(** The scenario with a depreciation life of 0 years. *)
Lemma nonpositive_inputs_recommend_nothing_witness :
  (∀ e rc, e ∈ cost_benefit_in idle_payload → rc ∈ robot_cost_comparison e →
     robot_effective_cost_per_human_min rc = NA ∧ is_cheaper rc = NA)
  ∧ ∃ rec, recommendation_in idle_payload = Some rec
      ∧ (recommended_option_id rec = None
         ∨ recommended_option_id rec = Some "No_Automation").
Proof.
  apply (nonpositive_inputs_recommend_nothing scenario_env
           "gs://bucket/clip.mp4" (VNum (nz 1)) (VNum (nz 0)) (VNum (nz 40))
           (VNum (nz 0)) idle_payload (nz 0) (nz 40) (nz 0)).
  - by_compute.
  - split; reflexivity.
  - reflexivity.
  - reflexivity.
  - reflexivity.
  - reflexivity.
Defined.

(* ================================================================== *)
(** * Properties of the text operations *)

Global Arguments startswith : simpl never.
Global Arguments endswith : simpl never.
Global Arguments slice : simpl never.
Global Arguments find : simpl never.
Global Arguments rfind : simpl never.
Global Arguments strip : simpl never.
Global Arguments rstrip : simpl never.

Lemma len_nonneg {A} (s : list A) : 0 ≤ len s.
Proof. unfold len. lia. Qed.

Lemma len_app {A} (s t : list A) : len (s ++ t) = len s + len t.
Proof. unfold len. rewrite length_app. lia. Qed.

Lemma startswith_true (s p : text) :
  startswith s p = true ↔ ∃ rest, s = p ++ rest.
Proof. unfold startswith. by rewrite bool_decide_eq_true. Qed.

Lemma endswith_true (s p : text) :
  endswith s p = true ↔ ∃ front, s = front ++ p.
Proof. unfold endswith. by rewrite bool_decide_eq_true. Qed.

Lemma startswith_cons (c d : N) (s p : text) :
  startswith (c :: s) (d :: p) = bool_decide (c = d) && startswith s p.
Proof.
  unfold startswith. apply eq_true_iff_eq.
  rewrite andb_true_iff, !bool_decide_eq_true. split.
  - intros Hp. split; [symmetry; by eapply prefix_cons_inv_1|].
    by eapply prefix_cons_inv_2.
  - intros [-> Hp]. by apply prefix_cons.
Qed.

Lemma startswith_nil (s : text) : startswith s [] = true.
Proof. apply bool_decide_eq_true, prefix_nil. Qed.

Lemma startswith_nil_l (c : N) (p : text) : startswith [] (c :: p) = false.
Proof. apply bool_decide_eq_false, prefix_nil_not. Qed.

(** ** Slices *)

Lemma slice_from {A} (s : list A) (a : nat) :
  slice s (Some (Z.of_nat a)) None = drop a s.
Proof.
  unfold slice, slice_index, len. simpl.
  rewrite (proj2 (Z.ltb_ge _ _)) by lia.
  destruct (decide (a ≤ length s)%nat).
  - rewrite Z.min_l by lia. rewrite Nat2Z.id.
    apply take_ge. rewrite length_drop. lia.
  - rewrite Z.min_r by lia. rewrite Nat2Z.id.
    rewrite Z.sub_diag. rewrite (drop_ge s a) by lia. by rewrite drop_all.
Qed.

Lemma slice_to {A} (s : list A) (b : nat) :
  slice s None (Some (Z.of_nat b)) = take b s.
Proof.
  unfold slice, slice_index, len. simpl.
  rewrite (proj2 (Z.ltb_ge _ _)) by lia. rewrite Z.sub_0_r.
  destruct (decide (b ≤ length s)%nat).
  - rewrite Z.min_l by lia. by rewrite Nat2Z.id.
  - rewrite Z.min_r by lia. rewrite Nat2Z.id.
    change (Z.to_nat 0) with 0%nat. rewrite drop_0.
    by rewrite !take_ge by lia.
Qed.

Lemma slice_between {A} (s : list A) (a b : nat) :
  slice s (Some (Z.of_nat a)) (Some (Z.of_nat b))
  = take (b - a) (drop a (take b s)).
Proof.
  unfold slice, slice_index, len. simpl.
  rewrite !(proj2 (Z.ltb_ge _ _)) by lia.
  apply list_eq. intros i.
  destruct (decide (i < Z.to_nat (Z.of_nat b `min` Z.of_nat (length s)
                                   - Z.of_nat a `min` Z.of_nat (length s)))%nat)
    as [Hi|Hi].
  - rewrite lookup_take_lt by done. rewrite lookup_drop.
    rewrite lookup_take_lt by lia. rewrite lookup_drop.
    rewrite lookup_take_lt by lia. f_equal. lia.
  - rewrite lookup_take_ge by lia. symmetry.
    destruct (decide (i < b - a)%nat).
    + rewrite lookup_take_lt by done. rewrite lookup_drop.
      destruct (decide (a + i < b)%nat); [|by rewrite lookup_take_ge by lia].
      rewrite lookup_take_lt by lia. apply lookup_ge_None. lia.
    + by rewrite lookup_take_ge by lia.
Qed.

Lemma slice_drop_end {A} (s : list A) (k : nat) :
  (0 < k)%nat →
  slice s None (Some (- Z.of_nat k)) = take (length s - k) s.
Proof.
  intros Hk. unfold slice, slice_index, len. simpl.
  rewrite (proj2 (Z.ltb_lt _ _)) by lia. rewrite Z.sub_0_r.
  change (Z.to_nat 0) with 0%nat. rewrite drop_0. f_equal. lia.
Qed.

Lemma slice_inner {A} (s : list A) (a k : nat) :
  (0 < k)%nat →
  slice s (Some (Z.of_nat a)) (Some (- Z.of_nat k))
  = drop a (take (length s - k) s).
Proof.
  intros Hk. unfold slice, slice_index, len. simpl.
  rewrite (proj2 (Z.ltb_ge (Z.of_nat a) 0)) by lia.
  rewrite (proj2 (Z.ltb_lt (- Z.of_nat k) 0)) by lia.
  apply list_eq. intros i. rewrite lookup_drop.
  destruct (decide (a + i < length s - k)%nat) as [Hi|Hi].
  - rewrite lookup_take_lt by lia. rewrite lookup_drop.
    rewrite lookup_take_lt by lia. f_equal. lia.
  - rewrite (lookup_take_ge s) by lia.
    apply lookup_take_ge. lia.
Qed.

(** ** [strip] *)

Lemma lstrip_spaces (pre s : text) :
  all_space pre → lstrip (pre ++ s) = lstrip s.
Proof.
  unfold all_space. induction 1 as [|c pre Hc _ IH]; [done|].
  simpl. by rewrite Hc.
Qed.

Lemma lstrip_cons (c : N) (s : text) :
  is_space c = false → lstrip (c :: s) = c :: s.
Proof. intros Hc. simpl. by rewrite Hc. Qed.

Lemma lstrip_decompose (s : text) :
  ∃ pre, s = pre ++ lstrip s ∧ all_space pre.
Proof.
  induction s as [|c s (pre & IH & Hpre)].
  { exists []. split; [done|apply Forall_nil_2]. }
  simpl. destruct (is_space c) eqn:Hc.
  - exists (c :: pre). split; [by rewrite IH at 1|by apply Forall_cons].
  - exists []. split; [done|apply Forall_nil_2].
Qed.

Lemma lstrip_head (s : text) (c : N) :
  head (lstrip s) = Some c → is_space c = false.
Proof.
  induction s as [|d s IH]; [done|]. simpl.
  destruct (is_space d) eqn:Hd; [done|]. simpl. by intros [= <-].
Qed.

Lemma lstrip_before (pre rest : text) (c : N) :
  is_space c = false →
  lstrip (pre ++ c :: rest) = lstrip pre ++ c :: rest.
Proof.
  intros Hc. induction pre as [|d pre IH]; simpl; [by rewrite Hc|].
  by destruct (is_space d).
Qed.

Lemma rstrip_snoc (s : text) (c : N) :
  rstrip (s ++ [c]) = if is_space c then rstrip s else s ++ [c].
Proof.
  unfold rstrip. rewrite reverse_snoc. simpl.
  destruct (is_space c); [done|]. by rewrite reverse_cons, reverse_involutive.
Qed.

Lemma rstrip_spaces (s post : text) :
  all_space post → rstrip (s ++ post) = rstrip s.
Proof.
  unfold all_space.
  induction post as [|c post IH] using rev_ind; intros Hpost.
  - by rewrite app_nil_r.
  - apply Forall_app in Hpost as [Hpost Hc%Forall_inv].
    rewrite (assoc_L (++)), rstrip_snoc, Hc. by apply IH.
Qed.

Lemma rstrip_decompose (s : text) :
  ∃ post, s = rstrip s ++ post ∧ all_space post.
Proof.
  induction s as [|c s (post & IH & Hpost)] using rev_ind.
  { exists []. split; [done|apply Forall_nil_2]. }
  rewrite rstrip_snoc. destruct (is_space c) eqn:Hc.
  - exists (post ++ [c]). split.
    + by rewrite (assoc_L (++)), <- IH.
    + apply Forall_app. split; [done|by apply Forall_singleton].
  - exists []. rewrite app_nil_r. split; [done|apply Forall_nil_2].
Qed.

Lemma rstrip_last (s : text) (c : N) :
  last (rstrip s) = Some c → is_space c = false.
Proof.
  induction s as [|d s IH] using rev_ind; [done|].
  rewrite rstrip_snoc. destruct (is_space d) eqn:Hd; [done|].
  rewrite last_snoc. by intros [= <-].
Qed.

Lemma rstrip_after (front post : text) (c : N) :
  is_space c = false →
  rstrip (front ++ c :: post) = front ++ c :: rstrip post.
Proof.
  intros Hc. induction post as [|d post IH] using rev_ind.
  - by rewrite rstrip_snoc, Hc.
  - replace (front ++ c :: post ++ [d]) with ((front ++ c :: post) ++ [d])
      by by rewrite <- (assoc_L (++)).
    rewrite !rstrip_snoc. destruct (is_space d); [done|].
    by rewrite <- (assoc_L (++)).
Qed.

(** Stripping a text around a part that begins and ends with
    characters that are not white space. *)
Lemma strip_around (pre mid post : text) (c d : N) :
  is_space c = false → is_space d = false →
  strip (pre ++ c :: mid ++ d :: post)
  = lstrip pre ++ c :: mid ++ d :: rstrip post.
Proof.
  intros Hc Hd. unfold strip. rewrite lstrip_before by done.
  replace (lstrip pre ++ c :: mid ++ d :: post)
    with ((lstrip pre ++ c :: mid) ++ d :: post)
    by by rewrite <- (assoc_L (++)).
  rewrite rstrip_after by done. by rewrite <- (assoc_L (++)).
Qed.

Lemma strip_decompose (s : text) :
  ∃ pre post, s = pre ++ strip s ++ post ∧ all_space pre ∧ all_space post.
Proof.
  destruct (lstrip_decompose s) as (pre & Hs & Hpre).
  destruct (rstrip_decompose (lstrip s)) as (post & Hl & Hpost).
  exists pre, post. unfold strip. by rewrite <- Hl, <- Hs.
Qed.

Lemma strip_nil : strip [] = [].
Proof. done. Qed.

Lemma strip_last (s : text) (c : N) :
  last (strip s) = Some c → is_space c = false.
Proof. apply rstrip_last. Qed.

Lemma strip_head (s : text) (c : N) :
  head (strip s) = Some c → is_space c = false.
Proof.
  unfold strip. intros Hhead.
  destruct (rstrip_decompose (lstrip s)) as (post & Hl & _).
  apply (lstrip_head s). rewrite Hl.
  destruct (rstrip (lstrip s)); [done|by simpl in *].
Qed.

(** A text that neither begins nor ends with white space is left as it
    is. *)
Lemma strip_fixed (s : text) :
  (∀ c, head s = Some c → is_space c = false) →
  (∀ c, last s = Some c → is_space c = false) →
  strip s = s.
Proof.
  intros Hhead Hlast. unfold strip.
  assert (Hl : lstrip s = s).
  { destruct s as [|c s]; [done|]. apply lstrip_cons. by apply Hhead. }
  rewrite Hl. destruct s as [|c s _] using rev_ind; [done|].
  rewrite rstrip_snoc. rewrite (Hlast c); [done|]. by rewrite last_snoc.
Qed.

Lemma strip_idemp (s : text) : strip (strip s) = strip s.
Proof. apply strip_fixed; [apply strip_head|apply strip_last]. Qed.

(** ** [find] and [rfind] for one character *)

Lemma startswith_char (s : text) (c : N) :
  startswith s [c] = bool_decide (head s = Some c).
Proof.
  destruct s as [|d s].
  - rewrite startswith_nil_l. symmetry. by apply bool_decide_eq_false.
  - rewrite startswith_cons, startswith_nil, andb_true_r. simpl.
    apply bool_decide_ext. split; [by intros ->|by intros [= ->]].
Qed.

Lemma find_at_char_absent (s : text) (c : N) (i : Z) :
  c ∉ s → find_at s [c] i = -1.
Proof.
  revert i. induction s as [|d s IH]; intros i Hc.
  - done.
  - simpl. rewrite startswith_char. simpl.
    rewrite bool_decide_eq_false_2 by (intros [= ->]; set_solver).
    apply IH. set_solver.
Qed.

Lemma find_at_char_first (pre rest : text) (c : N) (i : Z) :
  c ∉ pre → find_at (pre ++ c :: rest) [c] i = i + len pre.
Proof.
  revert i. induction pre as [|d pre IH]; intros i Hc.
  - simpl. rewrite startswith_char. simpl.
    rewrite bool_decide_eq_true_2 by done. unfold len. simpl. lia.
  - simpl. rewrite startswith_char. simpl.
    rewrite bool_decide_eq_false_2 by (intros [= ->]; set_solver).
    rewrite IH by set_solver. unfold len. simpl length. lia.
Qed.

(** [find] from an index inside the text looks at the rest of it. *)
Lemma find_from (s sub : text) (a : nat) :
  (a ≤ length s)%nat →
  find s sub (Z.of_nat a) = find_at (drop a s) sub (Z.of_nat a).
Proof.
  intros Ha. unfold find, slice_index, len.
  rewrite (proj2 (Z.ltb_ge _ _)) by lia.
  rewrite (proj2 (Z.ltb_ge (Z.of_nat a) 0)) by lia.
  rewrite Z.min_l by lia. by rewrite Nat2Z.id.
Qed.

Lemma find_from_0 (s sub : text) : find s sub 0 = find_at s sub 0.
Proof. apply (find_from s sub 0). lia. Qed.

Lemma find_char_absent (s : text) (c : N) : c ∉ s → find s [c] 0 = -1.
Proof. intros Hc. rewrite find_from_0. by apply find_at_char_absent. Qed.

Lemma find_char_first (pre rest : text) (c : N) :
  c ∉ pre → find (pre ++ c :: rest) [c] 0 = len pre.
Proof.
  intros Hc. rewrite find_from_0. by rewrite find_at_char_first.
Qed.

Lemma rfind_at_char_absent (s : text) (c : N) (i : Z) :
  c ∉ s → rfind_at s [c] i = -1.
Proof.
  revert i. induction s as [|d s IH]; intros i Hc.
  - done.
  - simpl. rewrite IH by set_solver. simpl.
    rewrite startswith_char. simpl.
    by rewrite bool_decide_eq_false_2 by (intros [= ->]; set_solver).
Qed.

Lemma rfind_at_char_last (front post : text) (c : N) (i : Z) :
  0 ≤ i → c ∉ post → rfind_at (front ++ c :: post) [c] i = i + len front.
Proof.
  revert i. induction front as [|d front IH]; intros i Hi Hc.
  - simpl. rewrite rfind_at_char_absent by done. simpl.
    rewrite startswith_char. simpl.
    rewrite bool_decide_eq_true_2 by done. unfold len. simpl. lia.
  - simpl. rewrite IH by (done || lia).
    pose proof (len_nonneg front).
    rewrite (proj2 (Z.eqb_neq _ _)) by lia.
    unfold len. simpl length. lia.
Qed.

Lemma rfind_char_absent (s : text) (c : N) : c ∉ s → rfind s [c] = -1.
Proof. apply rfind_at_char_absent. Qed.

Lemma rfind_char_last (front post : text) (c : N) :
  c ∉ post → rfind (front ++ c :: post) [c] = len front.
Proof. intros Hc. unfold rfind. by rewrite rfind_at_char_last. Qed.

(* ================================================================== *)
(** * [generate_text_analysis]: the cleaned response *)

Lemma strip_sublist (s : text) : strip s `sublist_of` s.
Proof.
  destruct (strip_decompose s) as (pre & post & Hs & _).
  rewrite Hs at 2. apply sublist_inserts_l, sublist_inserts_r. done.
Qed.

Lemma slice_sublist {A} (s : list A) (start stop : option Z) :
  slice s start stop `sublist_of` s.
Proof.
  unfold slice. etrans; [apply sublist_take|apply sublist_drop].
Qed.

Lemma strip_elem_of (s : text) (c : N) : c ∈ strip s → c ∈ s.
Proof. intros Hc. eapply elem_of_sublist; [done|apply strip_sublist]. Qed.

Lemma slice_elem_of {A} (s : list A) (start stop : option Z) (c : A) :
  c ∈ slice s start stop → c ∈ s.
Proof. intros Hc. eapply elem_of_sublist; [done|apply slice_sublist]. Qed.

Lemma open_brace_not_space : is_space 123 = false.
Proof. done. Qed.

Lemma close_brace_not_space : is_space 125 = false.
Proof. done. Qed.

Lemma strip_from_brace (rest : text) :
  ∃ rest', strip (123%N :: rest) = 123%N :: rest'.
Proof.
  destruct rest as [|d rest _] using rev_ind; [by exists []|].
  unfold strip. rewrite lstrip_cons by done.
  destruct (rstrip_decompose (123%N :: rest ++ [d])) as (post & Hpost & Hsp).
  destruct (rstrip (123%N :: rest ++ [d])) as [|e r] eqn:Hr.
  - simpl in Hpost. rewrite <- Hpost in Hsp.
    apply Forall_inv in Hsp. done.
  - injection Hpost as <- _. by exists r.
Qed.

(** Lines 157-161: the text before the first opening brace is removed. *)
Lemma from_first_brace_shape (r : text) :
  let r' :=
    if negb (startswith r open_brace) then
      let first_brace := find r open_brace 0 in
      if 0 <? first_brace
      then strip (slice r (Some first_brace) None) else r
    else r in
  (strip r = r → strip r' = r')
  ∧ (startswith r' open_brace = true ∨ 123%N ∉ r').
Proof.
  simpl. destruct (startswith r open_brace) eqn:Hstart; simpl; [by auto|].
  unfold open_brace in *. change (codes "{") with [123%N] in *.
  destruct (decide (123%N ∈ r)) as [Hin|Hout].
  - apply list_elem_of_split_l in Hin as (pre & rest & -> & Hpre).
    rewrite find_char_first by done.
    destruct pre as [|d pre].
    { rewrite startswith_char in Hstart.
      by apply bool_decide_eq_false in Hstart. }
    rewrite (proj2 (Z.ltb_lt 0 (len (d :: pre))))
      by (unfold len; simpl length; lia).
    unfold len. rewrite slice_from, drop_app_length.
    split; [intros _; apply strip_idemp|]. left.
    destruct (strip_from_brace rest) as [rest' ->].
    apply startswith_true. by exists rest'.
  - rewrite find_char_absent by done. simpl. by auto.
Qed.

(** Lines 164-167: the text after the last closing brace is removed. *)
Lemma to_last_brace_shape (r : text) :
  let last_brace := rfind r close_brace in
  let r' :=
    if last_brace <? len r - 1
    then strip (slice r None (Some (last_brace + 1))) else r in
  (strip r = r → strip r' = r')
  ∧ (r' ≠ [] → endswith r' close_brace = true)
  ∧ (startswith r open_brace = true ∨ 123%N ∉ r →
     r' ≠ [] → startswith r' open_brace = true ∨ 123%N ∉ r')
  ∧ (125%N ∉ r → r' = []).
Proof.
  simpl. unfold close_brace. change (codes "}") with [125%N].
  destruct (decide (125%N ∈ r)) as [Hin|Hout].
  - apply list_elem_of_split_r in Hin as (front & post & -> & Hpost).
    rewrite rfind_char_last by done.
    rewrite !len_app. unfold len at 2 3. simpl length.
    destruct (len front <? _) eqn:Hlt.
    + replace (len front + 1) with (Z.of_nat (S (length front)))
        by (unfold len; lia).
      rewrite slice_to.
      replace (front ++ 125%N :: post) with ((front ++ [125%N]) ++ post)
        by by rewrite <- (assoc_L (++)).
      rewrite take_app_length' by (rewrite length_app; simpl; lia).
      assert (Hstrip : strip (front ++ [125%N]) = lstrip front ++ [125%N]).
      { unfold strip. rewrite lstrip_before by done.
        by rewrite rstrip_snoc. }
      rewrite Hstrip. repeat split.
      * intros _. rewrite <- Hstrip. apply strip_idemp.
      * intros _. apply endswith_true. by eexists.
      * intros [Hs|Hno] _.
        -- left. apply startswith_true in Hs as [rest Hs].
           destruct front as [|d front]; [done|].
           injection Hs as -> _. rewrite lstrip_cons by done.
           apply startswith_true. by eexists.
        -- right. intros Hx. apply Hno. apply elem_of_app in Hx.
           destruct Hx as [Hl|Hr]; [|by apply list_elem_of_singleton in Hr].
           destruct (lstrip_decompose front) as (pre & Hf & _).
           rewrite Hf. set_solver.
      * intros Hno. set_solver.
    + apply Z.ltb_ge in Hlt.
      assert (post = []) as ->.
      { destruct post; [done|]. unfold len in Hlt. simpl in Hlt. lia. }
      repeat split; try done.
      * intros _. apply endswith_true. by eexists.
      * set_solver.
  - rewrite rfind_char_absent by done.
    destruct (-1 <? len r - 1) eqn:Hlt.
    + change (-1 + 1) with (Z.of_nat 0). rewrite slice_to. simpl.
      repeat split; done.
    + apply Z.ltb_ge in Hlt. assert (r = []) as ->.
      { destruct r; [done|]. unfold len in Hlt. simpl in Hlt. lia. }
      repeat split; done.
Qed.

Lemma cleaned_response_steps (t : text) :
  t ≠ [] →
  ∃ r1 r2,
    strip r1 = r1 ∧ r1 `sublist_of` t
    ∧ r2 = (if negb (startswith r1 open_brace) then
              if 0 <? find r1 open_brace 0
              then strip (slice r1 (Some (find r1 open_brace 0)) None) else r1
            else r1)
    ∧ cleaned_response t =
        (if rfind r2 close_brace <? len r2 - 1
         then strip (slice r2 None (Some (rfind r2 close_brace + 1))) else r2).
Proof.
  intros Ht. unfold cleaned_response.
  destruct t as [|c t]; [done|]. cbv beta iota zeta delta [text_truthy].
  eexists _, _. split; [|split; [|split; reflexivity]].
  - destruct (_ && _); [destruct (startswith _ (codes "json"))|];
      apply strip_idemp.
  - destruct (_ && _); [destruct (startswith _ (codes "json"))|];
      repeat (etrans; [apply strip_sublist || apply slice_sublist|]); done.
Qed.

(** X12.  The text [generate_text_analysis] returns has no white space around
    it.  When it is not empty, it ends with a closing brace, and it
    begins with an opening brace unless it holds none at all. *)
Theorem cleaned_response_shape (t : text) :
  strip (cleaned_response t) = cleaned_response t
  ∧ (cleaned_response t ≠ [] →
     endswith (cleaned_response t) close_brace = true
     ∧ (startswith (cleaned_response t) open_brace = true
        ∨ 123%N ∉ cleaned_response t)).
Proof.
  destruct (decide (t = [])) as [->|Ht]; [done|].
  destruct (cleaned_response_steps t Ht) as (r1 & r2 & Hr1 & _ & Hr2 & ->).
  destruct (from_first_brace_shape r1) as [Hstrip Hopen].
  cbv zeta in Hstrip, Hopen. rewrite <- Hr2 in Hstrip, Hopen.
  destruct (to_last_brace_shape r2) as (Hstrip' & Hclose & Hopen' & _).
  cbv zeta in Hstrip', Hclose, Hopen'. auto.
Qed.

(** X13.  A response without any closing brace is dropped altogether: the
    function returns the empty text. *)
Theorem response_without_closing_brace_is_dropped (t : text) :
  125%N ∉ t → cleaned_response t = [].
Proof.
  intros Hno. destruct (decide (t = [])) as [->|Ht]; [done|].
  destruct (cleaned_response_steps t Ht) as (r1 & r2 & _ & Hsub & Hr2 & ->).
  destruct (to_last_brace_shape r2) as (_ & _ & _ & Hdrop).
  apply Hdrop. intros Hin. apply Hno.
  eapply elem_of_sublist; [|exact Hsub]. subst r2.
  destruct (negb _); [destruct (0 <? _)|]; try done.
  by eapply slice_elem_of, strip_elem_of.
Qed.

Lemma prefix_before_first (c : N) (p rest pfx : text) :
  pfx `prefix_of` p ++ c :: rest → c ∉ pfx → ∃ p', p = pfx ++ p'.
Proof.
  revert p. induction pfx as [|d pfx IH]; intros p Hpfx Hc; [by exists p|].
  destruct p as [|e p].
  - apply prefix_cons_inv_1 in Hpfx. subst d. destruct Hc. by left.
  - pose proof (prefix_cons_inv_1 _ _ _ _ Hpfx) as ->.
    apply prefix_cons_inv_2 in Hpfx.
    destruct (IH p Hpfx) as [p' ->]; [set_solver|]. by exists p'.
Qed.

Lemma suffix_after_last (c : N) (front q sfx : text) :
  sfx `suffix_of` front ++ c :: q → c ∉ sfx → ∃ q', q = q' ++ sfx.
Proof.
  intros Hsfx Hc.
  apply suffix_prefix_reverse in Hsfx.
  rewrite reverse_app, reverse_cons, <- (assoc_L (++)) in Hsfx.
  apply prefix_before_first in Hsfx as [p' Hp'].
  - exists (reverse p').
    by rewrite <- (reverse_involutive q), Hp', reverse_app, reverse_involutive.
  - by rewrite elem_of_reverse.
Qed.

Section ExtractObject.

Variable mid : text.

Let body : text := 123%N :: mid ++ [125%N].

Lemma body_after (p q : text) :
  p ++ body ++ q = p ++ 123%N :: (mid ++ [125%N] ++ q).
Proof. unfold body. simpl. by rewrite <- (assoc_L (++)). Qed.

Lemma body_before (p q : text) :
  p ++ body ++ q = (p ++ 123%N :: mid) ++ 125%N :: q.
Proof. unfold body. simpl. by rewrite <- !(assoc_L (++)). Qed.

Lemma around_strip (r : text) : around body r → around body (strip r).
Proof.
  intros (p & q & -> & Hp & Hq). exists (lstrip p), (rstrip q).
  split.
  - unfold body. simpl.
    rewrite <- !(assoc_L (++)). simpl. by rewrite strip_around.
  - split.
    + destruct (lstrip_decompose p) as (sp & Hsp & _).
      rewrite Hsp in Hp. set_solver.
    + destruct (rstrip_decompose q) as (sp & Hsp & _).
      rewrite Hsp in Hq. set_solver.
Qed.

Lemma around_drop_prefix (r pfx : text) :
  around body r → startswith r pfx = true → 123%N ∉ pfx →
  around body (drop (length pfx) r).
Proof.
  intros (p & q & -> & Hp & Hq) Hpfx%bool_decide_eq_true Hno.
  rewrite body_after in Hpfx.
  destruct (prefix_before_first 123 p (mid ++ [125%N] ++ q) pfx Hpfx Hno)
    as [p' ->].
  rewrite <- (assoc_L (++)), drop_app_length.
  exists p', q. split; [done|]. split; [set_solver|done].
Qed.

Lemma around_drop_suffix (r sfx : text) :
  around body r → endswith r sfx = true → 125%N ∉ sfx →
  around body (take (length r - length sfx) r).
Proof.
  intros (p & q & -> & Hp & Hq) Hsfx%bool_decide_eq_true Hno.
  rewrite body_before in Hsfx.
  destruct (suffix_after_last 125 (p ++ 123%N :: mid) q sfx Hsfx Hno)
    as [q' ->].
  rewrite !(assoc_L (++)).
  rewrite take_app_length' by (rewrite !length_app; lia).
  exists p, q'. rewrite <- !(assoc_L (++)).
  split; [done|]. split; [done|set_solver].
Qed.

Lemma cleaned_response_around (t : text) :
  around body t → cleaned_response t = body.
Proof.
  intros Ht.
  assert (Hne : t ≠ []).
  { destruct Ht as (p & q & -> & _). by destruct p. }
  unfold cleaned_response. destruct t as [|c t]; [done|].
  cbv beta iota zeta delta [text_truthy].
  set (r0 := strip (c :: t)).
  assert (Hr0 : around body r0) by by apply around_strip.
  clearbody r0. clear c t Ht Hne.
  set (r1 := if startswith r0 fence && endswith r0 fence then _ else r0).
  assert (Hr1 : around body r1).
  { subst r1. destruct (startswith r0 fence) eqn:Hs; [|done].
    destruct (endswith r0 fence) eqn:He; [|done]. simpl.
    change 3 with (Z.of_nat 3). change (-3) with (- Z.of_nat 3).
    rewrite slice_inner by lia.
    set (r := strip _).
    assert (Hr : around body r).
    { apply around_strip.
      apply bool_decide_eq_true in Hs, He.
      destruct Hr0 as (p & q & -> & Hp & Hq).
      rewrite body_after in Hs. rewrite body_before in He.
      destruct (prefix_before_first 123 p _ fence Hs) as [p1 ->];
        [by_compute|].
      destruct (suffix_after_last 125 _ q fence He) as [q1 ->];
        [by_compute|].
      exists p1, q1. split; [|split; set_solver].
      replace ((fence ++ p1) ++ body ++ q1 ++ fence)
        with ((fence ++ p1 ++ body ++ q1) ++ fence)
        by by rewrite <- !(assoc_L (++)).
      rewrite take_app_length' by (rewrite (length_app _ fence); simpl; lia).
      change 3%nat with (length fence). by rewrite drop_app_length. }
    clearbody r.
    destruct (startswith r (codes "json")) eqn:Hj; [|done].
    change 4 with (Z.of_nat 4). rewrite slice_from.
    apply around_strip.
    by apply (around_drop_prefix _ (codes "json")); [| |by_compute]. }
  clearbody r1. clear r0 Hr0.
  destruct Hr1 as (p & q & -> & Hp & Hq).
  set (r2 := if negb _ then _ else _).
  assert (Hr2 : ∃ q', r2 = body ++ q' ∧ 125%N ∉ q').
  { subst r2. unfold open_brace. change (codes "{") with [123%N].
    destruct p as [|d p].
    - simpl. by exists q.
    - rewrite !body_after. rewrite startswith_char. simpl head.
      rewrite bool_decide_eq_false_2 by (intros [= ->]; set_solver).
      cbv beta iota zeta delta [negb].
      rewrite find_char_first by done.
      rewrite (proj2 (Z.ltb_lt 0 (len (d :: p))))
        by (unfold len; simpl length; lia).
      unfold len. rewrite slice_from, drop_app_length.
      change (123%N :: (mid ++ [125%N] ++ q))
        with ([] ++ 123%N :: mid ++ 125%N :: q).
      rewrite strip_around by done.
      exists (rstrip q). split.
      + unfold body. simpl. by rewrite <- (assoc_L (++)).
      + destruct (rstrip_decompose q) as (sp & Hsp & _).
        rewrite Hsp in Hq. set_solver. }
  clearbody r2. destruct Hr2 as (q' & -> & Hq').
  unfold close_brace. change (codes "}") with [125%N].
  replace (body ++ q') with ((123%N :: mid) ++ 125%N :: q')
    by (unfold body; simpl; by rewrite <- (assoc_L (++))).
  rewrite rfind_char_last by done.
  unfold len. rewrite length_app. simpl length.
  destruct q' as [|e q'].
  - simpl length. rewrite (proj2 (Z.ltb_ge _ _)) by lia. done.
  - rewrite (proj2 (Z.ltb_lt _ _)) by (simpl length; lia).
    replace (Z.of_nat (S (length mid)) + 1)
      with (Z.of_nat (length (123%N :: mid ++ [125%N])))
      by (simpl; rewrite length_app; simpl; lia).
    rewrite slice_to.
    replace ((123%N :: mid) ++ 125%N :: e :: q')
      with ((123%N :: mid ++ [125%N]) ++ e :: q')
      by (simpl; by rewrite <- (assoc_L (++))).
    rewrite take_app_length.
    apply strip_fixed.
    + by intros ? [= <-].
    + intros c.
      change (last ((123%N :: mid) ++ [125%N]) = Some c → is_space c = false).
      rewrite last_snoc. by intros [= <-].
Qed.

End ExtractObject.

(** X14.  From a response that holds an object between an opening and a
    closing brace, with no opening brace before it and no closing brace
    after it, [generate_text_analysis] returns exactly the object:
    explanations, code fences and white space around it are removed. *)
Theorem cleaned_response_extracts_object (pre mid post : text) :
  123%N ∉ pre → 125%N ∉ post →
  cleaned_response (pre ++ 123%N :: mid ++ 125%N :: post)
  = 123%N :: mid ++ [125%N].
Proof.
  intros Hpre Hpost. apply cleaned_response_around.
  exists pre, post. split; [|done]. simpl. by rewrite <- (assoc_L (++)).
Qed.

Lemma cleaned_response_extracts_object_witness :
  cleaned_response (codes "Sure: ```json {x: {y}} ``` Done.")
  = codes "{x: {y}}".
Proof.
  apply (cleaned_response_extracts_object (codes "Sure: ```json ")
           (codes "x: {y}") (codes " ``` Done.")).
  - by_compute.
  - by_compute.
Defined.

Lemma response_without_closing_brace_is_dropped_witness :
  cleaned_response (codes "{x: [1, 2") = [].
Proof.
  apply (response_without_closing_brace_is_dropped (codes "{x: [1, 2")).
  by_compute.
Defined.

(* ================================================================== *)
(** * [perform_full_analysis]: salvaging options from a truncated answer *)

Lemma is_open_brace (c : N) : bool_decide ([c] = open_brace) = bool_decide (c = 123%N).
Proof.
  apply bool_decide_ext. unfold open_brace. change (codes "{") with [123%N].
  split; [by intros [= ->]|by intros ->].
Qed.

Lemma is_close_brace (c : N) : bool_decide ([c] = close_brace) = bool_decide (c = 125%N).
Proof.
  apply bool_decide_ext. unfold close_brace. change (codes "}") with [125%N].
  split; [by intros [= ->]|by intros ->].
Qed.

Lemma count_braces_cons (c : N) (rest : text) (d k : Z) :
  0 < d →
  count_braces (c :: rest) d k =
    count_braces rest
      (if bool_decide (c = 123%N) then d + 1
       else if bool_decide (c = 125%N) then d - 1 else d) (k + 1).
Proof.
  intros Hd. simpl. rewrite (proj2 (Z.ltb_lt 0 d)) by done.
  by rewrite is_open_brace, is_close_brace.
Qed.

Lemma count_braces_done (rest : text) (d k : Z) :
  d ≤ 0 → count_braces rest d k = (d, k).
Proof.
  intros Hd. destruct rest; simpl; by rewrite (proj2 (Z.ltb_ge 0 d)) by done.
Qed.

Lemma count_braces_nil (d k : Z) : count_braces [] d k = (d, k).
Proof. simpl. by destruct (0 <? d). Qed.

(** The inner loop passes over matched braces without a change of the
    count. *)
Lemma count_braces_nested (w rest : text) (d k : Z) :
  nested w → 0 < d →
  count_braces (w ++ rest) d k = count_braces rest d (k + len w).
Proof.
  intros Hw. revert rest d k.
  induction Hw as [|c w Ho Hc _ IH|w1 w2 _ IH1 _ IH2]; intros rest d k Hd.
  - simpl app. unfold len. simpl. by rewrite Z.add_0_r.
  - simpl app. rewrite count_braces_cons by done.
    rewrite !bool_decide_eq_false_2 by done. rewrite IH by done.
    f_equal. unfold len. simpl length. lia.
  - simpl app. rewrite count_braces_cons by done.
    rewrite bool_decide_eq_true_2 by done.
    rewrite <- (assoc_L (++)). rewrite IH1 by lia.
    simpl app. rewrite count_braces_cons by lia.
    rewrite bool_decide_eq_false_2 by done.
    rewrite bool_decide_eq_true_2 by done.
    replace (d + 1 - 1) with d by lia. rewrite IH2 by done.
    f_equal. unfold len. simpl length. rewrite length_app. simpl length. lia.
Qed.

Lemma count_braces_object (o rest : text) (k : Z) :
  object o →
  count_braces (tail o ++ rest) 1 k = (0, k + len o - 1).
Proof.
  intros (w & -> & Hw). simpl tail. rewrite <- (assoc_L (++)).
  rewrite count_braces_nested by (done || lia).
  simpl app. rewrite count_braces_cons by lia.
  rewrite bool_decide_eq_false_2 by done.
  rewrite bool_decide_eq_true_2 by done.
  rewrite count_braces_done by lia. f_equal.
  unfold len. simpl length. rewrite length_app. simpl length. lia.
Qed.

Lemma count_braces_unclosed (w : text) (d k : Z) :
  unclosed w → 0 < d → 0 < (count_braces w d k).1.
Proof.
  intros Hw. revert d k. induction Hw as [w Hw|w1 w2 Hw1 _ IH]; intros d k Hd.
  - rewrite <- (app_nil_r w). rewrite count_braces_nested by done.
    by rewrite count_braces_nil.
  - rewrite count_braces_nested by done.
    rewrite count_braces_cons by done.
    rewrite bool_decide_eq_true_2 by done. apply IH. lia.
Qed.

Lemma find_at_unfold (s sub : text) (i : Z) :
  find_at s sub i =
    if startswith s sub then i
    else match s with [] => -1 | _ :: s' => find_at s' sub (i + 1) end.
Proof. by destruct s. Qed.

Lemma find_at_first_marker (c : N) (m pre rest : text) (i : Z) :
  c ∉ pre →
  find_at (pre ++ (c :: m) ++ rest) (c :: m) i = i + len pre.
Proof.
  revert i. induction pre as [|d pre IH]; intros i Hc.
  - rewrite find_at_unfold.
    rewrite (proj2 (startswith_true _ (c :: m))) by by exists rest.
    unfold len. simpl. lia.
  - rewrite find_at_unfold. simpl app. rewrite startswith_cons.
    rewrite bool_decide_eq_false_2 by (intros ->; set_solver).
    simpl andb. cbv iota. rewrite IH by set_solver.
    unfold len. simpl length. lia.
Qed.

Lemma object_head (o : text) : object o → ∃ w, o = 123%N :: w.
Proof. intros (w & -> & _). by eexists. Qed.

Lemma object_length (o : text) : object o → (2 ≤ length o)%nat.
Proof. intros (w & -> & _). simpl. rewrite length_app. simpl. lia. Qed.

Lemma find_next_object (a sep left_ : text) :
  123%N ∉ sep →
  (left_ = [] ∨ ∃ w, left_ = 123%N :: w) →
  find (a ++ sep ++ left_) open_brace (len a) = next_start (a ++ sep) left_.
Proof.
  intros Hsep Hleft. unfold len.
  rewrite find_from by (rewrite length_app; lia).
  rewrite drop_app_length.
  unfold open_brace. change (codes "{") with [123%N].
  destruct Hleft as [->|[w ->]].
  - rewrite app_nil_r. by rewrite find_at_char_absent.
  - rewrite find_at_char_first by done. simpl.
    rewrite len_app. unfold len. lia.
Qed.

Lemma flat_cons (o sep : text) (items : list (text * text)) :
  flat ((o, sep) :: items) = o ++ sep ++ flat items.
Proof. unfold flat. simpl. by rewrite <- (assoc_L (++)). Qed.

Lemma flat_truncated_head (items : list (text * text)) (cut : text) :
  Forall (λ os, object os.1 ∧ 123%N ∉ os.2) items → truncated cut →
  flat items ++ cut = [] ∨ ∃ w, flat items ++ cut = 123%N :: w.
Proof.
  intros Hitems Htail. destruct Hitems as [|[o sep] items [Ho _] _].
  - destruct Htail as [->|(w & -> & _)]; [by left|right; by eexists].
  - right. destruct (object_head o Ho) as [w ->]. rewrite flat_cons.
    by eexists.
Qed.

(** The outer loop on a text made of complete objects, separated by
    texts without opening brace, and cut off after the last of them. *)
Lemma salvage_loop_items {A} (loads : text → option A) (fuel : nat)
    (a : text) (items : list (text * text)) (cut : text) (acc : list A) :
  Forall (λ os, object os.1 ∧ 123%N ∉ os.2) items →
  truncated cut →
  (length items < fuel)%nat →
  salvage_loop loads fuel (a ++ flat items ++ cut)
    (next_start a (flat items ++ cut)) acc
  = Some (acc ++ omap loads items.*1).
Proof.
  revert fuel a acc.
  induction items as [|[o sep] items IH]; intros fuel a acc Hitems Htail Hfuel.
  - simpl. rewrite app_nil_r. unfold flat. simpl.
    destruct Htail as [->|(w & -> & Hw)]; [by destruct fuel|].
    destruct fuel as [|fuel]; [lia|]. simpl next_start.
    cbn [salvage_loop].
    pose proof (len_nonneg a).
    rewrite (proj2 (Z.eqb_neq _ _)) by lia.
    replace (len a + 1) with (Z.of_nat (length (a ++ [123%N])))
      by (unfold len; rewrite length_app; simpl; lia).
    rewrite slice_from.
    replace (a ++ 123%N :: w) with ((a ++ [123%N]) ++ w)
      by by rewrite <- (assoc_L (++)).
    rewrite drop_app_length.
    pose proof (count_braces_unclosed w 1
                  (Z.of_nat (length (a ++ [123%N]))) Hw) as Hpos.
    destruct (count_braces _ _ _) as [bc pe]. simpl in Hpos.
    by rewrite (proj2 (Z.eqb_neq bc 0)) by lia.
  - apply Forall_cons in Hitems as [[Ho Hsep] Hitems]. simpl in Ho, Hsep.
    destruct fuel as [|fuel]; [simpl in Hfuel; lia|].
    destruct (object_head o Ho) as [w Hw].
    rewrite flat_cons. rewrite <- !(assoc_L (++)).
    assert (Hstart : next_start a (o ++ sep ++ flat items ++ cut) = len a).
    { by rewrite Hw. }
    rewrite Hstart. cbn [salvage_loop].
    pose proof (len_nonneg a).
    rewrite (proj2 (Z.eqb_neq _ _)) by lia.
    replace (len a + 1) with (Z.of_nat (S (length a))) by (unfold len; lia).
    rewrite slice_from.
    assert (Hdrop : drop (S (length a)) (a ++ o ++ sep ++ flat items ++ cut)
                    = tail o ++ sep ++ flat items ++ cut).
    { rewrite Hw. simpl tail.
      replace (a ++ (123%N :: w) ++ sep ++ flat items ++ cut)
        with ((a ++ [123%N]) ++ w ++ sep ++ flat items ++ cut)
        by (rewrite <- (assoc_L (++)); done).
      replace (S (length a)) with (length (a ++ [123%N]))
        by (rewrite length_app; simpl; lia).
      by rewrite drop_app_length. }
    rewrite Hdrop, count_braces_object by done.
    cbv beta iota. rewrite Z.eqb_refl.
    pose proof (object_length o Ho).
    replace (Z.of_nat (S (length a)) + len o - 1)
      with (Z.of_nat (length (a ++ o)))
      by (unfold len; rewrite length_app; lia).
    unfold len at 1. rewrite slice_between.
    assert (Hcand : take (length (a ++ o) - length a)
                      (drop (length a)
                         (take (length (a ++ o))
                            (a ++ o ++ sep ++ flat items ++ cut))) = o).
    { rewrite (assoc_L (++) a o), take_app_length, drop_app_length.
      apply take_ge. rewrite length_app. lia. }
    rewrite Hcand.
    fold (len (a ++ o)).
    rewrite (assoc_L (++) a o).
    rewrite find_next_object;
      [|done|by apply flat_truncated_head].
    rewrite !(assoc_L (++)).
    rewrite <- (assoc_L (++) ((a ++ o) ++ sep)).
    rewrite IH by (done || simpl in Hfuel; lia).
    simpl. destruct (loads o); simpl; [|done].
    by rewrite <- (assoc_L (++)).
Qed.

Lemma options_marker_eq :
  options_marker = 34%N :: (options_key ++ [34%N] ++ codes ": [").
Proof. done. Qed.

(** From an answer that is cut off inside the list of options, the
    salvage loop recovers every option that is complete: the objects
    that precede the cut are handed to the parser, in their order, and
    what follows the last of them is left out. *)
Lemma salvage_recovers_complete_objects {A} (loads : text → option A)
    (head_ sep0 : text) (items : list (text * text)) (cut : text) :
  34%N ∉ head_ →
  123%N ∉ sep0 →
  Forall (λ os, object os.1 ∧ 123%N ∉ os.2) items →
  truncated cut →
  salvage loads (head_ ++ options_marker ++ sep0 ++ flat items ++ cut)
  = Some (omap loads items.*1).
Proof.
  intros Hhead Hsep Hitems Hcut. unfold salvage.
  rewrite find_from_0, options_marker_eq.
  rewrite find_at_first_marker by done. rewrite <- options_marker_eq.
  rewrite Z.add_0_l, <- len_app.
  replace (head_ ++ options_marker ++ sep0 ++ flat items ++ cut)
    with ((head_ ++ options_marker) ++ sep0 ++ flat items ++ cut)
    by by rewrite <- (assoc_L (++)).
  rewrite find_next_object; [|done|by apply flat_truncated_head].
  rewrite (assoc_L (++) _ sep0).
  rewrite salvage_loop_items; [done..|].
  rewrite !length_app.
  assert (length items ≤ length (flat items))%nat.
  { clear -Hitems. induction Hitems as [|[o sep] items [Ho _] _ IH]; [done|].
    rewrite flat_cons, !length_app. simpl.
    pose proof (object_length o Ho). simpl in *. lia. }
  assert (0 < length options_marker)%nat by (vm_compute; lia).
  lia.
Qed.

(* ================================================================== *)
(** * The salvage loop on any text *)

Lemma count_braces_range (rest : text) (d k : Z) :
  k ≤ (count_braces rest d k).2 ≤ k + len rest.
Proof.
  revert d k. induction rest as [|c rest IH]; intros d k.
  - rewrite count_braces_nil. unfold len. simpl. lia.
  - destruct (decide (0 < d)) as [Hd|Hd].
    + rewrite count_braces_cons by done.
      match goal with |- context [count_braces rest ?d' ?k'] =>
        specialize (IH d' k') end.
      unfold len in *. simpl length. lia.
    + rewrite count_braces_done by lia. unfold len. simpl. lia.
Qed.

Lemma closes_char (c : N) (w : text) (d : nat) :
  c ≠ 123%N → c ≠ 125%N → closes d w → closes d (c :: w).
Proof.
  intros Ho Hc. destruct d as [|d]; [done|].
  intros (n & rest & -> & Hn & Hrest).
  exists (c :: n), rest. split; [done|]. split; [|done].
  by apply nested_char.
Qed.

Lemma closes_open (w : text) (d : nat) :
  closes (S (S d)) w → closes (S d) (123%N :: w).
Proof.
  intros (n & rest & -> & Hn & n' & rest' & -> & Hn' & Hrest').
  exists (123%N :: n ++ 125%N :: n'), rest'. split.
  - simpl. by rewrite <- (assoc_L (++)).
  - split; [|done]. by apply nested_group.
Qed.

Lemma closes_close (w : text) (d : nat) :
  closes (S d) w → closes (S (S d)) (125%N :: w).
Proof. intros Hw. exists [], w. split; [done|]. split; [apply nested_nil|done]. Qed.

Lemma closes_last : closes 1 [125%N].
Proof. exists [], []. split; [done|]. split; [apply nested_nil|done]. Qed.

(** When the inner loop ends with a count of 0, what it has read closes
    the braces that were open. *)
Lemma count_braces_closes (rest : text) (d : nat) (k : Z) :
  (0 < d)%nat →
  (count_braces rest (Z.of_nat d) k).1 = 0 →
  ∃ w rest', rest = w ++ rest'
             ∧ (count_braces rest (Z.of_nat d) k).2 = k + len w
             ∧ closes d w.
Proof.
  revert d k. induction rest as [|c rest IH]; intros d k Hd.
  - rewrite count_braces_nil. simpl. lia.
  - rewrite count_braces_cons by lia.
    destruct (decide (c = 123%N)) as [->|Ho].
    + rewrite bool_decide_eq_true_2 by done.
      replace (Z.of_nat d + 1) with (Z.of_nat (S d)) by lia.
      intros Hzero.
      destruct (IH (S d) (k + 1) ltac:(lia) Hzero) as (w & rest' & -> & -> & Hw).
      exists (123%N :: w), rest'. split; [done|]. split.
      * unfold len. simpl length. lia.
      * destruct d as [|d]; [lia|]. by apply closes_open.
    + rewrite (bool_decide_eq_false_2 (c = 123%N)) by done.
      destruct (decide (c = 125%N)) as [->|Hc].
      * rewrite bool_decide_eq_true_2 by done.
        destruct d as [|[|d]]; [lia| |].
        -- change (Z.of_nat 1 - 1) with 0.
           rewrite count_braces_done by lia. intros _.
           exists [125%N], rest. split; [done|]. split; [|apply closes_last].
           simpl. unfold len. simpl. lia.
        -- replace (Z.of_nat (S (S d)) - 1) with (Z.of_nat (S d)) by lia.
           intros Hzero.
           destruct (IH (S d) (k + 1) ltac:(lia) Hzero)
             as (w & rest' & -> & -> & Hw).
           exists (125%N :: w), rest'. split; [done|]. split.
           ++ unfold len. simpl length. lia.
           ++ by apply closes_close.
      * rewrite bool_decide_eq_false_2 by done. intros Hzero.
        destruct (IH d (k + 1) Hd Hzero) as (w & rest' & -> & -> & Hw).
        exists (c :: w), rest'. split; [done|]. split.
        -- unfold len. simpl length. lia.
        -- by apply closes_char.
Qed.

(** What [find] returns for one character, from a start that is not
    negative: -1, or an index from the start on at which the character
    stands. *)
Lemma find_char_range (s : text) (c : N) (start : Z) :
  0 ≤ start →
  find s [c] start = -1
  ∨ (start ≤ find s [c] start < len s
     ∧ s !! Z.to_nat (find s [c] start) = Some c).
Proof.
  intros Hstart. unfold find.
  destruct (len s <? start) eqn:Hlen; [by left|].
  apply Z.ltb_ge in Hlen. unfold slice_index.
  rewrite (proj2 (Z.ltb_ge start 0)) by lia. rewrite Z.min_l by lia.
  destruct (decide (c ∈ drop (Z.to_nat start) s)) as [Hin|Hout].
  - right. apply list_elem_of_split_l in Hin as (pre & rest & Hdrop & Hpre).
    rewrite Hdrop, find_at_char_first by done.
    assert (Hs : s = take (Z.to_nat start) s ++ pre ++ c :: rest).
    { by rewrite <- Hdrop, take_drop. }
    assert (Hl : length (take (Z.to_nat start) s) = Z.to_nat start).
    { rewrite length_take. unfold len in Hlen. lia. }
    split.
    + pose proof (f_equal length Hs) as Hlens.
      rewrite !length_app in Hlens. simpl length in Hlens.
      unfold len in *. lia.
    + rewrite Hs at 1. rewrite (assoc_L (++)).
      apply list_lookup_middle. rewrite length_app. unfold len. lia.
  - left. by apply find_at_char_absent.
Qed.

Lemma closes_one_object (w : text) : closes 1 w → object (123%N :: w).
Proof. intros (n & rest & -> & Hn & ->). by exists n. Qed.

Lemma salvage_loop_sound {A} (loads : text → option A) (fuel : nat)
    (json_text : text) (option_start : Z) (acc : list A) :
  option_start = -1
  ∨ (0 ≤ option_start
     ∧ json_text !! Z.to_nat option_start = Some 123%N
     ∧ len json_text - option_start ≤ Z.of_nat fuel) →
  ∃ candidates,
    Forall object candidates
    ∧ salvage_loop loads fuel json_text option_start acc
      = Some (acc ++ omap loads candidates).
Proof.
  revert option_start acc.
  induction fuel as [|fuel IH]; intros option_start acc Hstart.
  - destruct Hstart as [->|(H0 & Hlook & Hfuel)].
    + exists []. split; [apply Forall_nil_2|]. simpl. by rewrite app_nil_r.
    + apply lookup_lt_Some in Hlook. unfold len in Hfuel. lia.
  - destruct Hstart as [->|(H0 & Hlook & Hfuel)].
    { exists []. split; [apply Forall_nil_2|]. simpl. by rewrite app_nil_r. }
    cbn [salvage_loop]. rewrite (proj2 (Z.eqb_neq _ _)) by lia.
    pose proof (lookup_lt_Some _ _ _ Hlook) as Hlt.
    pose proof (take_drop_middle _ _ _ Hlook) as Hsplit.
    set (a := take (Z.to_nat option_start) json_text) in *.
    set (r := drop (S (Z.to_nat option_start)) json_text) in *.
    assert (Ha : length a = Z.to_nat option_start).
    { unfold a. rewrite length_take. lia. }
    replace (option_start + 1) with (Z.of_nat (S (Z.to_nat option_start)))
      by lia.
    rewrite slice_from. fold r.
    pose proof (count_braces_range r 1 (Z.of_nat (S (Z.to_nat option_start))))
      as Hrange.
    pose proof (count_braces_closes r 1 (Z.of_nat (S (Z.to_nat option_start))))
      as Hcloses.
    change (Z.of_nat 1) with 1 in Hcloses.
    destruct (count_braces r 1 _) as [bc pe]. simpl in Hrange, Hcloses.
    destruct (bc =? 0) eqn:Hbc.
    2:{ exists []. split; [apply Forall_nil_2|]. simpl. by rewrite app_nil_r. }
    apply Z.eqb_eq in Hbc.
    destruct (Hcloses ltac:(lia) Hbc) as (w & rest' & Hr & Hpe & Hw).
    assert (Hlen : len json_text = option_start + 1 + len r).
    { rewrite <- Hsplit. unfold len. rewrite length_app. simpl length. lia. }
    assert (Hcand : slice json_text (Some option_start) (Some pe)
                    = 123%N :: w).
    { replace option_start with (Z.of_nat (length a)) by lia.
      replace pe with (Z.of_nat (length (a ++ 123%N :: w)))
        by (rewrite length_app; simpl length; unfold len in Hpe; lia).
      rewrite slice_between. rewrite <- Hsplit, Hr.
      replace (a ++ 123%N :: w ++ rest') with ((a ++ 123%N :: w) ++ rest')
        by by rewrite <- (assoc_L (++)).
      rewrite take_app_length, drop_app_length.
      apply take_ge. rewrite length_app. lia. }
    rewrite Hcand.
    destruct (find_char_range json_text 123%N pe ltac:(lia))
      as [Hnext|(Hnext & Hlook')].
    + unfold open_brace. change (codes "{") with [123%N]. rewrite Hnext.
      exists [123%N :: w]. split.
      * apply Forall_singleton. by apply closes_one_object.
      * destruct fuel; simpl; destruct (loads _); simpl; try done;
          by rewrite app_nil_r.
    + unfold open_brace. change (codes "{") with [123%N].
      match goal with
      | |- context [salvage_loop loads fuel json_text ?next ?acc'] =>
          destruct (IH next acc') as (candidates & Hobj & ->)
      end.
      { right. split; [lia|]. split; [done|]. lia. }
      exists ((123%N :: w) :: candidates). split.
      * apply Forall_cons_2; [by apply closes_one_object|done].
      * simpl. destruct (loads _); [|done]. by rewrite <- (assoc_L (++)).
Qed.

Lemma find_at_ge (s sub : text) (i : Z) : -1 ≤ i → -1 ≤ find_at s sub i.
Proof.
  revert i. induction s as [|c s IH]; intros i Hi; rewrite find_at_unfold;
    destruct (startswith _ _); try lia.
  apply IH. lia.
Qed.

(** X17.  The salvage loop ends within the iterations it is allotted, the
    length of the text, and what it hands to the parser are complete
    objects only: texts with matched braces between an opening and a
    closing brace. *)
Theorem salvage_reads_complete_objects_only {A} (loads : text → option A)
    (json_text : text) :
  ∃ candidates,
    Forall object candidates
    ∧ salvage loads json_text = Some (omap loads candidates).
Proof.
  unfold salvage.
  set (options_start := find json_text options_marker 0 + len options_marker).
  assert (Hstart : 0 ≤ options_start).
  { unfold options_start. rewrite find_from_0.
    pose proof (find_at_ge json_text options_marker 0 ltac:(lia)).
    assert (len options_marker = 23) by done. lia. }
  destruct (salvage_loop_sound loads (length json_text) json_text
              (find json_text open_brace options_start) [])
    as (candidates & Hobj & Hloop); [|by exists candidates].
  unfold open_brace. change (codes "{") with [123%N].
  destruct (find_char_range json_text 123%N options_start Hstart)
    as [->|([Hlo Hhi] & Hlook)]; [by left|].
  right. split; [lia|]. split; [done|]. unfold len in *. lia.
Qed.

(* ================================================================== *)
(** * Reading the automation options *)

Section OptionsReaderProperties.

Context {json_parser : JsonParser}.

Lemma json_get_singleton (key : text) (v : json) :
  json_get [(key, v)] key = Some v.
Proof. unfold json_get. simpl. by rewrite decide_True. Qed.

Lemma strip_code_fence_object (mid : text) :
  strip_code_fence (123%N :: mid ++ [125%N]) = 123%N :: mid ++ [125%N].
Proof.
  unfold strip_code_fence.
  assert (Hstrip : strip (123%N :: mid ++ [125%N]) = 123%N :: mid ++ [125%N]).
  { apply strip_fixed.
    - by intros c [= <-].
    - intros c.
      change (last ((123%N :: mid) ++ [125%N]) = Some c → is_space c = false).
      rewrite last_snoc. by intros [= <-]. }
  rewrite Hstrip.
  assert (Hfence : ∀ p, startswith (123%N :: mid ++ [125%N]) (96%N :: p)
                        = false).
  { intros p. by rewrite startswith_cons. }
  unfold json_fence, fence.
  change (codes "```json") with (96%N :: codes "``json").
  change (codes "```") with (96%N :: codes "``").
  by rewrite !Hfence.
Qed.

(** X15.  An answer that wraps a document in explanations, code fences or
    white space is read like the document itself: when the text between
    the first opening and the last closing brace parses as an object
    whose "automation_options" are a list, that list is what
    [perform_full_analysis] reads from the response that
    [generate_text_analysis] returns. *)
Theorem wrapped_answer_is_read (pre mid post : text)
    (members : list (text * json)) (options : list json) :
  123%N ∉ pre → 125%N ∉ post →
  json_loads (123%N :: mid ++ [125%N]) = Some (JObject members) →
  json_get members options_key = Some (JArray options) →
  read_automation_options
    (cleaned_response (pre ++ 123%N :: mid ++ 125%N :: post))
  = options.
Proof.
  intros Hpre Hpost Hloads Hget.
  rewrite (cleaned_response_around mid).
  2:{ exists pre, post. split; [|done]. simpl. by rewrite <- (assoc_L (++)). }
  unfold read_automation_options. cbn [text_truthy].
  rewrite strip_code_fence_object.
  assert (Hstrip : strip (123%N :: mid ++ [125%N]) = 123%N :: mid ++ [125%N]).
  { apply strip_fixed.
    - by intros c [= <-].
    - intros c.
      change (last ((123%N :: mid) ++ [125%N]) = Some c → is_space c = false).
      rewrite last_snoc. by intros [= <-]. }
  by rewrite Hstrip, Hloads, Hget.
Qed.

(** X16.  An answer that is cut off inside the list of options does not parse
    as a whole; the options that are complete are read all the same:
    the objects that precede the cut are parsed one by one, in their
    order, and those that parse are the options. *)
Theorem truncated_answer_keeps_complete_options (options_text : text)
    (head_ sep0 : text) (items : list (text * text)) (cut : text) :
  options_text ≠ [] →
  strip_code_fence options_text
    = head_ ++ options_marker ++ sep0 ++ flat items ++ cut →
  json_loads (strip (strip_code_fence options_text)) = None →
  34%N ∉ head_ →
  123%N ∉ sep0 →
  Forall (λ os, object os.1 ∧ 123%N ∉ os.2) items →
  truncated cut →
  read_automation_options options_text = omap json_loads items.*1.
Proof.
  intros Hne Hfence Hloads Hhead Hsep Hitems Hcut.
  unfold read_automation_options.
  destruct options_text as [|c options_text]; [done|]. cbn [text_truthy].
  rewrite Hloads, Hfence.
  assert (Hin : text_in options_marker
                  (head_ ++ options_marker ++ sep0 ++ flat items ++ cut)
                = true).
  { unfold text_in. rewrite find_from_0, options_marker_eq.
    rewrite find_at_first_marker by done.
    pose proof (len_nonneg head_). by rewrite (proj2 (Z.eqb_neq _ _)) by lia. }
  rewrite Hin, salvage_recovers_complete_objects by done. simpl.
  case_bool_decide; by rewrite json_get_singleton.
Qed.

End OptionsReaderProperties.

Lemma wrapped_answer_is_read_witness :
  @read_automation_options brace_documents
    (cleaned_response (codes "Sure: ```json {x: {y}} ``` Done."))
  = [JString (codes "{x: {y}}")].
Proof.
  apply (@wrapped_answer_is_read brace_documents (codes "Sure: ```json ")
           (codes "x: {y}") (codes " ``` Done.")
           [(options_key, JArray [JString (codes "{x: {y}}")])]).
  - by_compute.
  - by_compute.
  - vm_compute. reflexivity.
  - vm_compute. reflexivity.
Defined.

(** Two complete options and the beginning of a third. *)
Lemma truncated_answer_keeps_complete_options_witness :
  @read_automation_options brace_documents
    (codes "{" ++ options_marker ++ codes " {a{b}c}, {d}, {e{f}")
  = omap (@json_loads brace_documents) [codes "{a{b}c}"; codes "{d}"].
Proof.
  apply (@truncated_answer_keeps_complete_options brace_documents
           (codes "{" ++ options_marker ++ codes " {a{b}c}, {d}, {e{f}")
           (codes "{") (codes " ")
           [(codes "{a{b}c}", codes ", "); (codes "{d}", codes ", ")]
           (codes "{e{f}")).
  - by_compute.
  - by_compute.
  - vm_compute. reflexivity.
  - by_compute.
  - by_compute.
  - apply Forall_cons_2; [split; [|by_compute]|].
    { exists (codes "a{b}c"). split; [done|]. vm_compute.
      apply nested_char; [done|done|].
      apply (nested_group [98%N] [99%N]);
        (apply nested_char; [done|done|apply nested_nil]). }
    apply Forall_cons_2; [split; [|by_compute]|apply Forall_nil_2].
    exists (codes "d"). split; [done|]. vm_compute.
    apply nested_char; [done|done|apply nested_nil].
  - right. exists (codes "e{f}"). split; [done|]. vm_compute.
    apply unclosed_nested. apply nested_char; [done|done|].
    apply (nested_group [102%N] []); [|apply nested_nil].
    apply nested_char; [done|done|apply nested_nil].
Defined.

(* ================================================================== *)
(** * [analyze_video_process]: the text handed to the parser *)

Lemma split_from_nonempty (s sep : text) (skip : nat) (piece : text) :
  (0 < length (split_from s sep skip piece))%nat.
Proof.
  revert skip piece. induction s as [|c s IH]; intros skip piece; simpl.
  - lia.
  - destruct skip; [|apply IH].
    destruct (startswith _ _); [simpl; lia|apply IH].
Qed.

Lemma split_from_skip (x rest sep piece : text) :
  split_from (x ++ rest) sep (length x) piece = split_from rest sep 0 piece.
Proof. induction x as [|c x IH]; [done|]. simpl. apply IH. Qed.

Lemma split_from_unfold (c : N) (s sep piece : text) :
  split_from (c :: s) sep 0 piece =
    if startswith (c :: s) sep
    then reverse piece :: split_from s sep (length sep - 1) []
    else split_from s sep 0 (c :: piece).
Proof. done. Qed.

(** A text in which the separator does not occur is one piece. *)
Lemma split_from_no_occurrence (s sep piece : text) :
  (∀ k, startswith (drop k s) sep = false) →
  split_from s sep 0 piece = [reverse piece ++ s].
Proof.
  revert piece. induction s as [|c s IH]; intros piece Hno.
  - simpl. by rewrite app_nil_r.
  - rewrite split_from_unfold.
    pose proof (Hno 0%nat) as H0. rewrite drop_0 in H0. rewrite H0.
    rewrite IH by (intros k; apply (Hno (S k))).
    by rewrite reverse_cons, <- (assoc_L (++)).
Qed.

Lemma no_occurrence_without_first (c : N) (m s : text) :
  c ∉ s → ∀ k, startswith (drop k s) (c :: m) = false.
Proof.
  intros Hc k. destruct (drop k s) as [|d r] eqn:Hdrop.
  - apply startswith_nil_l.
  - rewrite startswith_cons.
    rewrite bool_decide_eq_false_2; [done|]. intros ->. apply Hc.
    apply (elem_of_sublist (drop k s)); [|apply sublist_drop].
    rewrite Hdrop. by left.
Qed.

Lemma split_from_first (c : N) (m a rest piece : text) :
  c ∉ a →
  split_from (a ++ (c :: m) ++ rest) (c :: m) 0 piece
  = (reverse piece ++ a) :: split_from rest (c :: m) 0 [].
Proof.
  revert piece. induction a as [|d a IH]; intros piece Hc.
  - rewrite app_nil_r. simpl app. rewrite split_from_unfold.
    rewrite (proj2 (startswith_true (c :: m ++ rest) (c :: m)))
      by by exists rest.
    replace (length (c :: m) - 1)%nat with (length m) by (simpl; lia).
    by rewrite split_from_skip.
  - simpl app. rewrite split_from_unfold, startswith_cons.
    rewrite bool_decide_eq_false_2 by (intros ->; set_solver).
    simpl andb. cbv iota. rewrite IH by set_solver.
    by rewrite reverse_cons, <- (assoc_L (++)).
Qed.

(** X18.  The [IndexError] the function provides for cannot occur: the text
    handed to the parser is always defined. *)
Theorem video_json_text_defined (response_text : text) :
  is_Some (video_json_text response_text).
Proof.
  unfold video_json_text.
  destruct (1 <? len _) eqn:Hlen; [|by eexists].
  apply Z.ltb_lt in Hlen. unfold len in Hlen.
  destruct (split (strip response_text) json_fence !! 1%nat) as [piece|] eqn:Hp.
  2:{ apply lookup_ge_None in Hp. lia. }
  simpl.
  pose proof (split_from_nonempty piece fence 0 []) as Hne.
  unfold split.
  destruct (split_from piece fence 0 []) as [|first l]; [simpl in Hne; lia|].
  simpl. by eexists.
Qed.

Lemma startswith_without_first (c : N) (m s : text) :
  c ∉ s → startswith s (c :: m) = false.
Proof. intros Hc. apply (no_occurrence_without_first c m s Hc 0). Qed.

Lemma no_json_fence (body q : text) :
  96%N ∉ body → 96%N ∉ q → startswith q (codes "json") = false →
  ∀ k, startswith (drop k (body ++ fence ++ q)) json_fence = false.
Proof.
  intros Hbody Hq Hjson k.
  unfold json_fence.
  change (codes "```json") with (96%N :: 96%N :: 96%N :: codes "json").
  rewrite drop_app.
  destruct (drop k body) as [|d r] eqn:Hdrop.
  - simpl app. unfold fence. change (codes "```") with [96; 96; 96]%N.
    destruct (k - length body)%nat as [|[|[|j]]]; simpl drop.
    + by rewrite !startswith_cons, Hjson.
    + rewrite !startswith_cons. simpl.
      by apply startswith_without_first.
    + rewrite !startswith_cons. simpl.
      by apply startswith_without_first.
    + by apply no_occurrence_without_first.
  - simpl app. rewrite startswith_cons.
    rewrite bool_decide_eq_false_2; [done|]. intros ->. apply Hbody.
    apply (elem_of_sublist (drop k body)); [|apply sublist_drop].
    rewrite Hdrop. by left.
Qed.

Lemma lstrip_elem_of (s : text) (c : N) : c ∈ lstrip s → c ∈ s.
Proof.
  destruct (lstrip_decompose s) as (pre & Hs & _). rewrite Hs at 2. set_solver.
Qed.

Lemma rstrip_elem_of (s : text) (c : N) : c ∈ rstrip s → c ∈ s.
Proof.
  destruct (rstrip_decompose s) as (post & Hs & _). rewrite Hs at 2. set_solver.
Qed.

Lemma video_json_text_fenced (pre body post : text) :
  96%N ∉ pre → 96%N ∉ body → 96%N ∉ post →
  video_json_text (pre ++ json_fence ++ body ++ fence ++ post)
  = Some (strip body).
Proof.
  intros Hpre Hbody Hpost. unfold video_json_text.
  assert (Hstrip : strip (pre ++ json_fence ++ body ++ fence ++ post)
                   = lstrip pre ++ json_fence ++ body ++ fence ++ rstrip post).
  { replace (pre ++ json_fence ++ body ++ fence ++ post)
      with (pre ++ 96%N :: (codes "``json" ++ body ++ codes "``")
                ++ 96%N :: post).
    - rewrite strip_around by done. f_equal. unfold json_fence, fence.
      simpl. rewrite <- !(assoc_L (++)). done.
    - unfold json_fence, fence. simpl. rewrite <- !(assoc_L (++)). done. }
  assert (Hp : 96%N ∉ lstrip pre) by (intros ?%lstrip_elem_of; done).
  assert (Hq : 96%N ∉ rstrip post) by (intros ?%rstrip_elem_of; done).
  set (p := lstrip pre) in *. set (q := rstrip post) in *.
  assert (Hfirst : split (p ++ json_fence ++ body ++ fence ++ q) json_fence
                   = p :: split (body ++ fence ++ q) json_fence).
  { unfold split, json_fence.
    change (codes "```json") with (96%N :: codes "``json").
    by rewrite split_from_first. }
  assert (Hpiece : ∃ l, split (body ++ fence ++ q) json_fence
                        = body :: l
                        ∨ split (body ++ fence ++ q) json_fence
                          = [body ++ fence ++ q]).
  { destruct (startswith q (codes "json")) eqn:Hjson.
    - apply startswith_true in Hjson as [q' ->].
      exists (split q' json_fence). left. unfold split.
      replace (body ++ fence ++ codes "json" ++ q')
        with (body ++ (96%N :: codes "``json") ++ q') by done.
      unfold json_fence. change (codes "```json") with (96%N :: codes "``json").
      by rewrite split_from_first.
    - exists []. right. unfold split.
      by rewrite split_from_no_occurrence by by apply no_json_fence. }
  assert (Hbody' : split body fence = [body]).
  { unfold split, fence. change (codes "```") with (96%N :: codes "``").
    by rewrite split_from_no_occurrence
      by by apply no_occurrence_without_first. }
  assert (Hrest : split (body ++ fence ++ q) fence = body :: split q fence).
  { unfold split, fence. change (codes "```") with (96%N :: codes "``").
    by rewrite split_from_first. }
  cbv zeta. rewrite Hstrip, Hfirst.
  destruct Hpiece as [l [Hl|Hl]]; rewrite Hl.
  - unfold len. cbn [length].
    rewrite (proj2 (Z.ltb_lt _ _)) by lia.
    change ((p :: body :: l) !! 1%nat) with (Some body).
    cbn [mbind option_bind]. by rewrite Hbody'.
  - unfold len. cbn [length].
    rewrite (proj2 (Z.ltb_lt _ _)) by lia.
    change ([p; body ++ fence ++ q] !! 1%nat) with (Some (body ++ fence ++ q)).
    cbn [mbind option_bind]. by rewrite Hrest.
Qed.

Section VideoTasks.

Context {json_parser : JsonParser}.

(** X19.  For a response that holds one fenced block, after the marker
    [```json] and before the closing fence, and no backtick elsewhere,
    [analyze_video_process] returns what the parser makes of the block
    without the white space around it (and [None] when the parser
    raises). *)
Theorem fenced_video_answer_is_parsed (generate_content : text → option text)
    (video_uri pre body post : text) :
  startswith video_uri (codes "gs://") = true →
  generate_content video_uri
    = Some (pre ++ json_fence ++ body ++ fence ++ post) →
  96%N ∉ pre → 96%N ∉ body → 96%N ∉ post →
  video_tasks generate_content video_uri
  = default JNull (json_loads (strip body)).
Proof.
  intros Huri Hresp Hpre Hbody Hpost. unfold video_tasks.
  rewrite Huri, Hresp.
  assert (text_truthy video_uri = true) as ->.
  { apply startswith_true in Huri as [rest ->]. done. }
  cbn [negb orb]. by rewrite video_json_text_fenced.
Qed.

End VideoTasks.

Lemma fenced_video_answer_is_parsed_witness :
  @video_tasks brace_documents
    (λ _, Some (codes "Tasks: ```json {x} ``` end")) (codes "gs://b/v.mp4")
  = default JNull (@json_loads brace_documents (strip (codes " {x} "))).
Proof.
  apply (@fenced_video_answer_is_parsed brace_documents
           (λ _, Some (codes "Tasks: ```json {x} ``` end"))
           (codes "gs://b/v.mp4") (codes "Tasks: ") (codes " {x} ")
           (codes " end")).
  - by_compute.
  - reflexivity.
  - by_compute.
  - by_compute.
  - by_compute.
Defined.

(* ================================================================== *)
(** * The analysis with the catalog of [urdf_service] *)

Section CatalogProperties.

Context {float_parser : FloatParser}.



(** X21.  Without a readable metadata file every robot of the catalog lacks
    its operating cost: every robot cost of a complete result is "N/A"
    and no option is recommended. *)
Theorem no_metadata_no_recommendation (a : assets) (env : collaborators)
    video_uri OH T H G d :
  (perform_full_analysis (with_catalog a env) video_uri OH T H G).2 = Ok d →
  complete d →
  metadata_path a = MetadataNotFound ∨ metadata_path a = MetadataDecodeError →
  (∀ e rc, e ∈ cost_benefit_in d → rc ∈ robot_cost_comparison e →
     robot_effective_cost_per_human_min rc = NA ∧ is_cheaper rc = NA)
  ∧ ∃ rec, recommendation_in d = Some rec
      ∧ (recommended_option_id rec = None
         ∨ recommended_option_id rec = Some "No_Automation").
Proof.
  intros Hrun Hd Hmeta.
  destruct (perform_full_analysis _ _ _ _ _ _) as [calls res] eqn:Hpfa.
  simpl in Hrun. subst res.
  destruct (perform_full_analysis_complete_inv _ _ _ _ _ _ _ _ Hpfa Hd)
    as (t & h & g & oh & tasks & options & HT & HH & HG & _).
  eapply (uncomputable_costs_recommend_nothing (with_catalog a env) video_uri
            OH T H G d t h g); try done.
  { by rewrite Hpfa. }
  intros r (info & -> & Hinfo)%list_elem_of_fmap.
  apply not_computable_without_op_cost. simpl.
  unfold scan_available_robots in Hinfo.
  assert (Hempty : load_robot_metadata (metadata_path a) = ∅).
  { by destruct Hmeta as [-> | ->]. }
  rewrite Hempty in Hinfo.
  destruct (urdf_dir a) as [files|]; [|by apply elem_of_nil in Hinfo].
  apply list_elem_of_omap in Hinfo as (entry & _ & Hentry).
  destruct (parse_urdf_capabilities entry.2); [|done].
  simpl in Hentry. injection Hentry as <-. simpl.
  by rewrite lookup_empty.
Qed.

End CatalogProperties.


Lemma no_metadata_no_recommendation_witness :
  (∀ e rc, e ∈ cost_benefit_in bare_payload → rc ∈ robot_cost_comparison e →
     robot_effective_cost_per_human_min rc = NA ∧ is_cheaper rc = NA)
  ∧ ∃ rec, recommendation_in bare_payload = Some rec
      ∧ (recommended_option_id rec = None
         ∨ recommended_option_id rec = Some "No_Automation").
Proof.
  apply (no_metadata_no_recommendation bare_assets scenario_env
           "gs://bucket/clip.mp4" (VNum (nz 1)) (VNum (nz 5)) (VNum (nz 40))
           (VNum (nz 0)) bare_payload).
  - by_compute.
  - split; reflexivity.
  - by left.
Defined.

(* ================================================================== *)
(** * Further properties of the request endpoint *)

Section EndpointProperties.

Context {float_parser : FloatParser}.

Lemma endpoint_convert_inv (data : request_data) oh t h g :
  endpoint_convert data = Ok (oh, t, h, g) →
  (t <=? nz 0)%num = false ∧ (h <=? nz 0)%num = false
  ∧ (oh <=? nz 0)%num = false.
Proof.
  unfold endpoint_convert.
  destruct (py_float (rq_human_cost_min data)) as [oh'|]; [|done].
  destruct (py_float (rq_depreciation_years data)) as [t'|]; [|done].
  destruct (py_float (rq_hours_per_week data)) as [h'|]; [|done].
  destruct (py_float (rq_efficiency_gain data)) as [g'|]; [|done].
  simpl.
  destruct (t' <=? nz 0)%num eqn:Ht; [done|].
  destruct (h' <=? nz 0)%num eqn:Hh; [done|]. simpl.
  destruct (oh' <=? nz 0)%num eqn:Hoh; [done|].
  by intros [= <- <- <- <-].
Qed.

Lemma convert_inputs_numbers (oh t h g : num) :
  (oh <=? nz 0)%num = false →
  convert_inputs (VNum oh) (VNum t) (VNum h) (VNum g)
  = Ok (t, h, (g / nz 100)%num, oh).
Proof.
  intros Hoh.
  destruct (convert_inputs_cases (VNum oh) (VNum t) (VNum h) (VNum g))
    as [(t' & h' & g' & oh' & -> & [= <-] & [= <-] & [= <-] & [= <-] & _)
       |(e & Hconv & _)]; [done|].
  unfold convert_inputs in Hconv. simpl in Hconv. by rewrite Hoh in Hconv.
Qed.

(** X10.  The status of the answer tells how far the analysis went: an answer
    with status 400 is given before any collaborator is called, and an
    answer with status 200 after the task extractor, the catalog loader
    and the option generator were called, in this order, each once.
    There is no other status than 200, 400 and 500. *)
Theorem endpoint_status_tells_the_calls (env : collaborators)
    (data : option request_data) :
  let calls := (analyze_robotics env data).1 in
  let status := (analyze_robotics env data).2.2 in
  (status = 200 ∨ status = 400 ∨ status = 500)
  ∧ (status = 400 → calls = [])
  ∧ (status = 200 →
     ∃ video_uri prompt,
       calls = [CallTaskExtractor video_uri; CallCatalogLoader;
                CallOptionGenerator prompt]).
Proof.
  assert (Herr : ∀ status calls, status = 400 ∧ calls = [] ∨ status = 500 →
            (status = 200 ∨ status = 400 ∨ status = 500)
            ∧ (status = 400 → calls = [])
            ∧ (status = 200 →
               ∃ video_uri prompt,
                 calls = [CallTaskExtractor video_uri; CallCatalogLoader;
                          CallOptionGenerator prompt])).
  { intros status calls [[-> ->]| ->]; repeat split; try done; by auto. }
  unfold analyze_robotics.
  destruct data as [data|]; simpl; [|by apply Herr; left].
  destruct (_ || _); simpl; [by apply Herr; left|].
  destruct (rq_video_uri data) as [| | |video_uri|]; simpl;
    try (by apply Herr; left).
  destruct (String.prefix _ _); simpl; [|by apply Herr; left].
  destruct (endpoint_convert data) as [[[[oh t] h] g]|e] eqn:Hconv; simpl.
  2:{ case_bool_decide; simpl; apply Herr; by auto. }
  pose proof (perform_full_analysis_result env video_uri (VNum oh) (VNum t)
                (VNum h) (VNum g)) as Hres.
  destruct (perform_full_analysis _ _ _ _ _ _) as [calls [d|e]] eqn:Hpfa;
    simpl in *; [|apply Herr; by auto].
  destruct (Hres d eq_refl) as [(message & -> & Hmsg)|Hd].
  - simpl. rewrite Hmsg. simpl. apply Herr. by auto.
  - destruct (perform_full_analysis_complete_inv _ _ _ _ _ _ _ _ Hpfa Hd)
      as (_ & _ & _ & _ & tasks & _ & _ & _ & _ & _ & _ & _ & _ & _ & -> & _).
    destruct Hd as [_ ->]. simpl.
    split; [by auto|]. split; [done|]. intros _. by eexists _, _.
Qed.

(** X11.  The validation of the financial inputs in [perform_full_analysis]
    is never what answers a request: the endpoint has already converted
    and checked them. *)
Theorem endpoint_never_reports_invalid_financial_input (env : collaborators)
    (data : option request_data) :
  (analyze_robotics env data).2.1
  ≠ error_object "Invalid financial input provided".
Proof.
  unfold analyze_robotics.
  destruct data as [data|]; simpl; [|done].
  destruct (_ || _); simpl; [done|].
  destruct (rq_video_uri data) as [| | |video_uri|]; simpl; try done.
  destruct (String.prefix _ _); simpl; [|done].
  destruct (endpoint_convert data) as [[[[oh t] h] g]|e] eqn:Hconv; simpl.
  2:{ by case_bool_decide. }
  apply endpoint_convert_inv in Hconv as (_ & _ & Hoh).
  unfold perform_full_analysis. rewrite convert_inputs_numbers by done.
  destruct (analyze_video_process env video_uri) as [[|task tasks]|]; simpl;
    try done.
  destruct (get_available_robots env) as [|r robots]; simpl; [done|].
  destruct (analyse _ _ _ _ _ _ _) as [d|e] eqn:Han; simpl; [|done].
  apply analyse_complete in Han as [Hkeys Hnone]. rewrite Hnone.
  simpl. intros Heq. by rewrite Heq in Hkeys.
Qed.

End EndpointProperties.

(* ================================================================== *)
(** * The percentage saved *)

Lemma evaluate_option_percent (human_cost_min depreciation_years : num)
    (human_tasks : list task) (cpy : num) (md : gmap string robot)
    (id : string) (costs : list robot_cost_entry) (o : automation_option)
    (p : option_projection) (s : option_saving) :
  evaluate_option human_cost_min depreciation_years human_tasks cpy md id
    costs o = Ok (p, s) →
  let automated :=
    sum_nums (task_cost_with_automation human_cost_min o costs <$> human_tasks) in
  let manual := sum_nums ((λ _, human_cost_min) <$> human_tasks) in
  percent_savings s =
    if (nz 0 <? manual)%num
    then ((manual - automated) / manual * nz 100)%num else nz 0.
Proof.
  unfold evaluate_option. rewrite cycle_costs_sums. intros Hev.
  destruct (sum_robot_capex _ _ _) as [capex|]; [|done]. simpl in Hev.
  destruct (py_int depreciation_years) as [last_year|]; [|done].
  simpl in Hev. cbv zeta.
  destruct (nz 0 <? sum_nums _)%num eqn:Hpos.
  - rewrite py_div_nonzero in Hev by by apply num_pos_nonzero.
    simpl in Hev. by injection Hev as <- <-.
  - simpl in Hev. by injection Hev as <- <-.
Qed.

Lemma percent_bound (m : Qc) (a : num) :
  (0 < m)%Qc → (a <? Fin 0%Qc)%num = false →
  (nz 100 <? (Fin m - a) / Fin m * nz 100)%num = false.
Proof.
  intros Hm. unfold num_sub, num_opp, num_add, num_quot, num_mul, num_ltb, nz.
  assert (H100 : (0 < qz 100)%Qc) by by apply qz_lt.
  destruct a as [a| | |]; try done.
  - intros Ha%bool_decide_eq_false%Qcnot_lt_le.
    apply bool_decide_eq_false, Qcle_not_lt.
    assert (Hm' : m ≠ 0%Qc) by (intros ->; by apply Qclt_not_eq in Hm).
    assert (Hq : ((m + - a) / m ≤ 1)%Qc).
    { unfold Qcdiv.
      replace 1%Qc with (m * / m)%Qc by by apply Qcmult_inv_r.
      apply Qcmult_le_mono_nonneg_r; [by apply Qclt_le_weak, Qcinv_pos|].
      apply Qcle_minus_iff.
      by replace (m + - (m + - a))%Qc with a by ring. }
    replace (qz 100) with (1 * qz 100)%Qc at 2 by apply Qcmult_1_l.
    apply Qcmult_le_mono_nonneg_r; [by apply Qclt_le_weak|done].
  - intros _. unfold inf_times.
    assert (Hneg : (- m < 0)%Qc).
    { apply Qclt_minus_iff. by replace (0 + - - m)%Qc with m by ring. }
    rewrite bool_decide_eq_false_2 by by apply Qcle_not_lt, Qclt_le_weak.
    rewrite bool_decide_eq_true_2 by done.
    assert (Hneg' : (- qz 100 < 0)%Qc).
    { apply Qclt_minus_iff. by replace (0 + - - qz 100)%Qc with (qz 100) by ring. }
    rewrite bool_decide_eq_false_2 by by apply Qcle_not_lt, Qclt_le_weak.
    by rewrite bool_decide_eq_true_2 by done.
Qed.

(** X22.  When no robot of a cost comparison has a negative cost, no
    saving summary reports a saving of more than 100 percent. *)
Theorem percent_savings_at_most_100
    (cost_benefit_results : list cost_benefit_result) (human_cost_min : Qc)
    (automation_options : list automation_option) (tasks : list task)
    (depreciation_years hours_per_week : num) (robots : list robot)
    (rec : recommendation) ss s :
  determine_recommendation_new cost_benefit_results (Fin human_cost_min)
    automation_options tasks depreciation_years hours_per_week robots
    = Ok rec →
  option_savings rec = Some ss →
  s ∈ ss →
  (∀ e rc c, e ∈ cost_benefit_results → rc ∈ robot_cost_comparison e →
     num_of_pyval (robot_effective_cost_per_human_min rc) = Some c →
     (c <? nz 0)%num = false) →
  (nz 100 <? percent_savings s)%num = false.
Proof.
  intros Hdet Hss Hs Hcosts.
  assert (Hh : (0 < human_cost_min)%Qc).
  { apply determine_recommendation_inv in Hdet
      as (m & _ & [[_ ->]|([_ Hle] & _)]); [done|].
    unfold num_leb, nz in Hle. apply bool_decide_eq_false in Hle.
    by apply Qcnot_le_lt in Hle. }
  destruct (saving_is_evaluation _ _ _ _ _ _ _ _ _ _ Hdet Hss Hs)
    as (m & e & o & p & _ & He & _ & Hev).
  apply evaluate_option_percent in Hev. cbv zeta in Hev. rewrite Hev.
  rewrite sum_nums_human_cost.
  change (num_of_nat (count_human_tasks tasks) * Fin human_cost_min)%num
    with (Fin (qz (Z.of_nat (count_human_tasks tasks)) * human_cost_min)).
  set (manual := (qz (Z.of_nat (count_human_tasks tasks)) * human_cost_min)%Qc).
  destruct (nz 0 <? Fin manual)%num eqn:Hpos; [|done].
  apply percent_bound.
  { unfold num_ltb, nz in Hpos. apply bool_decide_eq_true in Hpos.
    by rewrite qz_0 in Hpos. }
  pose proof (sum_nums_not_below 0
                (task_cost_with_automation (Fin human_cost_min) o
                   (robot_cost_comparison e) <$> human_tasks_of tasks))
    as Hsum.
  unfold num_of_nat, nz, num_mul in Hsum. rewrite Qcmult_0_r in Hsum.
  apply Hsum. apply Forall_fmap, Forall_forall. intros t _. simpl.
  unfold task_cost_with_automation.
  destruct (assigned_robot o (task_id t) ≫= numeric_cost _) as [c|] eqn:Hc.
  - destruct (assigned_robot o (task_id t)) as [name|]; [|done].
    simpl in Hc. unfold numeric_cost in Hc.
    apply last_Some_elem_of, list_elem_of_omap in Hc as (rc & Hrc & Hnum).
    case_bool_decide; [|done].
    pose proof (Hcosts e rc c He Hrc Hnum) as Hnonneg.
    unfold nz in Hnonneg. by rewrite qz_0 in Hnonneg.
  - unfold num_ltb. by apply bool_decide_eq_false, Qcle_not_lt, Qclt_le_weak.
Qed.

Lemma percent_savings_at_most_100_witness :
  (nz 100 <? percent_savings scenario_saving)%num = false.
Proof.
  apply (percent_savings_at_most_100 [scenario_costs "A"] 1%Qc
           [scenario_option] scenario_tasks (nz 5) (nz 40) [scenario_robot]
           scenario_result [scenario_saving] scenario_saving).
  - by_compute.
  - reflexivity.
  - by left.
  - intros e rc c ->%list_elem_of_singleton ->%list_elem_of_singleton [= <-].
    reflexivity.
Defined.

